(** * StreamDeck Remote: configuration merge, tile validation, program
      resolution and request admission of [server.js]

    A shallow embedding of the server's pure core together with the
    properties it is expected to satisfy.  JavaScript strings are sequences
    of UTF-16 code units, JSON values are an inductive type, objects used as
    dictionaries and the [Map]s of the admission layer are finite maps, and
    a function that can throw returns a [result] or a sum.  The conversion
    [String(v)] is given twice: [to_string] is its value where it returns,
    [convertible] tells where that is, and [str_or_emptyE], [safeTrimE] and
    the routes built on them carry its [TypeError]. *)

From Stdlib Require Import ZArith NArith QArith Qround Qminmax List Bool Ascii String Lia.
From stdpp Require Import base option list gmap fin_maps.

Local Open Scope string_scope.
Local Open Scope list_scope.
Local Open Scope stdpp_scope.
Local Open Scope Z_scope.

(** ** JavaScript strings *)

(** A JavaScript string is a list of UTF-16 code units.  [js] reads an ASCII
    literal of the source as such a list. *)
Abbreviation jsstring := (list N).

Definition js (s : string) : jsstring :=
  List.map N_of_ascii (list_ascii_of_string s).

Definition str_eqb (a b : jsstring) : bool := bool_decide (a = b).

Definition is_empty (s : jsstring) : bool :=
  match s with [] => true | _ => false end.

(** [WhiteSpace] and [LineTerminator] of ECMAScript: what [trim] removes and
    what [\s] matches. *)
Definition is_ws (c : N) : bool :=
  ((9 <=? c) && (c <=? 13) || (c =? 32) || (c =? 160) || (c =? 5760)
   || (8192 <=? c) && (c <=? 8202) || (c =? 8232) || (c =? 8233)
   || (c =? 8239) || (c =? 8287) || (c =? 12288) || (c =? 65279))%N.

(** The class [[\u0000-\u001f\u007f]] removed by [safeTrim]. *)
Definition is_control (c : N) : bool := ((c <=? 31) || (c =? 127))%N.

Fixpoint trimStart (s : jsstring) : jsstring :=
  match s with
  | c :: r => if is_ws c then trimStart r else s
  | [] => []
  end.

Definition trimEnd (s : jsstring) : jsstring := rev (trimStart (rev s)).

Definition trim (s : jsstring) : jsstring := trimEnd (trimStart s).

Definition strip_controls (s : jsstring) : jsstring :=
  List.filter (fun c => negb (is_control c)) s.

Definition has_ws (s : jsstring) : bool := existsb is_ws s.

Definition has_nul (s : jsstring) : bool := existsb (N.eqb 0) s.

Fixpoint startsWith (s p : jsstring) : bool :=
  match p, s with
  | [], _ => true
  | a :: p', b :: s' => (a =? b)%N && startsWith s' p'
  | _ :: _, [] => false
  end.

Fixpoint includes (s p : jsstring) : bool :=
  startsWith s p || match s with [] => false | _ :: r => includes r p end.

Definition endsWith (s p : jsstring) : bool := startsWith (rev s) (rev p).

(** The regular expression [/^[a-z][a-z0-9+.-]*:/i]. *)
Definition is_alpha (c : N) : bool :=
  ((65 <=? c) && (c <=? 90) || (97 <=? c) && (c <=? 122))%N.

Definition is_scheme_char (c : N) : bool :=
  (is_alpha c || (48 <=? c) && (c <=? 57) || (c =? 43) || (c =? 46) || (c =? 45))%N.

Fixpoint scheme_rest (s : jsstring) : bool :=
  match s with
  | [] => false
  | c :: r => (c =? 58)%N || is_scheme_char c && scheme_rest r
  end.

Definition has_scheme_prefix (s : jsstring) : bool :=
  match s with
  | c :: r => is_alpha c && scheme_rest r
  | [] => false
  end.

Definition ascii_lower (c : N) : N :=
  if ((65 <=? c) && (c <=? 90))%N then (c + 32)%N else c.

(** Decimal digits of a natural number, as [String(n)] prints an integer
    below [1e21]. *)
Fixpoint decimal_digits (fuel : nat) (n : N) (acc : jsstring) : jsstring :=
  match fuel with
  | O => acc
  | S f =>
      let acc' := (48 + n mod 10)%N :: acc in
      if (n <? 10)%N then acc' else decimal_digits f (n / 10)%N acc'
  end.

Definition decimal (n : N) : jsstring := decimal_digits (S (N.to_nat (N.log2 n))) n [].

(** [s.split(/\s+/).filter(Boolean)]: the maximal runs without white space. *)
Fixpoint words_loop (s cur : jsstring) : list jsstring :=
  match s with
  | [] => if is_empty cur then [] else [cur]
  | c :: r =>
      if is_ws c then (if is_empty cur then words_loop r [] else cur :: words_loop r [])
      else words_loop r (cur ++ [c])
  end.

Definition words (s : jsstring) : list jsstring := words_loop s [].

(** [s.split(sep)] for a one-unit separator. *)
Fixpoint split_loop (sep : N) (s cur : jsstring) : list jsstring :=
  match s with
  | [] => [cur]
  | c :: r => if (c =? sep)%N then cur :: split_loop sep r [] else split_loop sep r (cur ++ [c])
  end.

Definition split (sep : N) (s : jsstring) : list jsstring := split_loop sep s [].

(** [Buffer.from(s, "utf8")]: a surrogate pair is one code point, an unpaired
    surrogate is encoded as U+FFFD. *)
Definition is_high_surrogate (c : N) : bool := ((55296 <=? c) && (c <=? 56319))%N.
Definition is_low_surrogate (c : N) : bool := ((56320 <=? c) && (c <=? 57343))%N.

Definition utf8_3 (c : N) : list N :=
  [224 + c / 4096; 128 + (c / 64) mod 64; 128 + c mod 64]%N.

Definition utf8_4 (cp : N) : list N :=
  [240 + cp / 262144; 128 + (cp / 4096) mod 64; 128 + (cp / 64) mod 64; 128 + cp mod 64]%N.

Fixpoint utf8_encode (s : jsstring) : list N :=
  match s with
  | [] => []
  | c :: r =>
      if (c <? 128)%N then c :: utf8_encode r
      else if (c <? 2048)%N then [192 + c / 64; 128 + c mod 64]%N ++ utf8_encode r
      else if is_high_surrogate c then
        match r with
        | d :: r' =>
            if is_low_surrogate d
            then utf8_4 (65536 + (c - 55296) * 1024 + (d - 56320))%N ++ utf8_encode r'
            else utf8_3 65533 ++ utf8_encode r
        | [] => utf8_3 65533
        end
      else if is_low_surrogate c then utf8_3 65533 ++ utf8_encode r
      else utf8_3 c ++ utf8_encode r
  end.

(** Well-formed UTF-16: code units below 65536, every surrogate in a pair. *)
Fixpoint well_formed (s : jsstring) : bool :=
  match s with
  | [] => true
  | c :: r =>
      if (65536 <=? c)%N then false
      else if is_high_surrogate c then
        match r with
        | d :: r' => is_low_surrogate d && well_formed r'
        | [] => false
        end
      else if is_low_surrogate c then false
      else well_formed r
  end.

(** The decoder of UTF-8 that reads back what [utf8_encode] writes. *)
Fixpoint utf8_decode (bs : list N) : jsstring :=
  match bs with
  | [] => []
  | b0 :: r0 =>
      if (b0 <? 128)%N then b0 :: utf8_decode r0
      else
        match r0 with
        | [] => []
        | b1 :: r1 =>
            if (b0 <? 224)%N then ((b0 - 192) * 64 + (b1 - 128))%N :: utf8_decode r1
            else
              match r1 with
              | [] => []
              | b2 :: r2 =>
                  if (b0 <? 240)%N
                  then ((b0 - 224) * 4096 + (b1 - 128) * 64 + (b2 - 128))%N :: utf8_decode r2
                  else
                    match r2 with
                    | [] => []
                    | b3 :: r3 =>
                        let cp := ((b0 - 240) * 262144 + (b1 - 128) * 4096
                                   + (b2 - 128) * 64 + (b3 - 128))%N in
                        (55296 + (cp - 65536) / 1024)%N
                          :: (56320 + (cp - 65536) mod 1024)%N :: utf8_decode r3
                    end
              end
        end
  end.

(** [crypto.timingSafeEqual(a, b)] for buffers of one length: every byte pair
    is combined, nothing is decided before the end. *)
Fixpoint xor_fold (a b : list N) (acc : N) : N :=
  match a, b with
  | x :: a', y :: b' => xor_fold a' b' (N.lor acc (N.lxor x y))
  | _, _ => acc
  end.

Definition timingSafeEqual (a b : list N) : bool := (xor_fold a b 0 =? 0)%N.

(** [safeTrim(value, maxLen)] on a string: trimmed, without control
    characters, cut to [maxLen] code units. *)
Definition safeTrimStr (s : jsstring) (maxLen : nat) : jsstring :=
  take maxLen (strip_controls (trim s)).

Definition is_empty_list {A} (l : list A) : bool :=
  match l with [] => true | _ => false end.

Definition mem_str (s : jsstring) (l : list jsstring) : bool :=
  existsb (str_eqb s) l.

(** ** Numbers and JSON values *)

(** A JavaScript number: a finite double is a rational, the other values are
    NaN and the two infinities.  The sign of zero is not observed by the code
    below. *)
Inductive number :=
| Fin (q : Q)
| NaN
| Inf (negative : bool).

Definition num_of_Z (z : Z) : number := Fin (inject_Z z).

(** An integer literal of the source is a number. *)
Coercion num_of_Z : Z >-> number.

Definition num_isFinite (n : number) : bool :=
  match n with Fin _ => true | _ => false end.

Definition num_isInteger (n : number) : bool :=
  match n with Fin q => Qeq_bool q (inject_Z (Qfloor q)) | _ => false end.

Definition num_truthy (n : number) : bool :=
  match n with Fin q => negb (Qnum q =? 0) | NaN => false | Inf _ => true end.

(** [Math.floor] of a finite number. *)
Definition num_floor (q : Q) : Z := Qfloor q.

#[warnings="-register-all"]
Inductive value :=
| VNull
| VBool (b : bool)
| VNum (n : number)
| VStr (s : jsstring)
| VArr (items : list value)
| VObj (fields : list (jsstring * value)).

(** Own-property read [o.k] of a parsed JSON value; [None] is [undefined].
    Only objects carry the property names the server reads. *)
Fixpoint assoc (k : jsstring) (fields : list (jsstring * value)) : option value :=
  match fields with
  | [] => None
  | (k', v) :: r => if str_eqb k k' then Some v else assoc k r
  end.

Definition get (v : value) (k : string) : option value :=
  match v with VObj fields => assoc (js k) fields | _ => None end.

(** [o?.k] and [o && o.k] on an optional receiver. *)
Definition get_opt (o : option value) (k : string) : option value :=
  match o with Some v => get v k | None => None end.

(** [typeof v === "object"] together with [v] being truthy. *)
Definition is_object (v : value) : bool :=
  match v with VArr _ | VObj _ => true | _ => false end.

Definition truthy (v : value) : bool :=
  match v with
  | VNull => false
  | VBool b => b
  | VNum n => num_truthy n
  | VStr s => negb (is_empty s)
  | VArr _ | VObj _ => true
  end.

Definition truthy_opt (o : option value) : bool :=
  match o with Some v => truthy v | None => false end.

Fixpoint join (sep : jsstring) (l : list jsstring) : jsstring :=
  match l with
  | [] => []
  | [x] => x
  | x :: r => x ++ sep ++ join sep r
  end.


(** ** Results of code that can throw *)

Inductive error := TypeError.

Inductive result (A : Type) :=
| Ok (a : A)
| Throw (e : error).
Arguments Ok {A} a.
Arguments Throw {A} e.

Definition bind {A B} (r : result A) (k : A -> result B) : result B :=
  match r with Ok a => k a | Throw e => Throw e end.

Notation "x <- r ;; k" := (bind r (fun x => k))
  (at level 100, r at next level, right associativity).

Fixpoint mapM {A B} (f : A -> result B) (l : list A) : result (list B) :=
  match l with
  | [] => Ok []
  | a :: r => b <- f a ;; bs <- mapM f r ;; Ok (b :: bs)
  end.

(** ** The data model *)

Record Tile := mkTile {
  tile_id : jsstring;
  tile_profile : jsstring;
  tile_page : jsstring;
  tile_label : jsstring;
  tile_subtitle : jsstring;
  tile_type : jsstring;
  tile_builtin : bool;
  tile_showIf : option jsstring;
  tile_iconMode : jsstring;
  tile_icon : jsstring;
  tile_iconData : option jsstring;
  tile_launcherKey : option jsstring;
  tile_target : option jsstring;
  tile_args : option (list jsstring);
  tile_startIn : option jsstring;
  tile_action : option jsstring
}.

Record Page := mkPage { page_id : jsstring; page_label : jsstring }.

Record Profile := mkProfile {
  profile_id : jsstring;
  profile_label : jsstring;
  profile_pages : list Page
}.

Record Launcher := mkLauncher {
  launcher_label : jsstring;
  launcher_path : value;
  launcher_candidates : list jsstring
}.

Record RateLimit := mkRateLimit { rl_windowMs : Z; rl_max : Z }.

Record WowFolders := mkWowFolders { wf_addons : value; wf_logs : value; wf_wtf : value }.

Record Wow := mkWow { wow_processName : value; wow_folders : WowFolders }.

Record Logging := mkLogging { log_enabled : bool; log_dir : jsstring; log_maxFiles : Z }.

Record Config := mkConfig {
  cfg_host : jsstring;
  cfg_port : Z;
  cfg_token : jsstring;
  cfg_workspaceDir : jsstring;
  cfg_rateLimit : RateLimit;
  cfg_wow : Wow;
  cfg_logging : Logging;
  cfg_launchers : gmap jsstring Launcher;
  cfg_profiles : list Profile;
  cfg_tiles : list Tile
}.

(** Requests, responses and the state of the admission layer. *)
Record Request := mkRequest {
  req_id : jsstring;                     (* req.requestId *)
  req_header_token : option jsstring;    (* req.header("x-token") *)
  req_query_token : option value;        (* req.query.token *)
  req_ip : option jsstring;              (* req.ip *)
  req_remoteAddress : option jsstring;   (* req.socket?.remoteAddress *)
  req_body : option value                (* req.body *)
}.

Record Response := mkResponse {
  res_status : Z;
  res_headers : list (jsstring * jsstring);
  res_body : value
}.

Inductive outcome :=
| Next
| Respond (r : Response).

Record RateEntry := mkRateEntry { t0 : Z; n : Z }.

Record Admission := mkAdmission {
  rateState : gmap jsstring RateEntry;
  rateSweepCounter : Z
}.

Record ServerState := mkServerState {
  config : Config;
  admission : Admission
}.

(** An entry of the program index and a row of a ranking. *)
Record ProgramEntry := mkProgramEntry {
  entry_label : jsstring;
  entry_path : jsstring;
  entry_source : jsstring;
  entry_ext : jsstring;
  entry_fileName : jsstring;
  entry_labelLower : jsstring;
  entry_fileLower : jsstring;
  entry_pathLower : jsstring
}.

Record Ranked := mkRanked { ranked_entry : ProgramEntry; ranked_score : Z }.

(** The files of the machine and what [fs] calls do to them.  A call can
    fail: [faults k] tells whether the [k]-th call of a run throws, and how
    many bytes a failing [writeFileSync] had written by then. *)
Record Disk := mkDisk {
  files : gmap jsstring jsstring;
  calls : nat
}.

Inductive fs_error := EIO.

(** ** Constants of [server.js] *)

Definition TILE_TYPES : list jsstring :=
  [js "action"; js "app"; js "folder"; js "url"; js "protocol"].

Definition ICON_MODES : list jsstring := [js "auto"; js "emoji"; js "image"].

Definition TILE_SHOW_IF : list jsstring := [[]; js "wowRunning"; js "wowNotRunning"].

Definition NAMED_ACTIONS : list jsstring :=
  [js "terminal"; js "powershell"; js "browser"; js "discord"; js "wowStart";
   js "openWorkspace"; js "vscode"; js "wowClassic"; js "wowTBC";
   js "openWowAddons"; js "openWowLogs"; js "openWowWtf"].

Definition MAX_PATH_LEN : Z := 2048.

Definition MAX_ICON_DATA_URL_LEN : Z := 2000000.

Definition len (s : jsstring) : Z := Z.of_nat (length s).

Definition getDefaultProfiles : list Profile :=
  [ mkProfile (js "work") (js "Work")
      [mkPage (js "main") (js "Main"); mkPage (js "dev") (js "Dev")];
    mkProfile (js "wow") (js "WoW")
      [mkPage (js "main") (js "Main"); mkPage (js "addons") (js "Addons")];
    mkProfile (js "streaming") (js "Streaming")
      [mkPage (js "main") (js "Main"); mkPage (js "social") (js "Social")];
    mkProfile (js "fav") (js "Favorites") [mkPage (js "main") (js "Main")] ].

(** A literal of [getDefaultTiles]: the fields every built-in tile writes,
    then the optional ones. *)
Definition builtinTile (id profile page label subtitle type iconMode : string)
    (icon : jsstring) (launcherKey target : option string)
    (args : option (list jsstring)) (startIn action showIf : option string) : Tile :=
  mkTile (js id) (js profile) (js page) (js label) (js subtitle) (js type) true
    (js <$> showIf) (js iconMode) icon None (js <$> launcherKey) (js <$> target)
    args (js <$> startIn) (js <$> action).

Definition getDefaultTiles : list Tile :=
  [ builtinTile "vscode" "work" "dev" "VS Code" "Workspace" "app" "auto"
      [55357; 56507]%N (Some "vscode") None (Some [js "."]) (Some "{{workspaceDir}}") None None;
    builtinTile "terminal" "work" "main" "Terminal" "Windows Terminal" "action" "emoji"
      [9000; 65039]%N None None None None (Some "terminal") None;
    builtinTile "powershell" "work" "main" "PowerShell" "Neue Session" "action" "emoji"
      [55358; 56816]%N None None None None (Some "powershell") None;
    builtinTile "workspace" "work" "main" "Projektordner" "Explorer" "folder" "emoji"
      [55357; 56513]%N None (Some "{{workspaceDir}}") None None None None;
    builtinTile "wowStart" "wow" "main" "WoW Start" "Launcher + WoW Profil" "action" "emoji"
      [55356; 57262]%N None None None None (Some "wowStart") (Some "wowNotRunning");
    builtinTile "wowLauncher" "wow" "main" "WoW Launcher" "Direkt starten" "app" "auto"
      [55356; 57262]%N (Some "wow") None None None None None;
    builtinTile "wowAddons" "wow" "addons" "AddOns" "Ordner oeffnen" "folder" "emoji"
      [55358; 56809]%N None (Some "{{wow.folders.addons}}") None None None (Some "wowRunning");
    builtinTile "wowLogs" "wow" "addons" "Logs" "Ordner oeffnen" "folder" "emoji"
      [55357; 56541]%N None (Some "{{wow.folders.logs}}") None None None (Some "wowRunning");
    builtinTile "wowWtf" "wow" "addons" "WTF" "Ordner oeffnen" "folder" "emoji"
      [9881; 65039]%N None (Some "{{wow.folders.wtf}}") None None None (Some "wowRunning");
    builtinTile "discord" "streaming" "social" "Discord" "Protocol" "protocol" "emoji"
      [55357; 56492]%N None (Some "discord://") None None None None;
    builtinTile "obs" "streaming" "main" "OBS Studio" "Streaming" "app" "auto"
      [55356; 57260]%N (Some "obs") None None None None None ].

Definition builtinTileIds : list jsstring := tile_id <$> getDefaultTiles.

Definition builtinProfileIds : list jsstring := profile_id <$> getDefaultProfiles.

(** A string that does not start, resp. end, with white space. *)
Definition no_lead (s : jsstring) : Prop :=
  match s with c :: _ => is_ws c = false | [] => True end.

Definition no_trail (s : jsstring) : Prop := no_lead (rev s).

(** The argument [normalizeHttpUrl] hands to [new URL]. *)
Definition urlCandidate (target : jsstring) : jsstring :=
  if includes target (js "://") then target else js "https://" ++ target.



(** [secureEqualText(a, b)] on two strings. *)
Definition secureEqualText (a b : jsstring) : bool :=
  let aBuf := utf8_encode a in
  let bBuf := utf8_encode b in
  if negb (length aBuf =? length bBuf)%nat then false else timingSafeEqual aBuf bBuf.

(** ** A concrete host

    A small, fully computable stand-in for the JavaScript runtime and the
    machine, on which the model is evaluated in examples: no environment
    variable is set, no file exists, paths are joined with a backslash,
    case mapping and collation are those of ASCII, and [new URL] accepts
    exactly the strings that start with a scheme and hold no white space. *)
Module DemoHost.

Definition digit_value (c : N) : option Z :=
  if ((48 <=? c) && (c <=? 57))%N then Some (Z.of_N c - 48) else None.

Fixpoint digits_value (s : jsstring) (acc : Z) : option Z :=
  match s with
  | [] => Some acc
  | c :: r => match digit_value c with
              | Some d => digits_value r (10 * acc + d)
              | None => None
              end
  end.

Definition string_to_num (s : jsstring) : number :=
  match trim s with
  | [] => num_of_Z 0
  | t => match digits_value t 0 with Some z => num_of_Z z | None => NaN end
  end.

Definition num_to_string (n : number) : jsstring :=
  match n with
  | Fin q =>
      let z := Qfloor q in
      (if z <? 0 then js "-" else []) ++ decimal (Z.abs_N z)
  | NaN => js "NaN"
  | Inf false => js "Infinity"
  | Inf true => js "-Infinity"
  end.

Definition toLowerCase (s : jsstring) : jsstring := ascii_lower <$> s.

Fixpoint compare_units (a b : jsstring) : Z :=
  match a, b with
  | [], [] => 0
  | [], _ :: _ => -1
  | _ :: _, [] => 1
  | x :: a', y :: b' =>
      if (x <? y)%N then -1 else if (y <? x)%N then 1 else compare_units a' b'
  end.

Definition localeCompare (a b : jsstring) : Z :=
  compare_units (toLowerCase a) (toLowerCase b).

Fixpoint scheme_of (s : jsstring) : jsstring :=
  match s with
  | [] => []
  | c :: r => if (c =? 58)%N then [c] else c :: scheme_of r
  end.

Definition url_parse (s : jsstring) : option (jsstring * jsstring) :=
  if has_scheme_prefix s && negb (has_ws s) then Some (toLowerCase (scheme_of s), s) else None.

Definition env (key : jsstring) : option jsstring := None.

Definition cwd : jsstring := js "C:\work".

Definition fileExists (p : jsstring) : bool := false.

Definition dirExists (p : jsstring) : bool := false.

Definition BACKSLASH : N := 92%N.

Definition path_join (parts : list jsstring) : jsstring :=
  join [BACKSLASH] (List.filter (fun x => negb (is_empty x)) parts).

Definition is_sep (c : N) : bool := ((c =? 92) || (c =? 47))%N.

Fixpoint last_segment (s acc : jsstring) : jsstring :=
  match s with
  | [] => acc
  | c :: r => if is_sep c then last_segment r [] else last_segment r (acc ++ [c])
  end.

Definition path_basename (p : jsstring) : jsstring := last_segment p [].

Fixpoint last_dot_suffix (s : jsstring) (acc : option jsstring) : jsstring :=
  match s with
  | [] => default [] acc
  | c :: r =>
      if (c =? 46)%N then last_dot_suffix r (Some [c])
      else last_dot_suffix r ((fun a => a ++ [c]) <$> acc)
  end.

Definition path_extname (p : jsstring) : jsstring :=
  match path_basename p with
  | [] => []
  | _ :: r => last_dot_suffix r None
  end.

Definition path_dirname (p : jsstring) : jsstring :=
  take (length p - length (path_basename p) - 1) p.

Definition path_basename_ext (p ext : jsstring) : jsstring :=
  let base := path_basename p in
  if negb (is_empty ext) && endsWith base ext
  then take (length base - length ext) base else base.

(** The names every object inherits from [Object.prototype]. *)
Definition inherited (cur : value) (part : jsstring) : bool :=
  mem_str part [ js "constructor"; js "__proto__"; js "hasOwnProperty"; js "isPrototypeOf";
                 js "propertyIsEnumerable"; js "toLocaleString"; js "toString";
                 js "valueOf" ].

End DemoHost.

(** ** Sample inputs *)
Module Samples.

(** [{id:"x", profile:"p", page:"main", label:"L", type, ...extra}]. *)
Definition rawTile (type : string) (extra : list (jsstring * value)) : value :=
  VObj ([ (js "id", VStr (js "x")); (js "profile", VStr (js "p"));
          (js "page", VStr (js "main")); (js "label", VStr (js "L"));
          (js "type", VStr (js type)) ] ++ extra).

(** [{profiles: [{id:"mine", label:"Mine", pages:[{id:"p1", label:"P1"}]}]}]. *)
Definition userProfiles : value :=
  VObj [(js "profiles",
         VArr [VObj [ (js "id", VStr (js "mine")); (js "label", VStr (js "Mine"));
                      (js "pages",
                       VArr [VObj [(js "id", VStr (js "p1")); (js "label", VStr (js "P1"))]]) ]])].




(** [{launchers: {vscode: {candidates: 5}}}]. *)
Definition numberCandidates : value :=
  VObj [(js "launchers", VObj [(js "vscode", VObj [(js "candidates", VNum (num_of_Z 5))])])].

(** [{profiles: [{id:"a", label:"A", pages:[null]}]}]. *)
Definition nullPage : value :=
  VObj [(js "profiles",
         VArr [VObj [ (js "id", VStr (js "a")); (js "label", VStr (js "A"));
                      (js "pages", VArr [VNull]) ]])].

(** Two index entries with the same textual score for the query [foo bar]:
    the launcher [Foo Barista] and the Start Menu shortcut [Foo Bar]. *)
Definition fooBarista : ProgramEntry :=
  mkProgramEntry (js "Foo Barista") (js "C:\Apps\foo barista.exe") (js "launcherPath")
    (js ".exe") (js "foo barista.exe") (js "foo barista") (js "foo barista.exe")
    (js "c:\apps\foo barista.exe").

Definition fooBar : ProgramEntry :=
  mkProgramEntry (js "Foo Bar")
    (js "C:\ProgramData\Microsoft\Windows\Start Menu\Programs\Foo Bar.lnk")
    (js "startMenu") (js ".lnk") (js "foo bar.lnk") (js "foo bar") (js "foo bar.lnk")
    (js "c:\programdata\microsoft\windows\start menu\programs\foo bar.lnk").

(** Two entries that both match the query [code] exactly. *)
Definition codeLauncher : ProgramEntry :=
  mkProgramEntry (js "Code") (js "C:\Apps\Code.exe") (js "launcherPath")
    (js ".exe") (js "code.exe") (js "code") (js "code.exe") (js "c:\apps\code.exe").

Definition codeShortcut : ProgramEntry :=
  mkProgramEntry (js "Code")
    (js "C:\ProgramData\Microsoft\Windows\Start Menu\Programs\Code.lnk")
    (js "startMenu") (js ".lnk") (js "code.lnk") (js "code") (js "code.lnk")
    (js "c:\programdata\microsoft\windows\start menu\programs\code.lnk").

(** A configuration with [rateLimit = {windowMs: 1000, max: 5}]. *)
Definition limitedConfig : Config :=
  {| cfg_host := js "127.0.0.1"; cfg_port := 8787; cfg_token := js "secret-token-123";
     cfg_workspaceDir := js "C:\work"; cfg_rateLimit := mkRateLimit 1000 5;
     cfg_wow := mkWow (VStr (js "WowClassic.exe")) (mkWowFolders (VStr []) (VStr []) (VStr []));
     cfg_logging := mkLogging true [] 14;
     cfg_launchers := ∅; cfg_profiles := getDefaultProfiles; cfg_tiles := getDefaultTiles |}.

(** A request of the client 10.0.0.7 that presents [token] in the header. *)
Definition requestWith (token : option string) (body : option value) : Request :=
  mkRequest (js "a1b2c3d4e5f6") (js <$> token) None (Some (js "10.0.0.7")) None body.

(** What [crypto.randomBytes(96)] returns in the examples. *)
Definition randomBytes : list N := repeat 0%N 96.

(** A request that presents the token of [limitedConfig], and five more of
    them inside one window. *)
Definition demoRequest : Request := requestWith (Some "secret-token-123") None.

Definition demoTrace : list (Z * Request) :=
  [(100, demoRequest); (200, demoRequest); (300, demoRequest); (400, demoRequest);
   (500, demoRequest)].



(** A configuration file and a disk that holds it. *)
Definition demoConfigPath : jsstring := js "C:\data\config.json".

Definition demoDisk : Disk := mkDisk {[ demoConfigPath := js "{ old }" ]} 0.

(** The fourth call of [persistConfig], the rename, fails. *)
Definition renameFails (k : nat) : option nat := if (k =? 3)%nat then Some 0%nat else None.

(** A valid protocol tile, [target: "discord://"]. *)
Definition discordTile : value :=
  rawTile "protocol" [(js "target", VStr (js "discord://"))].

(** [{wow: {folders: {addons: "C:\Games\AddOns"}}}]. *)
Definition nestedSettings : value :=
  VObj [(js "wow",
         VObj [(js "folders", VObj [(js "addons", VStr (js "C:\Games\AddOns"))])])].

(** A request that presents [token] in the query and sends no header. *)
Definition queryRequest (token : jsstring) : Request :=
  mkRequest (js "a1b2c3d4e5f6") None (Some (VStr token)) (Some (js "10.0.0.7")) None None.

(** A request that presents [token] in the header and nowhere else. *)
Definition headerRequest (token : jsstring) : Request :=
  mkRequest (js "a1b2c3d4e5f6") (Some token) None (Some (js "10.0.0.7")) None None.


End Samples.

(** ** The server *)

Section Server.

(** *** The platform the server runs on

    Built-ins of the JavaScript runtime and the state of the machine are
    parameters of the model. *)
(** [Number::toString] and [StringToNumber]. *)
Variable num_to_string : number -> jsstring.
Variable string_to_num : jsstring -> number.
(** [new URL(s)]: the [protocol] and the serialised [href], or [None] when
    the constructor throws. *)
Variable url_parse : jsstring -> option (jsstring * jsstring).
Variable toLowerCase : jsstring -> jsstring.
(** [a.localeCompare(b, "de", { sensitivity: "base" })]. *)
Variable localeCompare : jsstring -> jsstring -> Z.
(** [process.env[key]], [process.cwd()] and the file system probes. *)
Variable env : jsstring -> option jsstring.
Variable cwd : jsstring.
Variable fileExists : jsstring -> bool.
Variable dirExists : jsstring -> bool.
Variable path_join : list jsstring -> jsstring.
Variable path_basename : jsstring -> jsstring.
Variable path_extname : jsstring -> jsstring.
Variable path_dirname : jsstring -> jsstring.
(** [path.basename(p, ext)]. *)
Variable path_basename_ext : jsstring -> jsstring -> jsstring.
(** [isTruthyEnv(process.env.STREAMDECK_DISABLE_AUTODETECT)]. *)
Variable DISABLE_AUTODETECT : bool.


(** *** Coercions *)
(** [String(v)], where the conversion returns: an object answers
    [[object Object]].  See [convertible] for the values on which the code
    throws instead. *)
Fixpoint to_string (v : value) : jsstring :=
  match v with
  | VNull => js "null"
  | VBool true => js "true"
  | VBool false => js "false"
  | VNum n => num_to_string n
  | VStr s => s
  | VArr items =>
      join (js ",")
        ((fix each (l : list value) : list jsstring :=
            match l with
            | [] => []
            | VNull :: r => [] :: each r
            | e :: r => to_string e :: each r
            end) items)
  | VObj _ => js "[object Object]"
  end.

(** [Number(v)]; [None] is [undefined]. *)
Definition to_number (o : option value) : number :=
  match o with
  | None => NaN
  | Some VNull => num_of_Z 0
  | Some (VBool b) => num_of_Z (if b then 1 else 0)
  | Some (VNum n) => n
  | Some v => string_to_num (to_string v)
  end.

(** [String(v || '')], where the conversion returns. *)
Definition str_or_empty (o : option value) : jsstring :=
  match o with
  | Some v => if truthy v then to_string v else []
  | None => []
  end.

(** [safeTrim(value, maxLen)], where the conversion returns. *)
Definition safeTrim (o : option value) (maxLen : nat) : jsstring :=
  safeTrimStr (str_or_empty o) maxLen.

(** *** Conversions that throw

    [String(v)] and [Number(v)] ask an object for its [toString].  A parsed
    JSON object has no function among its members, so a member of its own
    with that name is not callable, [valueOf] gives back the object, and the
    conversion throws a [TypeError]; an array passes the question on to its
    elements.  [to_string], [str_or_empty] and [safeTrim] above are the
    conversions where they return, which is where [convertible] holds; the
    definitions that follow carry the exception. *)
Fixpoint convertible (v : value) : bool :=
  match v with
  | VObj fields =>
      match assoc (js "toString") fields with Some _ => false | None => true end
  | VArr items =>
      (fix each (l : list value) : bool :=
         match l with
         | [] => true
         | e :: r => convertible e && each r
         end) items
  | _ => true
  end.

(** [String(v || '')], with its [TypeError]. *)
Definition str_or_emptyE (o : option value) : result jsstring :=
  match o with
  | Some v =>
      if truthy v then (if convertible v then Ok (to_string v) else Throw TypeError)
      else Ok []
  | None => Ok []
  end.

(** [safeTrim(value, maxLen)], with its [TypeError]. *)
Definition safeTrimE (o : option value) (maxLen : nat) : result jsstring :=
  s <- str_or_emptyE o ;; Ok (safeTrimStr s maxLen).

(** [safeArray(input, itemMaxLen, maxItems)] once [Array.isArray(input)]
    holds. *)
Fixpoint safeArray_loop (itemMaxLen maxItems : nat) (input : list value)
    (out : list jsstring) : list jsstring :=
  match input with
  | [] => out
  | v :: rest =>
      if (maxItems <=? length out)%nat then out
      else
        let item := safeTrim (Some v) itemMaxLen in
        safeArray_loop itemMaxLen maxItems rest
          (if is_empty item then out else out ++ [item])
  end.

Definition safeArray (input : option value) (itemMaxLen maxItems : nat) : list jsstring :=
  match input with
  | Some (VArr items) => safeArray_loop itemMaxLen maxItems items []
  | _ => []
  end.

(** [a || b] on a property read. *)
Definition js_or (o : option value) (d : value) : value :=
  match o with
  | Some v => if truthy v then v else d
  | None => d
  end.

(** *** Tile validator *)

Definition normalizeProtocolTarget (rawInput : jsstring) : jsstring :=
  let raw := trim rawInput in
  if is_empty raw || (len raw >? MAX_PATH_LEN) || has_nul raw then []
  else if negb (has_scheme_prefix raw) then []
  else if has_ws raw then []
  else raw.

Definition normalizeHttpUrl (rawInput : jsstring) : jsstring :=
  let raw := trim rawInput in
  if is_empty raw then []
  else
    match (if includes raw (js "://") then url_parse raw
           else url_parse (js "https://" ++ raw)) with
    | None => []
    | Some (protocol, href) =>
        if negb (str_eqb protocol (js "http:")) && negb (str_eqb protocol (js "https:"))
        then []
        else href
    end.

(** The [target] and [startIn] fields: [None] makes [normalizeTile] return
    [null], [Some None] leaves the field unset. *)
Definition read_path_field (o : option value) : option (option jsstring) :=
  match o with
  | Some (VStr s) =>
      let t := trim s in
      if is_empty t then Some None
      else if has_nul t || (len t >? MAX_PATH_LEN) then None
      else Some (Some t)
  | _ => Some None
  end.

(** A string field that is set only when it is a string with a non-blank
    [trim()]. *)
Definition read_trimmed_field (o : option value) (maxLen : nat) : option jsstring :=
  match o with
  | Some (VStr s) =>
      if is_empty (trim s) then None else Some (safeTrimStr s maxLen)
  | _ => None
  end.

(** [!field] on an optional string field of a tile. *)
Definition unset (o : option jsstring) : bool :=
  match o with Some s => is_empty s | None => true end.

Definition normalizeTile (raw : value) : option Tile :=
  if negb (is_object raw) then None
  else
    let id := safeTrim (get raw "id") 64 in
    let profile := safeTrim (get raw "profile") 64 in
    let page := safeTrim (Some (js_or (get raw "page") (VStr (js "main")))) 64 in
    let label := safeTrim (get raw "label") 80 in
    let type := safeTrim (get raw "type") 32 in
    if is_empty id || is_empty profile || is_empty page || is_empty label || is_empty type
    then None
    else if negb (mem_str type TILE_TYPES) then None
    else
      let showIf := safeTrim (get raw "showIf") 24 in
      let iconMode :=
        match get raw "iconMode" with
        | Some (VStr m) => if mem_str m ICON_MODES then m else js "emoji"
        | _ => js "emoji"
        end in
      let iconData :=
        match get raw "iconData" with
        | Some (VStr d) => if len d <=? MAX_ICON_DATA_URL_LEN then d else []
        | _ => []
        end in
      let launcherKey := read_trimmed_field (get raw "launcherKey") 64 in
      match read_path_field (get raw "target") with
      | None => None
      | Some target =>
          let args :=
            match get raw "args" with
            | Some (VArr items) => Some (safeArray (Some (VArr items)) 512 16)
            | _ => None
            end in
          match read_path_field (get raw "startIn") with
          | None => None
          | Some startIn =>
              let action := read_trimmed_field (get raw "action") 64 in
              let is_type t := str_eqb type (js t) in
              if is_type "action"
                 && (unset action || negb (mem_str (default [] action) NAMED_ACTIONS))
              then None
              else if is_type "app" && unset target && unset launcherKey then None
              else if (is_type "folder" || is_type "url" || is_type "protocol")
                      && unset target
              then None
              else if is_type "url" && is_empty (normalizeHttpUrl (default [] target))
              then None
              else if is_type "protocol"
                      && is_empty (normalizeProtocolTarget (default [] target))
              then None
              else
                Some {| tile_id := id; tile_profile := profile; tile_page := page;
                        tile_label := label;
                        tile_subtitle := safeTrim (get raw "subtitle") 140;
                        tile_type := type;
                        tile_builtin := truthy_opt (get raw "builtin");
                        tile_showIf :=
                          Some (if mem_str showIf TILE_SHOW_IF then showIf else []);
                        tile_iconMode := iconMode;
                        tile_icon := safeTrim (get raw "icon") 12;
                        tile_iconData := Some iconData;
                        tile_launcherKey := launcherKey;
                        tile_target := target;
                        tile_args := args;
                        tile_startIn := startIn;
                        tile_action := action |}
          end
      end.

(** The [Map] [byId] of [ensureBuiltinTiles] keeps insertion order: [set]
    overwrites in place or appends. *)
Fixpoint byId_set (t : Tile) (m : list Tile) : list Tile :=
  match m with
  | [] => [t]
  | u :: r => if str_eqb (tile_id u) (tile_id t) then t :: r else u :: byId_set t r
  end.

Definition byId_has (id : jsstring) (m : list Tile) : bool :=
  existsb (fun u => str_eqb (tile_id u) id) m.

Definition ensureBuiltinTiles (inputTiles : option value) : list Tile :=
  let input := match inputTiles with Some (VArr items) => items | _ => [] end in
  let byId :=
    fold_left (fun m raw => match normalizeTile raw with
                            | Some t => byId_set t m
                            | None => m
                            end) input [] in
  fold_left (fun m def => if byId_has (tile_id def) m then m else byId_set def m)
    getDefaultTiles byId.

(** The JavaScript object a tile is, as a JSON value. *)
Definition opt_field (k : string) (o : option value) : list (jsstring * value) :=
  match o with Some v => [(js k, v)] | None => [] end.

Definition encode_tile (t : Tile) : value :=
  VObj ([ (js "id", VStr (tile_id t)); (js "profile", VStr (tile_profile t));
          (js "page", VStr (tile_page t)); (js "label", VStr (tile_label t));
          (js "subtitle", VStr (tile_subtitle t)); (js "type", VStr (tile_type t));
          (js "builtin", VBool (tile_builtin t)) ]
        ++ opt_field "showIf" (VStr <$> tile_showIf t)
        ++ [ (js "iconMode", VStr (tile_iconMode t)); (js "icon", VStr (tile_icon t)) ]
        ++ opt_field "iconData" (VStr <$> tile_iconData t)
        ++ opt_field "launcherKey" (VStr <$> tile_launcherKey t)
        ++ opt_field "target" (VStr <$> tile_target t)
        ++ opt_field "args" ((fun a => VArr (VStr <$> a)) <$> tile_args t)
        ++ opt_field "startIn" (VStr <$> tile_startIn t)
        ++ opt_field "action" (VStr <$> tile_action t)).

(** *** Profiles *)

Definition mainPage : Page := mkPage (js "main") (js "Main").

(** One callback of [p.pages.map(...)]: reading [x.id] of [null] throws. *)
Definition normalizePage (x : value) : result Page :=
  match x with
  | VNull => Throw TypeError
  | _ => Ok (mkPage (trim (str_or_empty (get x "id"))) (trim (str_or_empty (get x "label"))))
  end.

Definition page_ok (x : Page) : bool :=
  negb (is_empty (page_id x)) && negb (is_empty (page_label x)).

(** One iteration of the loop of [normalizeProfiles]: [None] is [continue]. *)
Definition normalizeProfile (p : value) : result (option Profile) :=
  if negb (is_object p) then Ok None
  else
    let id := trim (str_or_empty (get p "id")) in
    let label := trim (str_or_empty (get p "label")) in
    if is_empty id || is_empty label then Ok None
    else
      pages <- match get p "pages" with
               | Some (VArr (x :: r)) =>
                   mapped <- mapM normalizePage (x :: r) ;;
                   Ok (List.filter page_ok mapped)
               | _ => Ok [mainPage]
               end ;;
      Ok (Some (mkProfile id label (if is_empty_list pages then [mainPage] else pages))).

Fixpoint normalizeProfiles_loop (input : list value) : result (list Profile) :=
  match input with
  | [] => Ok []
  | p :: r =>
      o <- normalizeProfile p ;;
      out <- normalizeProfiles_loop r ;;
      Ok (match o with Some q => q :: out | None => out end)
  end.

Definition normalizeProfiles (input : option value) : result (list Profile) :=
  match input with
  | Some (VArr (p :: r)) =>
      out <- normalizeProfiles_loop (p :: r) ;;
      Ok (if is_empty_list out then getDefaultProfiles else out)
  | _ => Ok getDefaultProfiles
  end.

(** *** Launchers *)

(** [uniq(list)]: the trimmed, non-empty strings of [list], first occurrence
    only. *)
Fixpoint uniq_loop (l : list value) (out : list jsstring) : list jsstring :=
  match l with
  | [] => out
  | VStr item :: r =>
      let v := trim item in
      if is_empty v || mem_str v out then uniq_loop r out else uniq_loop r (out ++ [v])
  | _ :: r => uniq_loop r out
  end.

Definition uniq (l : list value) : list jsstring := uniq_loop l [].

(** [expandEnv(value)] on a string: every [%KEY%] with a non-empty key is
    replaced by [process.env[KEY]] or the empty string, scanning from the left. *)
Definition PERCENT : N := 37%N.

Fixpoint expandEnv_scan (s : jsstring) (key : option jsstring) : jsstring :=
  match s, key with
  | [], None => []
  | [], Some k => PERCENT :: k
  | c :: r, None =>
      if (c =? PERCENT)%N then expandEnv_scan r (Some []) else c :: expandEnv_scan r None
  | c :: r, Some k =>
      if (c =? PERCENT)%N then
        if is_empty k then PERCENT :: expandEnv_scan r (Some [])
        else default [] (env k) ++ expandEnv_scan r None
      else expandEnv_scan r (Some (k ++ [c]))
  end.

Definition expandEnv (s : jsstring) : jsstring := expandEnv_scan s None.

(** [process.env.KEY || fallback]. *)
Definition env_or (key : string) (fallback : jsstring) : jsstring :=
  match env (js key) with
  | Some v => if is_empty v then fallback else v
  | None => fallback
  end.

Definition getDefaultLaunchers (oldConfig : value) : gmap jsstring Launcher :=
  let oldPaths :=
    match get oldConfig "paths" with
    | Some v => if is_object v then v else VObj []
    | None => VObj []
    end in
  let localAppData := env_or "LOCALAPPDATA" [] in
  let programFiles := env_or "ProgramFiles" (js "C:\Program Files") in
  let programFiles86 := env_or "ProgramFiles(x86)" (js "C:\Program Files (x86)") in
  let cand parts := VStr (path_join parts) in
  list_to_map
    [ (js "vscode",
       mkLauncher (js "VS Code") (js_or (get oldPaths "vscode") (VStr []))
         (uniq [ cand [localAppData; js "Programs"; js "Microsoft VS Code"; js "Code.exe"];
                 cand [programFiles; js "Microsoft VS Code"; js "Code.exe"];
                 cand [programFiles; js "Microsoft VS Code Insiders"; js "Code - Insiders.exe"] ]));
      (js "wow",
       mkLauncher (js "World of Warcraft Launcher")
         (js_or (get oldPaths "wowClassic") (js_or (get oldPaths "wowTBC") (VStr [])))
         (uniq [ cand [programFiles86; js "World of Warcraft"; js "World of Warcraft Launcher.exe"];
                 cand [programFiles; js "World of Warcraft"; js "World of Warcraft Launcher.exe"];
                 cand [programFiles86; js "Battle.net"; js "Battle.net Launcher.exe"];
                 cand [programFiles; js "Battle.net"; js "Battle.net Launcher.exe"] ]));
      (js "obs",
       mkLauncher (js "OBS Studio") (VStr [])
         (uniq [ cand [programFiles; js "obs-studio"; js "bin"; js "64bit"; js "obs64.exe"];
                 cand [programFiles86; js "obs-studio"; js "bin"; js "64bit"; js "obs64.exe"] ])) ].

(** The elements [...(v || [])] spreads: a string yields its code points, a
    truthy value that is not iterable throws. *)
Fixpoint code_points (s : jsstring) : list jsstring :=
  match s with
  | [] => []
  | c :: r =>
      match r with
      | d :: r' =>
          if is_high_surrogate c && is_low_surrogate d then [c; d] :: code_points r'
          else [c] :: code_points r
      | [] => [[c]]
      end
  end.

Definition spread_or_empty (o : option value) : result (list value) :=
  match o with
  | None => Ok []
  | Some v =>
      if negb (truthy v) then Ok []
      else match v with
           | VArr items => Ok items
           | VStr s => Ok (VStr <$> code_points s)
           | _ => Throw TypeError
           end
  end.

(** One iteration of the loop over [Object.entries(cfg.launchers)].
    [merged[key]] is read as an own property: a key that names a member of
    [Object.prototype] is outside the model. *)
Definition mergeLauncher (merged : gmap jsstring Launcher) (entry : jsstring * value)
    : result (gmap jsstring Launcher) :=
  let '(key, v) := entry in
  if negb (is_object v) then Ok merged
  else
    let old := default (mkLauncher key (VStr []) []) (merged !! key) in
    extra <- spread_or_empty (get v "candidates") ;;
    Ok (<[ key :=
           mkLauncher
             (match get v "label" with
              | Some (VStr l) => if is_empty (trim l) then launcher_label old else l
              | _ => launcher_label old
              end)
             (match get v "path" with
              | Some (VStr q) => VStr q
              | _ => launcher_path old
              end)
             (uniq ((VStr <$> launcher_candidates old) ++ extra)) ]> merged).

Fixpoint mergeLaunchers (entries : list (jsstring * value)) (merged : gmap jsstring Launcher)
    : result (gmap jsstring Launcher) :=
  match entries with
  | [] => Ok merged
  | e :: r => m <- mergeLauncher merged e ;; mergeLaunchers r m
  end.

(** [Object.entries(v)] of a parsed JSON value: arrays list their indices,
    which the loop skips unless the element is an object. *)
Definition entries (v : value) : list (jsstring * value) :=
  match v with
  | VObj fields => fields
  | VArr items => imap (fun i x => (num_to_string (num_of_Z (Z.of_nat i)), x)) items
  | _ => []
  end.

(** One launcher of [autodetectLaunchers(config)], every key being scanned. *)
Definition autodetectLauncher (l : Launcher) : Launcher :=
  let current := expandEnv (str_or_empty (Some (launcher_path l))) in
  if negb (is_empty current) && fileExists current
  then mkLauncher (launcher_label l) (VStr current) (launcher_candidates l)
  else
    match List.find fileExists (uniq (VStr <$> (expandEnv <$> launcher_candidates l))) with
    | Some found => mkLauncher (launcher_label l) (VStr found) (launcher_candidates l)
    | None => l
    end.

(** *** Defaults and merge *)

Definition TOKEN_CHARS : jsstring :=
  js "ABCDEFGHJKLMNPQRSTUVWXYZabcdefghijkmnopqrstuvwxyz23456789!@#$%^&*()-_=+".

(** [randomToken()] on the bytes [crypto.randomBytes(96)] returned. *)
Definition randomToken (bytes : list N) : jsstring :=
  (fun b => nth (N.to_nat (b mod N.of_nat (length TOKEN_CHARS))) TOKEN_CHARS 0%N) <$> bytes.

(** [createDefaultConfig(oldConfig)]: reading a property of [null] throws. *)
Definition createDefaultConfig (bytes : list N) (oldConfig : value) : result Config :=
  match oldConfig with
  | VNull => Throw TypeError
  | _ =>
      let wow := get oldConfig "wow" in
      let wowFolders :=
        if truthy_opt wow && truthy_opt (get_opt wow "folders")
        then js_or (get_opt wow "folders") (VObj []) else VObj [] in
      let wowBase :=
        [env_or "ProgramFiles(x86)" (js "C:\Program Files (x86)"); js "World of Warcraft"; js "_classic_"] in
      let logging := get oldConfig "logging" in
      Ok {| cfg_host := js "0.0.0.0";
            cfg_port := 8787;
            cfg_token := randomToken bytes;
            cfg_workspaceDir := cwd;
            cfg_rateLimit := mkRateLimit 3000 20;
            cfg_wow :=
              mkWow
                (if truthy_opt wow && truthy_opt (get_opt wow "processName")
                 then js_or (get_opt wow "processName") VNull
                 else VStr (js "WowClassic.exe"))
                (mkWowFolders
                   (js_or (get wowFolders "addons")
                      (VStr (path_join [path_join wowBase; js "Interface"; js "AddOns"])))
                   (js_or (get wowFolders "logs") (VStr (path_join [path_join wowBase; js "Logs"])))
                   (js_or (get wowFolders "wtf") (VStr (path_join [path_join wowBase; js "WTF"]))));
            cfg_logging :=
              mkLogging
                (match get_opt logging "enabled" with Some (VBool false) => false | _ => true end)
                (match get_opt logging "dir" with Some (VStr d) => d | _ => [] end)
                (match get_opt logging "maxFiles" with
                 | Some (VNum (Fin q)) => if num_isInteger (Fin q) then num_floor q else 14
                 | _ => 14
                 end);
            cfg_launchers := getDefaultLaunchers oldConfig;
            cfg_profiles := getDefaultProfiles;
            cfg_tiles := getDefaultTiles |}
  end.

(** [Number.isFinite(w) ? Math.max(lo, Math.floor(w)) : fallback]. *)
Definition floor_at_least (lo : Z) (n : number) (fallback : Z) : Z :=
  match n with Fin q => Z.max lo (num_floor q) | _ => fallback end.

(** The blocks of [mergeWithDefaults], one per field of the configuration:
    [cfg] is the raw input, the last argument the default [out] starts
    from. *)
Definition mergeHost (cfg : value) (base : jsstring) : jsstring :=
  match get cfg "host" with
  | Some (VStr h) => if is_empty (trim h) then base else trim h
  | _ => base
  end.

Definition mergePort (cfg : value) (base : Z) : Z :=
  match get cfg "port" with
  | Some (VNum (Fin q)) =>
      if num_isInteger (Fin q) && (0 <? num_floor q) && (num_floor q <=? 65535)
      then num_floor q else base
  | _ => base
  end.

Definition mergeToken (cfg : value) (base : jsstring) : jsstring :=
  match get cfg "token" with
  | Some (VStr t) => if 12 <=? len t then t else base
  | _ => base
  end.

Definition mergeWorkspaceDir (cfg : value) (base : jsstring) : jsstring :=
  match get cfg "workspaceDir" with
  | Some (VStr w) => if is_empty (trim w) then base else trim w
  | _ => base
  end.

Definition mergeRateLimit (cfg : value) (base : RateLimit) : RateLimit :=
  match get cfg "rateLimit" with
  | Some rl =>
      if is_object rl then
        mkRateLimit
          (floor_at_least 250 (to_number (get rl "windowMs")) (rl_windowMs base))
          (floor_at_least 3 (to_number (get rl "max")) (rl_max base))
      else base
  | None => base
  end.

Definition mergeWow (cfg : value) (base : Wow) : Wow :=
  match get cfg "wow" with
  | Some w =>
      if is_object w then
        let pick k fallback :=
          match get_opt (get w "folders") k with Some (VStr f) => VStr f | _ => fallback end in
        mkWow
          (match get w "processName" with
           | Some (VStr name) =>
               if is_empty (trim name) then wow_processName base else VStr (trim name)
           | _ => wow_processName base
           end)
          (mkWowFolders (pick "addons" (wf_addons (wow_folders base)))
             (pick "logs" (wf_logs (wow_folders base)))
             (pick "wtf" (wf_wtf (wow_folders base))))
      else base
  | None => base
  end.

Definition mergeLogging (cfg : value) (base : Logging) : Logging :=
  match get cfg "logging" with
  | Some lg =>
      if is_object lg then
        mkLogging
          (match get lg "enabled" with Some (VBool false) => false | _ => true end)
          (match get lg "dir" with Some (VStr d) => d | _ => log_dir base end)
          (match to_number (get lg "maxFiles") with
           | Fin q => Z.max 3 (Z.min 90 (num_floor q))
           | _ => log_maxFiles base
           end)
      else base
  | None => base
  end.

Definition mergeAllLaunchers (cfg : value) (base : gmap jsstring Launcher)
    : result (gmap jsstring Launcher) :=
  match get cfg "launchers" with
  | Some ls => if is_object ls then mergeLaunchers (entries ls) base else Ok base
  | None => Ok base
  end.

Definition mergeWithDefaults (bytes : list N) (raw : value) : result Config :=
  base <- createDefaultConfig bytes raw ;;
  let cfg := if is_object raw then raw else VObj [] in
  launchers <- mergeAllLaunchers cfg (cfg_launchers base) ;;
  profiles <- normalizeProfiles (get cfg "profiles") ;;
  let tiles := ensureBuiltinTiles (get cfg "tiles") in
  Ok {| cfg_host := mergeHost cfg (cfg_host base);
        cfg_port := mergePort cfg (cfg_port base);
        cfg_token := mergeToken cfg (cfg_token base);
        cfg_workspaceDir := mergeWorkspaceDir cfg (cfg_workspaceDir base);
        cfg_rateLimit := mergeRateLimit cfg (cfg_rateLimit base);
        cfg_wow := mergeWow cfg (cfg_wow base);
        cfg_logging := mergeLogging cfg (cfg_logging base);
        cfg_launchers :=
          if DISABLE_AUTODETECT then launchers else autodetectLauncher <$> launchers;
        cfg_profiles := profiles;
        cfg_tiles := tiles |}.

(** *** The configuration as the JavaScript object it is *)

Definition encode_page (x : Page) : value :=
  VObj [(js "id", VStr (page_id x)); (js "label", VStr (page_label x))].

Definition encode_profile (p : Profile) : value :=
  VObj [ (js "id", VStr (profile_id p)); (js "label", VStr (profile_label p));
         (js "pages", VArr (encode_page <$> profile_pages p)) ].

Definition encode_launcher (l : Launcher) : value :=
  VObj [ (js "label", VStr (launcher_label l)); (js "path", launcher_path l);
         (js "candidates", VArr (VStr <$> launcher_candidates l)) ].

Definition encode (c : Config) : value :=
  VObj [ (js "host", VStr (cfg_host c));
         (js "port", VNum (num_of_Z (cfg_port c)));
         (js "token", VStr (cfg_token c));
         (js "workspaceDir", VStr (cfg_workspaceDir c));
         (js "rateLimit",
          VObj [ (js "windowMs", VNum (num_of_Z (rl_windowMs (cfg_rateLimit c))));
                 (js "max", VNum (num_of_Z (rl_max (cfg_rateLimit c)))) ]);
         (js "wow",
          VObj [ (js "processName", wow_processName (cfg_wow c));
                 (js "folders",
                  VObj [ (js "addons", wf_addons (wow_folders (cfg_wow c)));
                         (js "logs", wf_logs (wow_folders (cfg_wow c)));
                         (js "wtf", wf_wtf (wow_folders (cfg_wow c))) ]) ]);
         (js "logging",
          VObj [ (js "enabled", VBool (log_enabled (cfg_logging c)));
                 (js "dir", VStr (log_dir (cfg_logging c)));
                 (js "maxFiles", VNum (num_of_Z (log_maxFiles (cfg_logging c)))) ]);
         (js "launchers",
          VObj (prod_map (fun k => k) encode_launcher <$> map_to_list (cfg_launchers c)));
         (js "profiles", VArr (encode_profile <$> cfg_profiles c));
         (js "tiles", VArr (encode_tile <$> cfg_tiles c)) ].

(** *** Admission layer *)


(** The headers [server.js] sets on every [/api] response before a route
    runs: [setSecurityHeaders], the request id and [Cache-Control]. *)
Definition api_headers (requestId : jsstring) : list (jsstring * jsstring) :=
  [ (js "X-Content-Type-Options", js "nosniff");
    (js "X-Frame-Options", js "DENY");
    (js "Referrer-Policy", js "no-referrer");
    (js "Cross-Origin-Opener-Policy", js "same-origin");
    (js "Permissions-Policy", js "camera=(), microphone=(), geolocation=()");
    (js "Content-Security-Policy",
     js "default-src 'self'; img-src 'self' data: blob:; style-src 'self' 'unsafe-inline'; script-src 'self' 'unsafe-inline'; connect-src 'self'; object-src 'none'; frame-ancestors 'none'; base-uri 'self'");
    (js "X-Request-Id", requestId);
    (js "Cache-Control", js "no-store") ].

(** [res.getHeader(name)]: header names compare without case. *)
Definition header_get (name : string) (hs : list (jsstring * jsstring)) : option jsstring :=
  snd <$> List.find (fun h => str_eqb (ascii_lower <$> fst h) (ascii_lower <$> js name)) hs.

(** [res.status(code).json({ ok: false, error })]. *)
Definition json_error (req : Request) (code : Z) (message : string) : Response :=
  mkResponse code (api_headers (req_id req))
    (VObj [(js "ok", VBool false); (js "error", VStr (js message))]).

(** The token [requireToken] reads: the header, else the query parameter. *)
Definition readToken (req : Request) : jsstring :=
  let header := safeTrimStr (default [] (req_header_token req)) 512 in
  let query :=
    match req_query_token req with
    | Some (VStr q) => safeTrimStr q 512
    | _ => []
    end in
  if is_empty header then query else header.

Definition requireToken (config : Config) (req : Request) : outcome :=
  let token := readToken req in
  if is_empty token then Respond (json_error req 401 "unauthorized: missing token")
  else if negb (secureEqualText token (cfg_token config))
  then Respond (json_error req 401 "unauthorized: token mismatch")
  else Next.


Definition clientIp (req : Request) : jsstring :=
  match req_ip req with
  | Some ip => if is_empty ip then
                 match req_remoteAddress req with
                 | Some a => if is_empty a then js "unknown" else a
                 | None => js "unknown"
                 end
               else ip
  | None => match req_remoteAddress req with
            | Some a => if is_empty a then js "unknown" else a
            | None => js "unknown"
            end
  end.

(** [Math.max(lo, Number(x || fallback))] on a stored integer. *)
Definition setting_at_least (lo x fallback : Z) : Z :=
  Z.max lo (if x =? 0 then fallback else x).

(** [rateLimit(req, res, next)] at time [now = Date.now()]. *)
Definition rateLimit (config : Config) (now : Z) (req : Request) (adm : Admission)
    : Admission * outcome :=
  let windowMs := setting_at_least 250 (rl_windowMs (cfg_rateLimit config)) 3000 in
  let max := setting_at_least 3 (rl_max (cfg_rateLimit config)) 20 in
  let ip := clientIp req in
  let state := default (mkRateEntry now 0) (rateState adm !! ip) in
  let state := if now - t0 state >? windowMs then mkRateEntry now 0 else state in
  let state := mkRateEntry (t0 state) (n state + 1) in
  let rs := <[ ip := state ]> (rateState adm) in
  let counter := rateSweepCounter adm + 1 in
  let adm' :=
    if (counter >=? 200) || (Z.of_nat (size rs) >? 5000)
    then mkAdmission (filter (fun kv => ¬ (t0 kv.2 < now - windowMs * 4)) rs) 0
    else mkAdmission rs counter in
  (adm', if n state >? max then Respond (json_error req 429 "rate limited") else Next).

(** *** Routes

    Every route of [server.js] is registered as
    [app.METHOD(path, requireToken, rateLimit, handler)]. *)


Definition Handler := Config -> Request -> Config * Response.

Definition route (handler : Handler) (now : Z) (req : Request) (st : ServerState)
    : ServerState * Response :=
  match requireToken (config st) req with
  | Respond r => (st, r)
  | Next =>
      let '(adm, o) := rateLimit (config st) now req (admission st) in
      match o with
      | Respond r => (mkServerState (config st) adm, r)
      | Next =>
          let '(c, r) := handler (config st) req in
          (mkServerState c adm, r)
      end
  end.

(** The handler of [POST /api/tiles/delete]; [persisted] is what
    [persistConfigSafe()] returns. *)
Definition tilesDelete (persisted : bool) : Handler := fun config req =>
  let id := trim (str_or_empty (get_opt (req_body req) "id")) in
  if is_empty id then (config, json_error req 400 "id fehlt")
  else
    match List.find (fun x => str_eqb (tile_id x) id) (cfg_tiles config) with
    | None => (config, json_error req 404 "tile nicht gefunden")
    | Some tile =>
        if tile_builtin tile
        then (config, json_error req 400 "builtin tile kann nicht geloescht werden")
        else
          let config' :=
            {| cfg_host := cfg_host config; cfg_port := cfg_port config;
               cfg_token := cfg_token config; cfg_workspaceDir := cfg_workspaceDir config;
               cfg_rateLimit := cfg_rateLimit config; cfg_wow := cfg_wow config;
               cfg_logging := cfg_logging config; cfg_launchers := cfg_launchers config;
               cfg_profiles := cfg_profiles config;
               cfg_tiles := List.filter (fun x => negb (str_eqb (tile_id x) id))
                              (cfg_tiles config) |} in
          if persisted
          then (config', mkResponse 200 (api_headers (req_id req)) (VObj [(js "ok", VBool true)]))
          else (config', json_error req 500 "config write failed")
    end.

(** *** Program resolver *)


Definition APP_FILE_EXTENSIONS : list jsstring :=
  [js ".exe"; js ".lnk"; js ".bat"; js ".cmd"; js ".com"].

Definition isAppLaunchFilePath (p : jsstring) : bool :=
  mem_str (toLowerCase (path_extname p)) APP_FILE_EXTENSIONS.

Definition programSourcePriority (source : jsstring) : Z :=
  if str_eqb source (js "launcherPath") then 120
  else if str_eqb source (js "launcherCandidate") then 95
  else if str_eqb source (js "startMenu") then 80
  else if str_eqb source (js "localPrograms") then 70
  else if str_eqb source (js "programFiles") then 60
  else if str_eqb source (js "desktop") then 45
  else 20.

(** What one token of the query adds to the score of an entry. *)
Definition tokenScore (entry : ProgramEntry) (token : jsstring) : Z :=
  let label := entry_labelLower entry in
  let file := entry_fileLower entry in
  let full := entry_pathLower entry in
  (if str_eqb label token then 220
   else if startsWith label token then 120
   else if includes label token then 70 else 0)
  + (if str_eqb file token || str_eqb file (token ++ js ".exe")
        || str_eqb file (token ++ js ".lnk") then 120
     else if startsWith file token then 65
     else if includes file token then 30 else 0)
  + (if includes full (js "\" ++ token) then 12 else 0).

Definition scoreProgram (entry : ProgramEntry) (query : jsstring) : Z :=
  let q := toLowerCase (trim query) in
  let score := programSourcePriority (entry_source entry) in
  if is_empty q then score
  else fold_left (fun acc token => acc + tokenScore entry token) (words q) score.


(** The comparator of [rankPrograms] and a stable sort by it. *)
Definition rankCompare (a b : Ranked) : Z :=
  if ranked_score b - ranked_score a =? 0
  then localeCompare (entry_label (ranked_entry a)) (entry_label (ranked_entry b))
  else ranked_score b - ranked_score a.

Fixpoint sort_insert (x : Ranked) (l : list Ranked) : list Ranked :=
  match l with
  | [] => [x]
  | y :: r => if rankCompare x y <? 0 then x :: y :: r else y :: sort_insert x r
  end.

Definition sortRanked (l : list Ranked) : list Ranked :=
  fold_left (fun acc x => sort_insert x acc) l [].

(** [Math.max(1, Math.min(100, Number(limit) || 25))] for a [limit] that is a
    number, and how many rows [slice(0, max)] keeps for it: a fraction is
    cut off. *)
Definition rankLimit (limit : number) : nat :=
  match (if num_truthy limit then limit else num_of_Z 25) with
  | Fin q => Z.to_nat (Qfloor (Qmax (inject_Z 1) (Qmin (inject_Z 100) q)))
  | Inf negative => if negative then 1%nat else 100%nat
  | NaN => 25%nat
  end.

(** [rankPrograms(query, limit, includeWeakMatches)] over the cached index
    [buildProgramIndex()] returns. *)
Definition rankPrograms (index : list ProgramEntry) (query : jsstring) (limit : number)
    (includeWeakMatches : bool) : list Ranked :=
  let q := toLowerCase (safeTrimStr query 120) in
  let rows := (fun entry => mkRanked entry (scoreProgram entry q)) <$> index in
  let kept :=
    List.filter (fun row => is_empty q || includeWeakMatches
                            || (ranked_score row >? programSourcePriority (entry_source (ranked_entry row))))
      rows in
  take (rankLimit limit) (sortRanked kept).

Definition chooseBestProgramMatch (ranked : list Ranked) : jsstring :=
  match ranked with
  | [] => []
  | [first] => entry_path (ranked_entry first)
  | first :: second :: _ =>
      if ranked_score first >=? ranked_score second + 80 then entry_path (ranked_entry first)
      else if (ranked_score first >=? ranked_score second + 55)
              && str_eqb (entry_source (ranked_entry first)) (js "launcherPath")
      then entry_path (ranked_entry first)
      else []
  end.

(** [text.slice(1, -1)]. *)
Definition slice_1_m1 (s : jsstring) : jsstring := removelast (tail s).

Definition unquoteWrapped (value : jsstring) : jsstring :=
  let text := trim value in
  let dq := [34%N] in
  let sq := js "'" in
  if startsWith text dq && endsWith text dq || startsWith text sq && endsWith text sq
  then trim (slice_1_m1 text)
  else text.

Definition findCommandOnPath (input : jsstring) : jsstring :=
  let raw := safeTrimStr input 120 in
  if is_empty raw || includes raw (js "\") || includes raw (js "/") || includes raw (js ":")
  then []
  else
    let pathDirs :=
      List.filter (fun x => negb (is_empty x) && dirExists x)
        (trim <$> split 59 (default [] (env (js "PATH")))) in
    let names :=
      if includes raw (js ".") then [raw]
      else [raw ++ js ".exe"; raw ++ js ".cmd"; raw ++ js ".bat"; raw ++ js ".com"] in
    default []
      (List.find fileExists
         (concat ((fun d => (fun name => path_join [d; name]) <$> names) <$> pathDirs))).

(** The first test of [resolveProgramPath] on a candidate. *)
Definition exactMatch (lowered : jsstring) (x : ProgramEntry) : bool :=
  str_eqb (toLowerCase (entry_label x)) lowered
  || str_eqb (toLowerCase (path_basename (entry_path x))) lowered
  || str_eqb (toLowerCase (path_basename_ext (entry_path x) (path_extname (entry_path x)))) lowered.

Definition exeNameMatch (lowered : jsstring) (x : ProgramEntry) : bool :=
  str_eqb (entry_fileLower x) lowered || str_eqb (entry_fileLower x) (lowered ++ js ".exe").

Definition resolveProgramPath (index : list ProgramEntry) (input : jsstring) : jsstring :=
  let raw := unquoteWrapped (safeTrimStr input 2048) in
  if is_empty raw then []
  else
    let expanded := expandEnv raw in
    if fileExists expanded && isAppLaunchFilePath expanded then expanded
    else
      let fromPath := findCommandOnPath expanded in
      if negb (is_empty fromPath) then fromPath
      else
        let ranked := rankPrograms index expanded 8 true in
        if is_empty_list ranked then []
        else
          let candidates := ranked_entry <$> ranked in
          let lowered := toLowerCase expanded in
          match List.find (exactMatch lowered) candidates with
          | Some exact => entry_path exact
          | None =>
              match List.find (exeNameMatch lowered) candidates with
              | Some byExeName => entry_path byExeName
              | None => chooseBestProgramMatch ranked
              end
          end.

(** *** Persistence *)

Definition FS (A : Type) : Type := Disk -> (A + fs_error) * Disk.

Definition fs_ret {A} (a : A) : FS A := fun d => (inl a, d).

Definition fs_bind {A B} (m : FS A) (k : A -> FS B) : FS B := fun d =>
  match m d with
  | (inl a, d') => k a d'
  | (inr e, d') => (inr e, d')
  end.

(** [try { m } catch { }]. *)
Definition fs_try (m : FS unit) : FS unit := fun d =>
  match m d with
  | (_, d') => (inl tt, d')
  end.

Section Faults.

Variable faults : nat -> option nat.

Definition fs_call (effect partial : gmap jsstring jsstring -> nat -> gmap jsstring jsstring)
    : FS unit := fun d =>
  match faults (calls d) with
  | None => (inl tt, mkDisk (effect (files d) 0%nat) (S (calls d)))
  | Some written => (inr EIO, mkDisk (partial (files d) written) (S (calls d)))
  end.

Definition mkdirSync (p : jsstring) : FS unit :=
  fs_call (fun fs _ => fs) (fun fs _ => fs).

Definition writeFileSync (p content : jsstring) : FS unit :=
  fs_call (fun fs _ => <[ p := content ]> fs)
          (fun fs written => <[ p := take written content ]> fs).

Definition renameSync (src dst : jsstring) : FS unit :=
  fs_call (fun fs _ => match fs !! src with
                       | Some c => <[ dst := c ]> (delete src fs)
                       | None => fs
                       end)
          (fun fs _ => fs).

Definition copyFileSync (src dst : jsstring) : FS unit :=
  fs_call (fun fs _ => match fs !! src with
                       | Some c => <[ dst := c ]> fs
                       | None => fs
                       end)
          (fun fs written => match fs !! src with
                             | Some c => <[ dst := take written c ]> fs
                             | None => fs
                             end).

(** The name of the temporary file next to [filePath]. *)
Definition tmpName (filePath : jsstring) (pid now : N) : jsstring :=
  js "." ++ path_basename filePath ++ js ".tmp-" ++ decimal pid ++ js "-" ++ decimal now.

(** [writeJsonAtomic(filePath, value)], [json] being
    [JSON.stringify(value, null, 2)]. *)
Definition writeJsonAtomic (pid now : N) (filePath json : jsstring) : FS unit :=
  let dir := path_dirname filePath in
  fs_bind (if dirExists dir then fs_ret tt else mkdirSync dir) (fun _ =>
  let tmpPath := path_join [dir; tmpName filePath pid now] in
  fs_bind (writeFileSync tmpPath json) (fun _ =>
  renameSync tmpPath filePath)).

(** [persistConfig()] for the configuration file [CONFIG_PATH]. *)
Definition persistConfig (pid now : N) (CONFIG_PATH json : jsstring) : FS unit :=
  let backupPath := CONFIG_PATH ++ js ".bak" in
  fs_bind (fun d =>
             if bool_decide (is_Some (files d !! CONFIG_PATH))
             then fs_try (copyFileSync CONFIG_PATH backupPath) d
             else fs_ret tt d) (fun _ =>
  writeJsonAtomic pid now CONFIG_PATH json).

End Faults.

(** *** Input checks and settings routes *)

(** What a [catch] of a route receives: the [TypeError] of a conversion
    that failed, or an [Error] made with a message. *)
Inductive thrown :=
| Conversion
| Failure (message : jsstring).

(** The message the runtime gives the [TypeError] of a failed conversion. *)
Variable conversionMessage : jsstring.

(** [String(error?.message || error)] in a [catch]. *)
Definition thrownText (e : thrown) : jsstring :=
  match e with
  | Conversion => if is_empty conversionMessage then js "TypeError" else conversionMessage
  | Failure message => if is_empty message then js "Error" else message
  end.

(** [assertSafeInput(value, label, maxLen)]; [inr e] is the exception [e]
    thrown. *)
Definition assertSafeInput (value : option value) (label : string) (maxLen : Z)
    : jsstring + thrown :=
  match str_or_emptyE value with
  | Throw _ => inr Conversion
  | Ok s =>
      let text := trim s in
      if is_empty text then inl []
      else if has_nul text then inr (Failure (js label ++ js " ungueltig"))
      else if len text >? maxLen then inr (Failure (js label ++ js " zu lang"))
      else inl text
  end.

(** [res.status(code).json({ ok: false, error: String(error.message) })] and
    [res.json({ ok: true, ...fields })]. *)
Definition json_fail (req : Request) (code : Z) (message : jsstring) : Response :=
  mkResponse code (api_headers (req_id req))
    (VObj [(js "ok", VBool false); (js "error", VStr message)]).

Definition json_ok (req : Request) (fields : list (jsstring * value)) : Response :=
  mkResponse 200 (api_headers (req_id req)) (VObj ((js "ok", VBool true) :: fields)).

(** What the error middleware at the end of [server.js] answers when a
    handler throws before it has answered. *)
Definition internal_error (req : Request) : Response :=
  json_error req 500 "internal error".

(** [config.wow = wow] on the configuration object. *)
Definition with_wow (config : Config) (wow : Wow) : Config :=
  {| cfg_host := cfg_host config; cfg_port := cfg_port config;
     cfg_token := cfg_token config; cfg_workspaceDir := cfg_workspaceDir config;
     cfg_rateLimit := cfg_rateLimit config; cfg_wow := wow;
     cfg_logging := cfg_logging config; cfg_launchers := cfg_launchers config;
     cfg_profiles := cfg_profiles config; cfg_tiles := cfg_tiles config |}.

(** The handler of [POST /api/settings/wow-process], with the error
    middleware behind it. *)
Definition settingsWowProcess (persisted : bool) : Handler := fun config req =>
  match safeTrimE (get_opt (req_body req) "processName") 120 with
  | Throw _ => (config, internal_error req)
  | Ok processName =>
      if is_empty processName then (config, json_error req 400 "processName fehlt")
      else if includes processName (js "\") || includes processName (js "/")
      then (config, json_error req 400 "ungueltiger processName")
      else
        let config' :=
          with_wow config (mkWow (VStr processName) (wow_folders (cfg_wow config))) in
        if persisted then (config', json_ok req [(js "processName", VStr processName)])
        else (config', json_error req 500 "config write failed")
  end.

(** The handler of [POST /api/settings/wow-folder], with the error
    middleware behind it: the key is read outside the [try]. *)
Definition settingsWowFolder (persisted : bool) : Handler := fun config req =>
  match safeTrimE (get_opt (req_body req) "key") 32 with
  | Throw _ => (config, internal_error req)
  | Ok key =>
      match assertSafeInput (get_opt (req_body req) "path") "path" MAX_PATH_LEN with
      | inr e => (config, json_fail req 400 (thrownText e))
      | inl requested =>
          let newPath := if is_empty requested then [] else expandEnv requested in
          let folders := wow_folders (cfg_wow config) in
          let store (folders' : WowFolders) :=
            let config' :=
              with_wow config (mkWow (wow_processName (cfg_wow config)) folders') in
            if persisted
            then (config', json_ok req [(js "key", VStr key); (js "path", VStr newPath)])
            else (config', json_error req 500 "config write failed") in
          if str_eqb key (js "addons")
          then store (mkWowFolders (VStr newPath) (wf_logs folders) (wf_wtf folders))
          else if str_eqb key (js "logs")
          then store (mkWowFolders (wf_addons folders) (VStr newPath) (wf_wtf folders))
          else if str_eqb key (js "wtf")
          then store (mkWowFolders (wf_addons folders) (wf_logs folders) (VStr newPath))
          else (config, json_error req 400 "ungueltiger key")
      end
  end.

(** The handler of [POST /api/programs/resolve]; [index] is what
    [buildProgramIndex()] returns. *)
Definition programsResolve (index : list ProgramEntry) : Handler := fun config req =>
  match assertSafeInput (get_opt (req_body req) "input") "input" 240 with
  | inr e => (config, json_fail req 400 (thrownText e))
  | inl input =>
      if is_empty input then (config, json_error req 400 "input fehlt")
      else
        let resolved := resolveProgramPath index input in
        if is_empty resolved then (config, json_error req 404 "programm nicht gefunden")
        else (config, json_ok req [(js "path", VStr resolved)])
  end.

(** *** Templates *)

(** What [.] of a regular expression does not match. *)
Definition is_line_terminator (c : N) : bool :=
  ((c =? 10) || (c =? 13) || (c =? 8232) || (c =? 8233))%N.

(** [value.match(/^\{\{(.+)\}\}$/)]: the group, when the string matches. *)
Definition templateKey (value : jsstring) : option jsstring :=
  if startsWith value (js "{{") && endsWith value (js "}}") && (5 <=? len value)
  then
    let inner := take (length value - 4) (drop 2 value) in
    if existsb is_line_terminator inner then None else Some inner
  else None.

(** [part in cur] for a name that is not an own property of [cur]: the
    members [cur] inherits from [Object.prototype] or [Array.prototype] are
    those of the runtime. *)
Variable inherited : value -> jsstring -> bool.

(** What a path reaches in an object of JSON data: nothing, a piece of the
    data, or something behind an inherited member, which is never a
    string. *)
Inductive found :=
| Undefined
| Data (v : value)
| Foreign.

Fixpoint array_member (i : N) (items : list value) (part : jsstring) : option value :=
  match items with
  | [] => None
  | x :: r => if str_eqb (decimal i) part then Some x else array_member (i + 1) r part
  end.

(** [part in cur ? cur[part] : undefined] on an object or an array. *)
Definition member (cur : value) (part : jsstring) : found :=
  match cur with
  | VObj fields =>
      match assoc part fields with
      | Some v => Data v
      | None => if inherited cur part then Foreign else Undefined
      end
  | VArr items =>
      match array_member 0 items part with
      | Some v => Data v
      | None =>
          if str_eqb part (js "length") then Data (VNum (num_of_Z (Z.of_nat (length items))))
          else if inherited cur part then Foreign else Undefined
      end
  | _ => Undefined
  end.

Fixpoint getByPath_loop (cur : found) (parts : list jsstring) : found :=
  match parts with
  | [] => cur
  | part :: rest =>
      match cur with
      | Data v =>
          if is_object v
          then match member v part with
               | Undefined => Undefined
               | next => getByPath_loop next rest
               end
          else Undefined
      | other => other
      end
  end.

Definition getByPath (obj : value) (dottedPath : jsstring) : found :=
  getByPath_loop (Data obj)
    (List.filter (fun part => negb (is_empty part)) (split 46 dottedPath)).

Definition resolveTemplate (value config : value) : jsstring :=
  match value with
  | VStr s =>
      match templateKey s with
      | None => expandEnv s
      | Some key =>
          match getByPath config (trim key) with
          | Data (VStr got) => expandEnv got
          | _ => []
          end
      end
  | _ => []
  end.

(** [hasTemplateSyntax(value)] on a string. *)
Definition hasTemplateSyntax (value : jsstring) : bool :=
  includes value (js "{{") && includes value (js "}}").

(** [resolveLauncherPath(key)] and [resolveTileTarget(tile)] on the
    configuration [config]; [config.launchers[key]] is read as an own
    property, as in [mergeLauncher]. *)
Definition resolveLauncherPath (config : Config) (key : jsstring) : jsstring :=
  match cfg_launchers config !! key with
  | Some launcher => expandEnv (trim (str_or_empty (Some (launcher_path launcher))))
  | None => []
  end.

Definition resolveTileTarget (config : Config) (tile : Tile) : jsstring :=
  if negb (unset (tile_launcherKey tile))
  then resolveLauncherPath config (default [] (tile_launcherKey tile))
  else
    match tile_target tile with
    | Some target => unquoteWrapped (resolveTemplate (VStr target) (encode config))
    | None => []
    end.


(** *** Command lines *)

(** [[^q]*q] at the head of [s]: the text before the next [q] and the text
    after it. *)
Fixpoint until_quote (q : N) (s : jsstring) : option (jsstring * jsstring) :=
  match s with
  | [] => None
  | c :: r =>
      if (c =? q)%N then Some ([], r)
      else match until_quote q r with
           | Some (inner, rest) => Some (c :: inner, rest)
           | None => None
           end
  end.

(** [\S+] at the head of [s]: the run without white space and the rest. *)
Fixpoint non_ws_run (s : jsstring) : jsstring * jsstring :=
  match s with
  | [] => ([], [])
  | c :: r =>
      if is_ws c then ([], s)
      else let '(run, rest) := non_ws_run r in (c :: run, rest)
  end.

(** The loop [while ((m = re.exec(raw)) !== null) out.push(...)]: the
    pattern matches, in this order, a text between two quotation marks, a
    text between two apostrophes, or a run without white space, and the
    search goes on behind the match.  Every match consumes a unit, so the
    length of the text is fuel enough. *)
Fixpoint parseCommandArgs_loop (fuel : nat) (s : jsstring) : list jsstring :=
  match fuel with
  | O => []
  | S fuel =>
      match s with
      | [] => []
      | c :: r =>
          match (if (c =? 34)%N || (c =? 39)%N then until_quote c r else None) with
          | Some (inner, rest) => inner :: parseCommandArgs_loop fuel rest
          | None =>
              if is_ws c then parseCommandArgs_loop fuel r
              else let '(run, rest) := non_ws_run s in
                   run :: parseCommandArgs_loop fuel rest
          end
      end
  end.

Definition parseCommandArgs (rawInput : option value) : list jsstring :=
  let raw := safeTrim rawInput 2048 in
  if is_empty raw then []
  else List.filter (fun x => negb (is_empty x)) (parseCommandArgs_loop (length raw) raw).


(** *** Vocabulary of the statements *)

(** The entries of [raw.profiles] and of [p.pages], and how
    [normalizeProfiles] reads one of them. *)
Definition rawProfiles (raw : value) : list value :=
  match get raw "profiles" with Some (VArr l) => l | _ => [] end.

Definition rawPages (p : value) : list value :=
  match get p "pages" with Some (VArr l) => l | _ => [] end.

Definition entryId (p : value) : jsstring := trim (str_or_empty (get p "id")).

Definition entryLabel (p : value) : jsstring := trim (str_or_empty (get p "label")).

Definition validPage (x : value) : bool :=
  negb (is_empty (entryId x)) && negb (is_empty (entryLabel x)).

Definition validEntry (p : value) : bool := is_object p && validPage p.

(** What is to become of a valid entry: its trimmed id and label, its valid
    pages in their order, and the one page [main] when it has none. *)
Definition keptPages (p : value) : list Page :=
  let pages :=
    List.filter page_ok (List.map (fun x => mkPage (entryId x) (entryLabel x)) (rawPages p)) in
  if is_empty_list pages then [mainPage] else pages.

Definition keptProfile (p : value) : Profile :=
  mkProfile (entryId p) (entryLabel p) (keptPages p).

(** The entries of [raw.tiles]. *)
Definition rawTiles (raw : value) : list value :=
  match get raw "tiles" with Some (VArr l) => l | _ => [] end.

(** The list [raw.tiles] is missing the tile [t]: the validator reads none of
    its entries as a tile with that id. *)
Definition tilesMissing (raw : value) (t : jsstring) : Prop :=
  forall r u, In r (rawTiles raw) -> normalizeTile r = Some u -> tile_id u <> t.

(** The two loops of [ensureBuiltinTiles]. *)
Definition collectTiles (input : list value) (byId : list Tile) : list Tile :=
  fold_left (fun m raw => match normalizeTile raw with
                          | Some t => byId_set t m
                          | None => m
                          end) input byId.

Definition appendBuiltins (defs byId : list Tile) : list Tile :=
  fold_left (fun m def => if byId_has (tile_id def) m then m else byId_set def m) defs byId.

(** The window and the budget [rateLimit] works with. *)
(** What a request supplies as its token, as it was sent: the [x-token]
    header, and the [token] query parameter when it is a string. *)
Definition suppliedHeader (req : Request) : jsstring := default [] (req_header_token req).

Definition suppliedQuery (req : Request) : jsstring :=
  match req_query_token req with Some (VStr q) => q | _ => [] end.

(** A token after [safeTrim(., 512)]: trimmed, without control characters,
    cut to 512 code units. *)
Definition cleanToken (s : jsstring) : jsstring := safeTrimStr s 512.

Definition rateWindow (config : Config) : Z :=
  setting_at_least 250 (rl_windowMs (cfg_rateLimit config)) 3000.

Definition rateMax (config : Config) : Z :=
  setting_at_least 3 (rl_max (cfg_rateLimit config)) 20.

(** A sequence of requests, each with the time it reaches [rateLimit], and
    the outcomes of those of the client [ip]. *)
Fixpoint serve (config : Config) (trace : list (Z * Request)) (adm : Admission)
    : Admission * list outcome :=
  match trace with
  | [] => (adm, [])
  | e :: rest =>
      let '(adm1, o) := rateLimit config e.1 e.2 adm in
      let '(adm2, os) := serve config rest adm1 in
      (adm2, o :: os)
  end.

Fixpoint mine (ip : jsstring) (trace : list (Z * Request)) (outs : list outcome)
    : list (Request * outcome) :=
  match trace, outs with
  | e :: rest, o :: os =>
      if str_eqb (clientIp e.2) ip then (e.2, o) :: mine ip rest os else mine ip rest os
  | _, _ => []
  end.

(** The client has no budget in use at time [now]: no entry, or one whose
    window is over. *)
Definition fresh (config : Config) (adm : Admission) (ip : jsstring) (now : Z) : Prop :=
  forall e, rateState adm !! ip = Some e -> now - t0 e > rateWindow config.

Definition rateLimited (req : Request) : outcome :=
  Respond (json_error req 429 "rate limited").


(** The tile [normalizeTile] makes of a built-in tile: [showIf] and
    [iconData] are filled in. *)
Definition completeTile (d : Tile) : Tile :=
  mkTile (tile_id d) (tile_profile d) (tile_page d) (tile_label d) (tile_subtitle d)
    (tile_type d) (tile_builtin d) (Some (default [] (tile_showIf d))) (tile_iconMode d)
    (tile_icon d) (Some (default [] (tile_iconData d))) (tile_launcherKey d) (tile_target d)
    (tile_args d) (tile_startIn d) (tile_action d).

(** A string that [trim] leaves as it is and that is not empty; the pages
    and profiles [normalizeProfiles] returns are made of such strings. *)
Definition trimmed (s : jsstring) : Prop := trim s = s /\ s <> [].

Definition normalPage (x : Page) : Prop := trimmed (page_id x) /\ trimmed (page_label x).

Definition normalProfile (q : Profile) : Prop :=
  trimmed (profile_id q) /\ trimmed (profile_label q)
  /\ profile_pages q <> [] /\ Forall normalPage (profile_pages q).

(** A [wow.processName] and a [wow.folders] entry that a merge reads back as
    they are. *)
Definition stableName (v : value) : Prop :=
  match v with
  | VStr s => s <> [] /\ (is_empty (trim s) = false -> trim s = s)
  | _ => truthy v = true
  end.

Definition stableFolder (v : value) : Prop :=
  match v with VStr _ => True | _ => truthy v = true end.

(** The inputs on which a step of [mergeWithDefaults] throws: a launcher
    whose [candidates] cannot be spread, a profile with a [null] page. *)
Definition is_null (v : value) : bool :=
  match v with VNull => true | _ => false end.

Definition spreadable (o : option value) : bool :=
  match o with
  | None => true
  | Some v => negb (truthy v) || match v with VArr _ | VStr _ => true | _ => false end
  end.

Definition rawLaunchers (raw : value) : list (jsstring * value) :=
  match get raw "launchers" with
  | Some ls => if is_object ls then entries ls else []
  | None => []
  end.

Definition throwingLauncher (e : jsstring * value) : bool :=
  is_object e.2 && negb (spreadable (get e.2 "candidates")).

Definition throwingProfile (p : value) : bool :=
  validEntry p && match get p "pages" with Some (VArr l) => existsb is_null l | _ => false end.


(** A ranking in which no row has a higher score than the row before it. *)
Fixpoint descending (l : list Ranked) : Prop :=
  match l with
  | a :: (b :: _) as r => ranked_score b <= ranked_score a /\ descending r
  | _ => True
  end.


(** The folder of the configuration that a key of the wow-folder route
    names. *)
Definition wowFolder (key : jsstring) (config : Config) : value :=
  let folders := wow_folders (cfg_wow config) in
  if str_eqb key (js "addons") then wf_addons folders
  else if str_eqb key (js "logs") then wf_logs folders
  else wf_wtf folders.

Definition WOW_FOLDER_KEYS : list jsstring := [js "addons"; js "logs"; js "wtf"].

(** The value a path of own properties reaches in JSON data. *)
Fixpoint own_path (v : value) (parts : list jsstring) : option value :=
  match parts with
  | [] => Some v
  | part :: rest =>
      match v with
      | VObj fields =>
          match assoc part fields with
          | Some w => own_path w rest
          | None => None
          end
      | _ => None
      end
  end.

(** A segment of a dotted path. *)
Definition segment (part : jsstring) : Prop := part <> [] /\ ~ In 46%N part.


(** The text of a setting that holds a string. *)
Definition text_of (v : value) : jsstring :=
  match v with VStr s => s | _ => [] end.


(** [String(o || '')] throws. *)
Definition unconvertible (o : option value) : bool :=
  match o with Some v => truthy v && negb (convertible v) | None => false end.

(** No object inside [v], at any depth, has a member named [toString]:
    every conversion of a part of [v] to a string or a number returns. *)
Fixpoint plain (v : value) : bool :=
  match v with
  | VObj fields =>
      match assoc (js "toString") fields with Some _ => false | None => true end
      && (fix each (l : list (jsstring * value)) : bool :=
            match l with
            | [] => true
            | (_, w) :: r => plain w && each r
            end) fields
  | VArr items =>
      (fix each (l : list value) : bool :=
         match l with
         | [] => true
         | e :: r => plain e && each r
         end) items
  | _ => true
  end.

(** A text without quotation marks and apostrophes. *)
Definition quoteFree (s : jsstring) : Prop := ~ In 34%N s /\ ~ In 39%N s.


(** ** Properties *)

Set Default Proof Using "Type".

(** *** Strings *)

Lemma str_eqb_eq (a b : jsstring) : str_eqb a b = true <-> a = b.
Proof. unfold str_eqb. apply bool_decide_eq_true. Qed.

Lemma str_eqb_refl (a : jsstring) : str_eqb a a = true.
Proof. by apply str_eqb_eq. Qed.

Lemma str_eqb_neq (a b : jsstring) : str_eqb a b = false <-> a <> b.
Proof. unfold str_eqb. apply bool_decide_eq_false. Qed.

Lemma is_empty_true (s : jsstring) : is_empty s = true <-> s = [].
Proof. by destruct s. Qed.

Lemma is_empty_false (s : jsstring) : is_empty s = false <-> s <> [].
Proof. by destruct s. Qed.

Lemma trimStart_no_lead s : no_lead (trimStart s).
Proof.
  induction s as [|c r IH]; simpl; [done|].
  destruct (is_ws c) eqn:E; [done|]. simpl. by rewrite E.
Qed.

Lemma trimStart_fix s : no_lead s -> trimStart s = s.
Proof. destruct s as [|c r]; simpl; [done|]. by intros ->. Qed.

Lemma trimStart_split s : exists p, s = p ++ trimStart s.
Proof.
  induction s as [|c r [p IH]]; simpl; [by exists []|].
  destruct (is_ws c); [|by exists []].
  exists (c :: p). simpl. by rewrite <- IH.
Qed.

Lemma no_lead_app_l (a b : jsstring) : a <> [] -> no_lead (a ++ b) -> no_lead a.
Proof. by destruct a. Qed.

Lemma trimStart_no_trail s : no_trail s -> no_trail (trimStart s).
Proof.
  unfold no_trail. intros H.
  destruct (trimStart_split s) as [p Hp].
  destruct (trimStart s) as [|c r] eqn:E; [done|].
  rewrite Hp, rev_app_distr in H.
  apply no_lead_app_l in H; [done|].
  intros Hnil. apply (f_equal (@length N)) in Hnil.
  rewrite length_rev in Hnil. done.
Qed.

Lemma trimEnd_no_trail s : no_trail (trimEnd s).
Proof. unfold no_trail, trimEnd. rewrite rev_involutive. apply trimStart_no_lead. Qed.

Lemma trimEnd_no_lead s : no_lead s -> no_lead (trimEnd s).
Proof.
  intros H. unfold trimEnd.
  pose proof (trimStart_no_trail (rev s)) as T. unfold no_trail in T.
  apply T. by rewrite rev_involutive.
Qed.

Lemma trimEnd_fix s : no_trail s -> trimEnd s = s.
Proof. intros H. unfold trimEnd. rewrite trimStart_fix by done. apply rev_involutive. Qed.

Lemma trim_no_lead s : no_lead (trim s).
Proof. apply trimEnd_no_lead, trimStart_no_lead. Qed.

Lemma trim_no_trail s : no_trail (trim s).
Proof. apply trimEnd_no_trail. Qed.

Lemma trim_fix s : no_lead s -> no_trail s -> trim s = s.
Proof. intros H1 H2. unfold trim. rewrite trimStart_fix by done. by apply trimEnd_fix. Qed.

Lemma trim_idemp s : trim (trim s) = trim s.
Proof. apply trim_fix; [apply trim_no_lead | apply trim_no_trail]. Qed.

(** *** Comparison of tokens *)

Lemma xor_fold_zero (a b : list N) (acc : N) :
  length a = length b ->
  xor_fold a b acc = 0%N <-> acc = 0%N /\ a = b.
Proof.
  revert b acc. induction a as [|x a IH]; intros [|y b] acc Hl; try done; cbn [xor_fold].
  - split; [by intros ->|by intros [-> _]].
  - injection Hl as Hl. rewrite (IH b _ Hl), N.lor_eq_0_iff, N.lxor_eq_0_iff.
    split; [by intros [[-> ->] ->]|by intros [-> [= -> ->]]].
Qed.

Lemma secureEqualText_bytes (a b : jsstring) :
  secureEqualText a b = bool_decide (utf8_encode a = utf8_encode b).
Proof.
  unfold secureEqualText, timingSafeEqual.
  destruct (length (utf8_encode a) =? length (utf8_encode b))%nat eqn:El; cbn [negb].
  - apply Nat.eqb_eq in El. case_bool_decide as H.
    + apply N.eqb_eq. by apply xor_fold_zero.
    + apply N.eqb_neq. intros K. by apply xor_fold_zero in K as [_ K].
  - apply Nat.eqb_neq in El. symmetry. apply bool_decide_eq_false.
    intros K. by rewrite K in El.
Qed.

Ltac nlia :=
  try clear num_to_string string_to_num url_parse toLowerCase localeCompare env cwd
    fileExists dirExists path_join path_basename path_extname path_dirname
    path_basename_ext DISABLE_AUTODETECT;
  try clear conversionMessage inherited;
  zify; Z.to_euclidean_division_equations; lia.

Ltac bool_to_prop :=
  repeat match goal with
    | H : (_ <? _)%N = true |- _ => apply N.ltb_lt in H
    | H : (_ <? _)%N = false |- _ => apply N.ltb_ge in H
    | H : (_ <=? _)%N = true |- _ => apply N.leb_le in H
    | H : (_ <=? _)%N = false |- _ => apply N.leb_gt in H
    | H : (_ && _) = true |- _ => apply andb_true_iff in H as [? ?]
    | H : (_ && _) = false |- _ => apply andb_false_iff in H
    end.

Ltac decide_ltb :=
  repeat match goal with
    | |- context [(?x <? ?y)%N] =>
        first [ replace (x <? y)%N with true by (symmetry; apply N.ltb_lt; lia)
              | replace (x <? y)%N with false by (symmetry; apply N.ltb_ge; lia)
              | replace (x <? y)%N with true by (symmetry; apply N.ltb_lt; nlia)
              | replace (x <? y)%N with false by (symmetry; apply N.ltb_ge; nlia) ]
    end.

Lemma utf8_4_pieces (x : N) :
  (x < 2097152)%N ->
  ((240 + x / 262144 - 240) * 262144 + (128 + (x / 4096) mod 64 - 128) * 4096
   + (128 + (x / 64) mod 64 - 128) * 64 + (128 + x mod 64 - 128))%N = x.
Proof. intros. nlia. Qed.

Lemma surrogate_split (a b : N) :
  (b < 1024)%N ->
  ((65536 + a * 1024 + b - 65536) / 1024 = a
   /\ (65536 + a * 1024 + b - 65536) mod 1024 = b)%N.
Proof. intros. split; nlia. Qed.

Lemma utf8_roundtrip_step (s : jsstring) :
  (well_formed s = true -> utf8_decode (utf8_encode s) = s)
  /\ forall c, well_formed (c :: s) = true -> utf8_decode (utf8_encode (c :: s)) = c :: s.
Proof.
  induction s as [|d r [IH1 IH2]].
  - split; [done|]. intros c. cbn [well_formed utf8_encode].
    unfold is_high_surrogate, is_low_surrogate.
    destruct (65536 <=? c)%N eqn:E0; [done|].
    destruct ((55296 <=? c) && (c <=? 56319))%N eqn:E1; [done|].
    destruct ((56320 <=? c) && (c <=? 57343))%N eqn:E2; [done|]. intros _.
    destruct (c <? 128)%N eqn:E3; [by cbn; rewrite E3|].
    destruct (c <? 2048)%N eqn:E4; bool_to_prop.
    + cbn [app utf8_decode]. decide_ltb. f_equal. nlia.
    + unfold utf8_3. cbn [app utf8_decode]. decide_ltb. f_equal. nlia.
  - split; [by apply IH2|].
    intros c. cbn [well_formed]. unfold is_high_surrogate at 1.
    destruct (65536 <=? c)%N eqn:E0; [done|].
    destruct ((55296 <=? c) && (c <=? 56319))%N eqn:E1.
    + intros Hw. apply andb_true_iff in Hw as [Hd Hr].
      cbn [utf8_encode]. unfold is_high_surrogate. rewrite E1, Hd.
      unfold is_low_surrogate in Hd. bool_to_prop.
      replace (c <? 128)%N with false by (symmetry; apply N.ltb_ge; lia).
      replace (c <? 2048)%N with false by (symmetry; apply N.ltb_ge; lia).
      set (cp := (65536 + (c - 55296) * 1024 + (d - 56320))%N).
      unfold utf8_4. cbn [app utf8_decode]. decide_ltb.
      rewrite (IH1 Hr), utf8_4_pieces by (subst cp; lia). subst cp.
      destruct (surrogate_split (c - 55296) (d - 56320)) as [-> ->]; [lia|].
      f_equal; [lia|]. f_equal. lia.
    + unfold is_low_surrogate at 1.
      destruct ((56320 <=? c) && (c <=? 57343))%N eqn:E2; [done|]. intros Hw.
      change (utf8_encode (c :: d :: r)) with
        (if (c <? 128)%N then c :: utf8_encode (d :: r)
         else if (c <? 2048)%N then [192 + c / 64; 128 + c mod 64]%N ++ utf8_encode (d :: r)
         else if is_high_surrogate c then
                if is_low_surrogate d
                then utf8_4 (65536 + (c - 55296) * 1024 + (d - 56320))%N ++ utf8_encode r
                else utf8_3 65533 ++ utf8_encode (d :: r)
         else if is_low_surrogate c then utf8_3 65533 ++ utf8_encode (d :: r)
         else utf8_3 c ++ utf8_encode (d :: r)).
      unfold is_high_surrogate at 1. unfold is_low_surrogate at 2. rewrite E1, E2.
      specialize (IH2 _ Hw).
      destruct (c <? 128)%N eqn:E3.
      { cbn [utf8_decode]. rewrite E3. by rewrite IH2. }
      destruct (c <? 2048)%N eqn:E4; bool_to_prop.
      * cbn [app utf8_decode]. decide_ltb. rewrite IH2. f_equal. nlia.
      * unfold utf8_3. cbn [app utf8_decode]. decide_ltb. rewrite IH2. f_equal. nlia.
Qed.

Lemma utf8_roundtrip (s : jsstring) :
  well_formed s = true -> utf8_decode (utf8_encode s) = s.
Proof. apply utf8_roundtrip_step. Qed.

Lemma utf8_encode_inj (a b : jsstring) :
  well_formed a = true -> well_formed b = true ->
  utf8_encode a = utf8_encode b -> a = b.
Proof.
  intros Ha Hb E. rewrite <- (utf8_roundtrip a Ha), <- (utf8_roundtrip b Hb). by rewrite E.
Qed.

Lemma secureEqualText_eq (a b : jsstring) :
  well_formed a = true -> well_formed b = true ->
  secureEqualText a b = true <-> a = b.
Proof.
  intros Ha Hb. rewrite secureEqualText_bytes, bool_decide_eq_true.
  split; [by apply utf8_encode_inj|by intros ->].
Qed.

(** *** Tile validation *)




Lemma str_or_empty_str (s : jsstring) : str_or_empty (Some (VStr s)) = s.
Proof. by destruct s. Qed.




(** *** Totality of the merge *)

(** C2.  [mergeWithDefaults] throws a [TypeError] on [null], on a launcher
    whose [candidates] is the number 5 and on a profile whose [pages] list
    holds [null], whatever the platform and the random bytes are. *)
Theorem mergeWithDefaults_throws (bytes : list N) :
  mergeWithDefaults bytes VNull = Throw TypeError
  /\ mergeWithDefaults bytes Samples.numberCandidates = Throw TypeError
  /\ mergeWithDefaults bytes Samples.nullPage = Throw TypeError.
Proof.
  split; [reflexivity|]. split.
  - unfold mergeWithDefaults. reflexivity.
  - unfold mergeWithDefaults. reflexivity.
Qed.

(** *** What a successful merge returns *)

Lemma get_cfg (raw : value) (k : string) :
  get (if is_object raw then raw else VObj []) k = get raw k.
Proof. by destruct raw. Qed.

Lemma mergeWithDefaults_inv (bytes : list N) (raw : value) (y : Config) :
  mergeWithDefaults bytes raw = Ok y ->
  exists base launchers,
    createDefaultConfig bytes raw = Ok base
    /\ mergeAllLaunchers raw (cfg_launchers base) = Ok launchers
    /\ normalizeProfiles (get raw "profiles") = Ok (cfg_profiles y)
    /\ cfg_tiles y = ensureBuiltinTiles (get raw "tiles")
    /\ cfg_host y = mergeHost raw (cfg_host base)
    /\ cfg_port y = mergePort raw (cfg_port base)
    /\ cfg_token y = mergeToken raw (cfg_token base)
    /\ cfg_workspaceDir y = mergeWorkspaceDir raw (cfg_workspaceDir base)
    /\ cfg_rateLimit y = mergeRateLimit raw (cfg_rateLimit base)
    /\ cfg_wow y = mergeWow raw (cfg_wow base)
    /\ cfg_logging y = mergeLogging raw (cfg_logging base)
    /\ cfg_launchers y =
         if DISABLE_AUTODETECT then launchers else autodetectLauncher <$> launchers.
Proof.
  unfold mergeWithDefaults, mergeAllLaunchers, mergeHost, mergePort, mergeToken,
    mergeWorkspaceDir, mergeRateLimit, mergeWow, mergeLogging.
  rewrite !get_cfg.
  destruct (createDefaultConfig bytes raw) as [base|] eqn:Eb; [|done]. cbn [bind].
  destruct (match get raw "launchers" with Some _ => _ | None => _ end)
    as [launchers|] eqn:El; [|done]. cbn [bind].
  destruct (normalizeProfiles (get raw "profiles")) as [profiles|] eqn:Ep; [|done].
  cbn [bind]. intros [= <-]. by exists base, launchers.
Qed.

(** *** Profiles *)

Lemma mapM_normalizePage (l : list value) (mapped : list Page) :
  mapM normalizePage l = Ok mapped ->
  mapped = List.map (fun x => mkPage (entryId x) (entryLabel x)) l.
Proof.
  revert mapped. induction l as [|x r IH]; intros mapped; cbn [mapM List.map].
  - by intros [= <-].
  - destruct (normalizePage x) as [pg|] eqn:Ex; [|done]. cbn [bind].
    destruct (mapM normalizePage r) as [bs|]; [|done]. cbn [bind].
    intros [= <-]. f_equal; [|by apply IH].
    destruct x; try done; by injection Ex as <-.
Qed.

(** What one iteration of the loop keeps. *)
Lemma normalizeProfile_skip (p : value) (o : option Profile) :
  normalizeProfile p = Ok o -> validEntry p = false -> o = None.
Proof.
  unfold normalizeProfile, validEntry, validPage, entryId, entryLabel.
  destruct (is_object p); cbn [negb andb]; [|by intros [= <-]].
  rewrite <- negb_orb. intros H Hv. apply negb_false_iff in Hv.
  rewrite Hv in H. by injection H as <-.
Qed.

Lemma normalizeProfile_keep (p : value) (o : option Profile) :
  normalizeProfile p = Ok o -> validEntry p = true ->
  exists q, o = Some q /\ profile_id q = entryId p /\ profile_label q = entryLabel p
    /\ forall x, In x (rawPages p) -> validPage x = true ->
         In (mkPage (entryId x) (entryLabel x)) (profile_pages q).
Proof.
  unfold normalizeProfile, validEntry, validPage at 1.
  fold (entryId p). fold (entryLabel p).
  destruct (is_object p); cbn [negb andb]; [|done].
  rewrite <- negb_orb. intros H Hv. apply negb_true_iff in Hv. rewrite Hv in H.
  unfold rawPages.
  destruct (get p "pages") as [[| | | |[|x r]|]|]; cbn [bind] in H;
    try (injection H as <-; eexists; repeat split; done).
  destruct (mapM normalizePage (x :: r)) as [mapped|] eqn:Em; [|done].
  cbn [bind] in H. injection H as <-. eexists. repeat split.
  intros x' Hin Hx'. cbn [profile_pages].
  apply mapM_normalizePage in Em. subst mapped.
  assert (In (mkPage (entryId x') (entryLabel x'))
            (List.filter page_ok
               (List.map (fun x => mkPage (entryId x) (entryLabel x)) (x :: r)))) as Hf.
  { apply filter_In. split; [|exact Hx'].
    apply in_map_iff. by exists x'. }
  destruct (List.filter page_ok _); [done|exact Hf].
Qed.

Lemma normalizeProfiles_loop_spec (l : list value) (out : list Profile) :
  normalizeProfiles_loop l = Ok out ->
  (forall q, In q out -> exists p, In p l /\ validEntry p = true
                          /\ profile_id q = entryId p /\ profile_label q = entryLabel p)
  /\ (forall p, In p l -> validEntry p = true ->
        exists q, In q out /\ profile_id q = entryId p /\ profile_label q = entryLabel p
          /\ forall x, In x (rawPages p) -> validPage x = true ->
               In (mkPage (entryId x) (entryLabel x)) (profile_pages q)).
Proof.
  revert out. induction l as [|p r IH]; intros out; cbn [normalizeProfiles_loop].
  - intros [= <-]. split; [by intros q []|by intros p []].
  - destruct (normalizeProfile p) as [o|] eqn:Ep; [|done]. cbn [bind].
    destruct (normalizeProfiles_loop r) as [out'|]; [|done]. cbn [bind].
    intros [= <-]. destruct (IH _ eq_refl) as [IH1 IH2].
    destruct (validEntry p) eqn:Ev.
    + destruct (normalizeProfile_keep _ _ Ep Ev) as (q & -> & Hid & Hl & Hp). split.
      * intros q' [<-|Hin]; [by exists p; split; [left|]|].
        destruct (IH1 _ Hin) as (p' & ? & ?). exists p'. split; [by right|done].
      * intros p' [<-|Hin] Hv; [exists q; split; [by left|done]|].
        destruct (IH2 _ Hin Hv) as (q' & ? & ?). exists q'. split; [by right|done].
    + rewrite (normalizeProfile_skip _ _ Ep Ev). split.
      * intros q' Hin. destruct (IH1 _ Hin) as (p' & ? & ?).
        exists p'. split; [by right|done].
      * intros p' [<-|Hin] Hv; [congruence|]. by apply IH2.
Qed.

Lemma normalizeProfile_exact (p : value) (o : option Profile) :
  normalizeProfile p = Ok o ->
  o = if validEntry p then Some (keptProfile p) else None.
Proof.
  intros H. destruct (validEntry p) eqn:Ev; [|by apply (normalizeProfile_skip p)].
  revert H Ev. unfold normalizeProfile, validEntry, validPage at 1, keptProfile, keptPages.
  fold (entryId p). fold (entryLabel p).
  destruct (is_object p); cbn [negb andb]; [|done].
  rewrite <- negb_orb. intros H Hv. apply negb_true_iff in Hv. rewrite Hv in H.
  unfold rawPages.
  destruct (get p "pages") as [[| | | |[|x r]|]|]; cbn [bind] in H;
    try (by injection H as <-).
  destruct (mapM normalizePage (x :: r)) as [mapped|] eqn:Em; [|done].
  cbn [bind] in H. injection H as <-.
  apply mapM_normalizePage in Em. by subst mapped.
Qed.

Lemma normalizeProfiles_loop_exact (l : list value) (out : list Profile) :
  normalizeProfiles_loop l = Ok out ->
  out = List.map keptProfile (List.filter validEntry l).
Proof.
  revert out. induction l as [|p r IH]; intros out; cbn [normalizeProfiles_loop].
  - by intros [= <-].
  - destruct (normalizeProfile p) as [o|] eqn:Ep; [|done]. cbn [bind].
    destruct (normalizeProfiles_loop r) as [out'|]; [|done]. cbn [bind].
    intros [= <-]. apply normalizeProfile_exact in Ep. subst o.
    rewrite (IH _ eq_refl). cbn [List.filter]. by destruct (validEntry p).
Qed.

Lemma keptPages_spec (p : value) (x : Page) :
  In x (keptPages p)
  <-> (exists r, In r (rawPages p) /\ validPage r = true
                 /\ x = mkPage (entryId r) (entryLabel r))
      \/ (x = mainPage /\ forall r, In r (rawPages p) -> validPage r = false).
Proof.
  unfold keptPages. cbv zeta.
  set (pages := List.filter page_ok
                  (List.map (fun x => mkPage (entryId x) (entryLabel x)) (rawPages p))).
  assert (forall z, In z pages
                    <-> exists r, In r (rawPages p) /\ validPage r = true
                                  /\ z = mkPage (entryId r) (entryLabel r)) as Hp.
  { intros z. unfold pages. rewrite filter_In, in_map_iff. split.
    - intros [(r & <- & Hr) Hok]. by exists r.
    - intros (r & Hr & Hv & ->). split; [by exists r|exact Hv]. }
  clearbody pages. destruct pages as [|z rest]; cbn [is_empty_list].
  - split.
    + intros [<-|[]]. right. split; [done|]. intros r Hr.
      destruct (validPage r) eqn:Hv; [|done].
      exfalso. apply (proj2 (Hp (mkPage (entryId r) (entryLabel r)))). by exists r.
    + intros [(r & Hr & Hv & ->)|[-> _]]; [|by left].
      exfalso. apply (proj2 (Hp (mkPage (entryId r) (entryLabel r)))). by exists r.
  - split.
    + intros Hx. left. by apply Hp.
    + intros [Hx|[-> Hnone]]; [by apply Hp|].
      exfalso. destruct (proj1 (Hp z) (or_introl eq_refl)) as (r & Hr & Hv & _).
      rewrite (Hnone r Hr) in Hv. done.
Qed.

(** C1, as the code has it.  When [mergeWithDefaults] returns, the profiles
    are the built-in ones exactly when [raw.profiles] holds no entry with a
    non-empty id and label.  Otherwise they are the user's valid entries, in
    their order, and no built-in profile is added: every profile of the
    result stems from an entry of the input, and every entry keeps each of
    its pages that has a non-empty id and label.  The pages of a profile are
    exactly those pages of its entry; only an entry without such a page gets
    the one page [main]. *)
Theorem mergeWithDefaults_profiles (bytes : list N) (raw : value) (y : Config) :
  mergeWithDefaults bytes raw = Ok y ->
  (existsb validEntry (rawProfiles raw) = false -> cfg_profiles y = getDefaultProfiles)
  /\ (existsb validEntry (rawProfiles raw) = true ->
      (forall q, In q (cfg_profiles y) ->
         exists p, In p (rawProfiles raw) /\ validEntry p = true
                   /\ profile_id q = entryId p /\ profile_label q = entryLabel p)
      /\ (forall p, In p (rawProfiles raw) -> validEntry p = true ->
            exists q, In q (cfg_profiles y)
              /\ profile_id q = entryId p /\ profile_label q = entryLabel p
              /\ forall x, In x (rawPages p) -> validPage x = true ->
                   In (mkPage (entryId x) (entryLabel x)) (profile_pages q)))
  /\ (existsb validEntry (rawProfiles raw) = true ->
      cfg_profiles y = List.map keptProfile (List.filter validEntry (rawProfiles raw)))
  /\ (forall p x,
        In x (profile_pages (keptProfile p))
        <-> (exists r, In r (rawPages p) /\ validPage r = true
                       /\ x = mkPage (entryId r) (entryLabel r))
            \/ (x = mainPage /\ forall r, In r (rawPages p) -> validPage r = false)).
Proof.
  intros H. apply mergeWithDefaults_inv in H as (base & launchers & _ & _ & Hp & _).
  split; [|split; [|split; [|intros p x; apply keptPages_spec]]];
    unfold normalizeProfiles, rawProfiles in *;
    (destruct (get raw "profiles") as [[| | | |[|p r]|]|];
       try (injection Hp as <-; first [done|by intros [=]]));
    (destruct (normalizeProfiles_loop (p :: r)) as [out|] eqn:El; [|done]);
    cbn [bind] in Hp; injection Hp as <-;
    destruct (normalizeProfiles_loop_spec _ _ El) as [H1 H2].
  - intros Hnone. destruct out as [|q out]; [done|].
    destruct (H1 q (or_introl eq_refl)) as (p' & Hin & Hv & _).
    assert (existsb validEntry (p :: r) = true) as Hex
      by (apply existsb_exists; by exists p').
    congruence.
  - intros Hsome. apply existsb_exists in Hsome as (p' & Hin & Hv).
    destruct (H2 _ Hin Hv) as (q & Hq & _).
    destruct out as [|q0 out]; [done|]. cbn [is_empty_list]. by split.
  - intros Hsome. apply existsb_exists in Hsome as (p' & Hin & Hv).
    destruct (H2 _ Hin Hv) as (q & Hq & _).
    destruct out as [|q0 out]; [done|]. cbn [is_empty_list].
    by apply normalizeProfiles_loop_exact.
Qed.

(** *** Built-in tiles *)

Lemma ensureBuiltinTiles_loops (raw : value) :
  ensureBuiltinTiles (get raw "tiles") = appendBuiltins getDefaultTiles (collectTiles (rawTiles raw) []).
Proof.
  unfold ensureBuiltinTiles, rawTiles, appendBuiltins, collectTiles.
  by destruct (get raw "tiles") as [[| | | | |]|].
Qed.

Lemma byId_set_In (u t : Tile) (m : list Tile) :
  In u (byId_set t m) -> u = t \/ In u m.
Proof.
  induction m as [|x r IH]; cbn [byId_set].
  - intros [<-|[]]. by left.
  - destruct (str_eqb (tile_id x) (tile_id t)).
    + intros [<-|H]; [by left|right; by right].
    + intros [<-|H]; [right; by left|].
      destruct (IH H) as [->|?]; [by left|right; by right].
Qed.

Lemma byId_has_false (id : jsstring) (m : list Tile) :
  byId_has id m = false <-> forall u, In u m -> tile_id u <> id.
Proof.
  unfold byId_has. split.
  - intros H u Hu E. assert (existsb (fun u => str_eqb (tile_id u) id) m = true) as K.
    { apply existsb_exists. exists u. split; [done|]. by apply str_eqb_eq. }
    congruence.
  - intros H. destruct (existsb _ m) eqn:E; [|done].
    apply existsb_exists in E as (u & Hu & E). apply str_eqb_eq in E. by destruct (H u Hu).
Qed.

Lemma byId_set_absent (t : Tile) (m : list Tile) :
  byId_has (tile_id t) m = false -> byId_set t m = m ++ [t].
Proof.
  induction m as [|x r IH]; cbn [byId_set byId_has existsb app]; [done|].
  intros H. apply orb_false_iff in H as [H1 H2]. rewrite H1. f_equal. by apply IH.
Qed.

Lemma collectTiles_In (input : list value) (byId : list Tile) (u : Tile) :
  In u (collectTiles input byId) ->
  In u byId \/ exists r, In r input /\ normalizeTile r = Some u.
Proof.
  revert byId. induction input as [|r rest IH]; intros byId; cbn [collectTiles fold_left].
  - by left.
  - intros H. apply IH in H as [H|(r' & ? & ?)].
    + destruct (normalizeTile r) as [t|] eqn:E; [|by left].
      apply byId_set_In in H as [->|H]; [|by left].
      right. exists r. split; [by left|done].
    + right. exists r'. split; [by right|done].
Qed.

Lemma appendBuiltins_spec (defs byId : list Tile) :
  (forall u, In u (appendBuiltins defs byId) -> In u byId \/ In u defs)
  /\ (forall u, In u byId -> In u (appendBuiltins defs byId))
  /\ (forall d, In d defs -> byId_has (tile_id d) (appendBuiltins defs byId) = true).
Proof.
  revert byId. induction defs as [|d rest IH]; intros byId; cbn [appendBuiltins fold_left].
  - repeat split; [by left|done|by intros d []].
  - fold (appendBuiltins rest (if byId_has (tile_id d) byId then byId else byId_set d byId)).
    destruct (IH (if byId_has (tile_id d) byId then byId else byId_set d byId)) as (I1 & I2 & I3).
    assert (byId_has (tile_id d)
              (if byId_has (tile_id d) byId then byId else byId_set d byId) = true) as Hd.
    { destruct (byId_has (tile_id d) byId) eqn:E; [done|].
      rewrite byId_set_absent by done. unfold byId_has.
      rewrite existsb_app. cbn [existsb]. by rewrite str_eqb_refl, orb_true_r. }
    repeat split.
    + intros u Hu. apply I1 in Hu as [Hu|Hu]; [|right; by right].
      destruct (byId_has (tile_id d) byId) eqn:E; [by left|].
      rewrite byId_set_absent in Hu by done.
      apply in_app_or in Hu as [Hu|[<-|[]]]; [by left|right; by left].
    + intros u Hu. apply I2.
      destruct (byId_has (tile_id d) byId) eqn:E; [done|].
      rewrite byId_set_absent by done. apply in_or_app. by left.
    + intros d' [<-|Hd']; [|by apply I3].
      unfold byId_has in *. apply existsb_exists in Hd as (u & Hu & Eu).
      apply existsb_exists. exists u. split; [by apply I2|done].
Qed.

(** The ids of the built-in tiles are pairwise distinct and stable under
    [trim]. *)
Lemma builtin_id_unique (d d' : Tile) :
  In d getDefaultTiles -> In d' getDefaultTiles -> tile_id d' = tile_id d -> d' = d.
Proof.
  intros Hd Hd'. cbn in Hd, Hd'.
  repeat (destruct Hd as [<-|Hd]; [
    repeat (destruct Hd' as [<-|Hd']; [first [done | by intros [=]]|]); by destruct Hd' |]).
  by destruct Hd.
Qed.



(** When the input lacks [d], the merged list holds [d] itself and nothing
    else under its id. *)
Lemma ensureBuiltinTiles_missing (raw : value) (d : Tile) :
  In d getDefaultTiles -> tilesMissing raw (tile_id d) ->
  In d (ensureBuiltinTiles (get raw "tiles"))
  /\ forall u, In u (ensureBuiltinTiles (get raw "tiles")) -> tile_id u = tile_id d -> u = d.
Proof.
  intros Hd Hmiss. rewrite ensureBuiltinTiles_loops.
  destruct (appendBuiltins_spec getDefaultTiles (collectTiles (rawTiles raw) [])) as (A1 & A2 & A3).
  assert (forall u, In u (appendBuiltins getDefaultTiles (collectTiles (rawTiles raw) [])) ->
                    tile_id u = tile_id d -> u = d) as Huniq.
  { intros u Hu E. apply A1 in Hu as [Hu|Hu]; [|by apply builtin_id_unique].
    apply collectTiles_In in Hu as [[]|(r & Hr & Hn)]. by destruct (Hmiss r u Hr Hn). }
  split; [|done].
  specialize (A3 d Hd). unfold byId_has in A3. apply existsb_exists in A3 as (u & Hu & E).
  apply str_eqb_eq in E. by rewrite <- (Huniq u Hu E).
Qed.



(** *** A second merge *)

(** What [mergeWithDefaults] reads in the object of a configuration. *)
Lemma get_encode (c : Config) :
  get (encode c) "host" = Some (VStr (cfg_host c))
  /\ get (encode c) "port" = Some (VNum (Fin (inject_Z (cfg_port c))))
  /\ get (encode c) "token" = Some (VStr (cfg_token c))
  /\ get (encode c) "workspaceDir" = Some (VStr (cfg_workspaceDir c))
  /\ get (encode c) "profiles" = Some (VArr (encode_profile <$> cfg_profiles c))
  /\ get (encode c) "tiles" = Some (VArr (encode_tile <$> cfg_tiles c))
  /\ get (encode c) "paths" = None.
Proof. by repeat split. Qed.

Lemma num_isInteger_inject (z : Z) : num_isInteger (Fin (inject_Z z)) = true.
Proof. unfold num_isInteger. rewrite Qfloor_Z. by apply Qeq_bool_iff. Qed.

Lemma num_floor_inject (z : Z) : num_floor (inject_Z z) = z.
Proof. apply Qfloor_Z. Qed.

Lemma mergeHost_trimmed (raw : value) (base : jsstring) :
  trimmed base -> trimmed (mergeHost raw base).
Proof.
  intros Hb. unfold mergeHost.
  destruct (get raw "host") as [[| | |h| |]|]; try done.
  destruct (is_empty (trim h)) eqn:E; [done|].
  split; [apply trim_idemp|by apply is_empty_false].
Qed.

Lemma mergeHost_encode (c : Config) (base : jsstring) :
  trimmed (cfg_host c) -> mergeHost (encode c) base = cfg_host c.
Proof.
  intros [Ht Hn]. unfold mergeHost.
  destruct (get_encode c) as (-> & _). rewrite Ht.
  apply is_empty_false in Hn. by rewrite Hn.
Qed.

Lemma mergePort_range (raw : value) : 0 < mergePort raw 8787 <= 65535.
Proof.
  unfold mergePort.
  destruct (get raw "port") as [[| |[q| |]| | |]|]; try lia.
  destruct (num_isInteger (Fin q)); cbn [andb]; [|lia].
  destruct (0 <? num_floor q) eqn:E1; cbn [andb]; [|lia].
  destruct (num_floor q <=? 65535) eqn:E2; lia.
Qed.

Lemma mergePort_encode (c : Config) (base : Z) :
  0 < cfg_port c <= 65535 -> mergePort (encode c) base = cfg_port c.
Proof.
  intros H. unfold mergePort.
  destruct (get_encode c) as (_ & -> & _).
  rewrite num_isInteger_inject, num_floor_inject.
  replace (0 <? cfg_port c) with true by lia.
  by replace (cfg_port c <=? 65535) with true by lia.
Qed.

Lemma randomToken_length (bytes : list N) : length (randomToken bytes) = length bytes.
Proof. unfold randomToken. apply length_fmap. Qed.

Lemma mergeToken_long (raw : value) (base : jsstring) :
  12 <= len base -> 12 <= len (mergeToken raw base).
Proof.
  intros Hb. unfold mergeToken.
  destruct (get raw "token") as [[| | |t| |]|]; try done.
  destruct (12 <=? len t) eqn:E; [lia|done].
Qed.

Lemma mergeToken_encode (c : Config) (base : jsstring) :
  12 <= len (cfg_token c) -> mergeToken (encode c) base = cfg_token c.
Proof.
  intros H. unfold mergeToken.
  destruct (get_encode c) as (_ & _ & -> & _).
  by replace (12 <=? len (cfg_token c)) with true by lia.
Qed.

Lemma mergeWorkspaceDir_encode (raw : value) (c : Config) :
  trim cwd = cwd ->
  cfg_workspaceDir c = mergeWorkspaceDir raw cwd ->
  mergeWorkspaceDir (encode c) cwd = cfg_workspaceDir c.
Proof.
  intros Hcwd Hc. unfold mergeWorkspaceDir at 1.
  destruct (get_encode c) as (_ & _ & _ & -> & _).
  assert (trim (cfg_workspaceDir c) = cfg_workspaceDir c) as ->.
  { rewrite Hc. unfold mergeWorkspaceDir.
    destruct (get raw "workspaceDir") as [[| | |w| |]|]; try done.
    destruct (is_empty (trim w)); [done|apply trim_idemp]. }
  destruct (is_empty (cfg_workspaceDir c)) eqn:E; [|done].
  apply is_empty_true in E. rewrite E in Hc. rewrite E.
  unfold mergeWorkspaceDir in Hc.
  destruct (get raw "workspaceDir") as [[| | |w| |]|]; try done.
  destruct (is_empty (trim w)) eqn:E'; [done|].
  apply is_empty_false in E'. by destruct E'.
Qed.

Lemma mergeRateLimit_least (raw : value) :
  250 <= rl_windowMs (mergeRateLimit raw (mkRateLimit 3000 20))
  /\ 3 <= rl_max (mergeRateLimit raw (mkRateLimit 3000 20)).
Proof.
  unfold mergeRateLimit.
  destruct (get raw "rateLimit") as [rl|]; [|cbn; lia].
  destruct (is_object rl); [|cbn; lia].
  cbn [rl_windowMs rl_max]. unfold floor_at_least.
  split; destruct (to_number _); lia.
Qed.

Lemma mergeRateLimit_encode (c : Config) (base : RateLimit) :
  250 <= rl_windowMs (cfg_rateLimit c) -> 3 <= rl_max (cfg_rateLimit c) ->
  mergeRateLimit (encode c) base = cfg_rateLimit c.
Proof.
  intros Hw Hm.
  change (mergeRateLimit (encode c) base)
    with (mkRateLimit
            (floor_at_least 250 (Fin (inject_Z (rl_windowMs (cfg_rateLimit c))))
               (rl_windowMs base))
            (floor_at_least 3 (Fin (inject_Z (rl_max (cfg_rateLimit c)))) (rl_max base))).
  unfold floor_at_least. rewrite !num_floor_inject.
  destruct (cfg_rateLimit c) as [w m]. cbn [rl_windowMs rl_max] in *. f_equal; lia.
Qed.

(** The logging block: [maxFiles] ends between 3 and 90, or at the default
    of 14. *)
Lemma mergeLogging_range (bytes : list N) (raw : value) (base : Config) :
  createDefaultConfig bytes raw = Ok base ->
  3 <= log_maxFiles (mergeLogging raw (cfg_logging base)) <= 90.
Proof.
  intros Hb. unfold mergeLogging.
  assert (forall lg, get raw "logging" = Some lg ->
            (forall q, to_number (get lg "maxFiles") <> Fin q) ->
            log_maxFiles (cfg_logging base) = 14) as Hbase.
  { intros lg Hlg Hq. destruct raw; try done; injection Hb as <-;
      cbn [cfg_logging log_maxFiles]; try done.
    cbn [get] in Hlg. rewrite Hlg. cbn [get_opt].
    destruct (get lg "maxFiles") as [[| |[q| |]| | |]|]; try done.
    by destruct (Hq q). }
  destruct (get raw "logging") as [lg|] eqn:Elg.
  - specialize (Hbase lg eq_refl).
    destruct (is_object lg) eqn:Eo.
    + cbn [log_maxFiles].
      destruct (to_number (get lg "maxFiles")) as [q| |] eqn:En; [lia| |];
        rewrite Hbase; (lia || (intros q; congruence)).
    + rewrite Hbase; [lia|]. destruct lg; done.
  - destruct raw; try done; injection Hb as <-; cbn [cfg_logging log_maxFiles];
      try done. cbn [get] in Elg. by rewrite Elg.
Qed.

Lemma mergeLogging_encode (c : Config) (base : Logging) :
  3 <= log_maxFiles (cfg_logging c) <= 90 ->
  mergeLogging (encode c) base = cfg_logging c.
Proof.
  intros H.
  change (mergeLogging (encode c) base)
    with (mkLogging
            (match Some (VBool (log_enabled (cfg_logging c))) with
             | Some (VBool false) => false
             | _ => true
             end)
            (log_dir (cfg_logging c))
            (Z.max 3 (Z.min 90 (num_floor (inject_Z (log_maxFiles (cfg_logging c))))))).
  rewrite num_floor_inject.
  destruct (cfg_logging c) as [[|] d m]; cbn [log_enabled log_dir log_maxFiles] in *;
    f_equal; lia.
Qed.

(** The [wow] block. *)
Lemma js_or_stableFolder (o : option value) (d : jsstring) : stableFolder (js_or o (VStr d)).
Proof.
  destruct o as [v|]; cbn [js_or]; [|done].
  destruct (truthy v) eqn:E; [|done]. by destruct v.
Qed.

Lemma mergeWow_stable (bytes : list N) (raw : value) (base : Config) :
  createDefaultConfig bytes raw = Ok base ->
  stableName (wow_processName (mergeWow raw (cfg_wow base)))
  /\ stableFolder (wf_addons (wow_folders (mergeWow raw (cfg_wow base))))
  /\ stableFolder (wf_logs (wow_folders (mergeWow raw (cfg_wow base))))
  /\ stableFolder (wf_wtf (wow_folders (mergeWow raw (cfg_wow base)))).
Proof.
  intros Hb.
  assert (stableName (VStr (js "WowClassic.exe"))) as Hdef by (split; [done|by intros _]).
  split.
  - destruct raw as [| | | | |fields]; try done; injection Hb as <-; try exact Hdef.
    unfold mergeWow. cbn [get cfg_wow wow_processName].
    destruct (assoc (js "wow") fields) as [[| | | | |fs]|];
      cbn [is_object get get_opt truthy_opt wow_processName];
      rewrite ?andb_false_r; try exact Hdef.
    cbn [truthy andb].
    destruct (assoc (js "processName") fs) as [[|[|]|n|s|l|o]|];
      cbn [truthy_opt truthy js_or]; try done.
    + destruct (num_truthy n) eqn:E; [exact E|done].
    + destruct (is_empty (trim s)) eqn:E.
      * destruct s as [|c r]; [done|]. cbn [is_empty negb]. split; [done|congruence].
      * split; [by apply is_empty_false|]. intros _. apply trim_idemp.
  - destruct raw as [| | | | |fields]; try done; injection Hb as <-;
      try (repeat split; exact I).
    unfold mergeWow. cbn [get cfg_wow wow_folders wf_addons wf_logs wf_wtf].
    destruct (assoc (js "wow") fields) as [w|];
      [destruct (is_object w)|]; cbn [wow_folders wf_addons wf_logs wf_wtf];
      repeat split;
      try apply js_or_stableFolder;
      match goal with
      | |- stableFolder (match ?o with Some _ => _ | None => _ end) =>
          destruct o as [[| | | | |]|]; try exact I; apply js_or_stableFolder
      end.
Qed.

Lemma createDefaultConfig_encode (bytes : list N) (c : Config) :
  exists base, createDefaultConfig bytes (encode c) = Ok base
    /\ cfg_host base = js "0.0.0.0" /\ cfg_port base = 8787
    /\ cfg_workspaceDir base = cwd
    /\ wow_processName (cfg_wow base)
       = (if truthy (wow_processName (cfg_wow c))
          then js_or (Some (wow_processName (cfg_wow c))) VNull
          else VStr (js "WowClassic.exe"))
    /\ exists da dl dt,
         wow_folders (cfg_wow base)
         = mkWowFolders (js_or (Some (wf_addons (wow_folders (cfg_wow c)))) da)
             (js_or (Some (wf_logs (wow_folders (cfg_wow c)))) dl)
             (js_or (Some (wf_wtf (wow_folders (cfg_wow c)))) dt).
Proof.
  eexists. split; [reflexivity|]. repeat split. by eexists _, _, _.
Qed.

Lemma mergeWow_encode (c : Config) (base : Wow) :
  stableName (wow_processName (cfg_wow c)) ->
  stableFolder (wf_addons (wow_folders (cfg_wow c))) ->
  stableFolder (wf_logs (wow_folders (cfg_wow c))) ->
  stableFolder (wf_wtf (wow_folders (cfg_wow c))) ->
  wow_processName base
  = (if truthy (wow_processName (cfg_wow c))
     then js_or (Some (wow_processName (cfg_wow c))) VNull
     else VStr (js "WowClassic.exe")) ->
  (exists da dl dt,
     wow_folders base
     = mkWowFolders (js_or (Some (wf_addons (wow_folders (cfg_wow c)))) da)
         (js_or (Some (wf_logs (wow_folders (cfg_wow c)))) dl)
         (js_or (Some (wf_wtf (wow_folders (cfg_wow c)))) dt)) ->
  mergeWow (encode c) base = cfg_wow c.
Proof.
  intros Hn Ha Hl Ht Hbn (da & dl & dt & Hbf).
  change (mergeWow (encode c) base)
    with (mkWow
            (match Some (wow_processName (cfg_wow c)) with
             | Some (VStr name) =>
                 if is_empty (trim name) then wow_processName base else VStr (trim name)
             | _ => wow_processName base
             end)
            (mkWowFolders
               (match Some (wf_addons (wow_folders (cfg_wow c))) with
                | Some (VStr f) => VStr f
                | _ => wf_addons (wow_folders base)
                end)
               (match Some (wf_logs (wow_folders (cfg_wow c))) with
                | Some (VStr f) => VStr f
                | _ => wf_logs (wow_folders base)
                end)
               (match Some (wf_wtf (wow_folders (cfg_wow c))) with
                | Some (VStr f) => VStr f
                | _ => wf_wtf (wow_folders base)
                end))).
  rewrite Hbn, Hbf. cbn [wf_addons wf_logs wf_wtf].
  destruct (cfg_wow c) as [pn [a l t]].
  cbn [wow_processName wow_folders wf_addons wf_logs wf_wtf] in *.
  f_equal; [|f_equal].
  - destruct pn as [| | |s| |]; cbn [stableName] in Hn; cbn [js_or]; try by rewrite Hn.
    destruct Hn as [Hs Htrim]. apply is_empty_false in Hs.
    cbn [truthy]. rewrite Hs. cbn [negb].
    destruct (is_empty (trim s)); [done|]. by rewrite Htrim.
  - destruct a; cbn [stableFolder] in Ha; cbn [js_or]; try done; by rewrite Ha.
  - destruct l; cbn [stableFolder] in Hl; cbn [js_or]; try done; by rewrite Hl.
  - destruct t; cbn [stableFolder] in Ht; cbn [js_or]; try done; by rewrite Ht.
Qed.

(** Profiles: what [normalizeProfiles] returns is made of trimmed, non-empty
    ids and labels, and it reads such profiles back as they are. *)
Lemma normalizePage_encode (x : Page) : normalPage x -> normalizePage (encode_page x) = Ok x.
Proof.
  intros [[Hi _] [Hl _]].
  change (normalizePage (encode_page x))
    with (Ok (mkPage (trim (str_or_empty (Some (VStr (page_id x)))))
                (trim (str_or_empty (Some (VStr (page_label x))))))).
  rewrite !str_or_empty_str, Hi, Hl. by destruct x.
Qed.

Lemma mapM_normalizePage_encode (l : list Page) :
  Forall normalPage l -> mapM normalizePage (encode_page <$> l) = Ok l.
Proof.
  induction 1 as [|x r Hx Hr IH]; [done|].
  cbn [fmap list_fmap mapM]. rewrite normalizePage_encode by done. cbn [bind].
  fold (encode_page <$> r). by rewrite IH.
Qed.

Lemma filter_page_ok (l : list Page) : Forall normalPage l -> List.filter page_ok l = l.
Proof.
  induction 1 as [|x r [[_ Hi] [_ Hl]] Hr IH]; [done|].
  apply is_empty_false in Hi, Hl.
  assert (page_ok x = true) as Hx by (unfold page_ok; by rewrite Hi, Hl).
  simpl. by rewrite Hx, IH.
Qed.

Lemma normalizeProfile_encode (q : Profile) :
  normalProfile q -> normalizeProfile (encode_profile q) = Ok (Some q).
Proof.
  intros ([Hi Hin] & [Hl Hln] & Hne & Hp).
  unfold normalizeProfile.
  change (is_object (encode_profile q)) with true.
  change (get (encode_profile q) "id") with (Some (VStr (profile_id q))).
  change (get (encode_profile q) "label") with (Some (VStr (profile_label q))).
  change (get (encode_profile q) "pages") with (Some (VArr (encode_page <$> profile_pages q))).
  cbv zeta. cbn [negb]. rewrite !str_or_empty_str, Hi, Hl.
  apply is_empty_false in Hin, Hln. rewrite Hin, Hln. cbn [orb].
  destruct q as [id label [|x r]]; [done|]. cbn [profile_pages] in *.
  change (encode_page <$> x :: r) with (encode_page x :: (encode_page <$> r)).
  change (encode_page x :: (encode_page <$> r)) with (encode_page <$> x :: r).
  cbn [fmap list_fmap]. fold (encode_page <$> r).
  change (encode_page x :: (encode_page <$> r)) with (encode_page <$> x :: r).
  rewrite mapM_normalizePage_encode by done. cbn [bind].
  by rewrite filter_page_ok.
Qed.

Lemma normalizeProfiles_loop_encode (l : list Profile) :
  Forall normalProfile l -> normalizeProfiles_loop (encode_profile <$> l) = Ok l.
Proof.
  induction 1 as [|q r Hq Hr IH]; [done|].
  cbn [fmap list_fmap normalizeProfiles_loop]. rewrite normalizeProfile_encode by done.
  cbn [bind]. fold (encode_profile <$> r). by rewrite IH.
Qed.

Lemma normalizeProfiles_encode (l : list Profile) :
  l <> [] -> Forall normalProfile l ->
  normalizeProfiles (Some (VArr (encode_profile <$> l))) = Ok l.
Proof.
  intros Hne Hl. destruct l as [|q r]; [done|].
  unfold normalizeProfiles. cbn [fmap list_fmap]. fold (encode_profile <$> r).
  change (encode_profile q :: (encode_profile <$> r)) with (encode_profile <$> q :: r).
  by rewrite normalizeProfiles_loop_encode.
Qed.

Lemma mapM_normalizePage_normal (l : list value) (mapped : list Page) :
  mapM normalizePage l = Ok mapped -> Forall normalPage (List.filter page_ok mapped).
Proof.
  intros H. apply mapM_normalizePage in H. subst mapped.
  apply List.Forall_forall. intros x Hx. apply filter_In in Hx as [Hin Hok].
  apply in_map_iff in Hin as (v & <- & _).
  unfold page_ok in Hok. cbn [page_id page_label] in Hok.
  apply andb_prop in Hok as [H1 H2].
  apply negb_true_iff, is_empty_false in H1, H2.
  split; (split; [apply trim_idemp|done]).
Qed.

Lemma mainPage_normal : normalPage mainPage.
Proof. by repeat split. Qed.

Lemma normalizeProfile_normal (p : value) (q : Profile) :
  normalizeProfile p = Ok (Some q) -> normalProfile q.
Proof.
  unfold normalizeProfile.
  destruct (is_object p); cbn [negb]; [|done]. cbv zeta.
  destruct (is_empty (trim (str_or_empty (get p "id")))) eqn:Ei; [done|].
  destruct (is_empty (trim (str_or_empty (get p "label")))) eqn:El; [done|].
  cbn [orb]. apply is_empty_false in Ei, El.
  assert (forall pages, Forall normalPage pages ->
            normalProfile (mkProfile (trim (str_or_empty (get p "id")))
                             (trim (str_or_empty (get p "label")))
                             (if is_empty_list pages then [mainPage] else pages))) as K.
  { intros pages Hp. split; [|split; [|split]]; cbn [profile_id profile_label profile_pages].
    - split; [apply trim_idemp|done].
    - split; [apply trim_idemp|done].
    - by destruct pages.
    - destruct pages; [|done]. constructor; [apply mainPage_normal|constructor]. }
  assert (Forall normalPage [mainPage]) as Hmain
    by (constructor; [apply mainPage_normal|constructor]).
  destruct (get p "pages") as [[| | | |[|x r]|]|]; cbn [bind];
    try (intros [= <-]; exact (K [mainPage] Hmain)).
  destruct (mapM normalizePage (x :: r)) as [mapped|] eqn:Em; [|done].
  cbn [bind]. intros [= <-].
  exact (K (List.filter page_ok mapped) (mapM_normalizePage_normal _ _ Em)).
Qed.

Lemma normalizeProfiles_loop_normal (l : list value) (out : list Profile) :
  normalizeProfiles_loop l = Ok out -> Forall normalProfile out.
Proof.
  revert out. induction l as [|p r IH]; intros out; cbn [normalizeProfiles_loop].
  - intros [= <-]. constructor.
  - destruct (normalizeProfile p) as [o|] eqn:Ep; [|done]. cbn [bind].
    destruct (normalizeProfiles_loop r) as [out'|]; [|done]. cbn [bind].
    intros [= <-]. specialize (IH _ eq_refl).
    destruct o as [q|]; [|done]. constructor; [|done]. by eapply normalizeProfile_normal.
Qed.

Lemma getDefaultProfiles_normal : Forall normalProfile getDefaultProfiles.
Proof.
  unfold getDefaultProfiles.
  repeat (constructor; [repeat split; try done; repeat (constructor; [by repeat split|])|]);
    constructor.
Qed.

Lemma normalizeProfiles_normal (input : option value) (out : list Profile) :
  normalizeProfiles input = Ok out -> out <> [] /\ Forall normalProfile out.
Proof.
  assert (getDefaultProfiles <> [] /\ Forall normalProfile getDefaultProfiles) as Hdef
    by (split; [done|apply getDefaultProfiles_normal]).
  unfold normalizeProfiles.
  destruct input as [[| | | |[|p r]|]|]; try (by intros [= <-]).
  destruct (normalizeProfiles_loop (p :: r)) as [o|] eqn:E; [|done]. cbn [bind].
  intros [= <-]. destruct o as [|q o]; [done|]. cbn [is_empty_list].
  split; [done|]. by eapply normalizeProfiles_loop_normal.
Qed.

(** Launchers: the launchers of a configuration are merged without a
    throw. *)
Lemma mergeLaunchers_encode (l : list (jsstring * Launcher)) :
  forall merged, exists m,
    mergeLaunchers (prod_map (fun k => k) encode_launcher <$> l) merged = Ok m.
Proof.
  induction l as [|[k x] r IH]; intros merged; [by eexists|].
  cbn [fmap list_fmap mergeLaunchers]. fold (prod_map (fun k => k) encode_launcher <$> r).
  destruct (mergeLauncher merged (prod_map (fun k => k) encode_launcher (k, x)))
    as [m|e] eqn:E; cbn [bind]; [apply IH|].
  exfalso. revert E. unfold mergeLauncher, prod_map. cbn [fst snd].
  change (is_object (encode_launcher x)) with true.
  change (get (encode_launcher x) "candidates")
    with (Some (VArr (VStr <$> launcher_candidates x))).
  cbn [negb spread_or_empty truthy bind]. discriminate.
Qed.

Lemma mergeAllLaunchers_encode (c : Config) (base : gmap jsstring Launcher) :
  exists m, mergeAllLaunchers (encode c) base = Ok m.
Proof.
  change (mergeAllLaunchers (encode c) base)
    with (mergeLaunchers
            (prod_map (fun k => k) encode_launcher <$> map_to_list (cfg_launchers c)) base).
  apply mergeLaunchers_encode.
Qed.

(** Tiles: the validator completes a built-in tile and maps the completed
    tile to itself. *)
Lemma normalizeTile_builtin (d : Tile) :
  In d getDefaultTiles ->
  normalizeTile (encode_tile d) = Some (completeTile d)
  /\ normalizeTile (encode_tile (completeTile d)) = Some (completeTile d)
  /\ completeTile d <> d.
Proof.
  intros Hd. cbn in Hd.
  repeat (destruct Hd as [<-|Hd];
          [split; [vm_compute; reflexivity|split; [vm_compute; reflexivity|discriminate]]|]).
  by destruct Hd.
Qed.

Lemma builtin_ids_NoDup : NoDup (tile_id <$> getDefaultTiles).
Proof. apply (bool_decide_unpack _). by vm_compute. Qed.

Lemma byId_set_here (t : Tile) (m : list Tile) : In t (byId_set t m).
Proof.
  induction m as [|x r IH]; cbn [byId_set]; [by left|].
  destruct (str_eqb (tile_id x) (tile_id t)); [by left|by right].
Qed.

Lemma byId_set_keeps (t u : Tile) (m : list Tile) :
  In t m -> tile_id u <> tile_id t -> In t (byId_set u m).
Proof.
  intros Hin Hne. induction m as [|x r IH]; [done|]. cbn [byId_set].
  destruct (str_eqb (tile_id x) (tile_id u)) eqn:E.
  - destruct Hin as [->|Hin]; [|by right].
    apply str_eqb_eq in E. by destruct Hne.
  - destruct Hin as [->|Hin]; [by left|right; by apply IH].
Qed.

Lemma collectTiles_keeps (input : list value) (byId : list Tile) (t : Tile) :
  In t byId ->
  (forall r u, In r input -> normalizeTile r = Some u -> tile_id u <> tile_id t) ->
  In t (collectTiles input byId).
Proof.
  revert byId. induction input as [|r rest IH]; intros byId Hin Hne; [done|].
  cbn [collectTiles fold_left]. apply IH.
  - destruct (normalizeTile r) as [u|] eqn:E; [|done].
    apply byId_set_keeps; [done|]. by apply (Hne r u); [left|].
  - intros r' u Hr. apply Hne. by right.
Qed.

Lemma collectTiles_app (l1 l2 : list value) (byId : list Tile) :
  collectTiles (l1 ++ l2) byId = collectTiles l2 (collectTiles l1 byId).
Proof. apply fold_left_app. Qed.

(** [ensureBuiltinTiles] appends the built-in tiles it adds, in the order of
    [getDefaultTiles]. *)
Lemma appendBuiltins_shape (defs byId : list Tile) :
  exists added, appendBuiltins defs byId = byId ++ added /\ sublist added defs.
Proof.
  revert byId. induction defs as [|d rest IH]; intros byId.
  - exists []. split; [by rewrite app_nil_r|constructor].
  - cbn [appendBuiltins fold_left].
    fold (appendBuiltins rest (if byId_has (tile_id d) byId then byId else byId_set d byId)).
    destruct (byId_has (tile_id d) byId) eqn:E.
    + destruct (IH byId) as (added & -> & Hs). exists added. split; [done|by constructor].
    + rewrite byId_set_absent by done.
      destruct (IH (byId ++ [d])) as (added & -> & Hs). exists (d :: added).
      split; [by rewrite <- app_assoc|by constructor].
Qed.

Lemma collectTiles_builtins (added : list Tile) :
  sublist added getDefaultTiles ->
  forall byId d, In d added ->
    In (completeTile d) (collectTiles (encode_tile <$> added) byId).
Proof.
  intros Hsub.
  assert (NoDup added) as Hnd.
  { eapply sublist_NoDup; [|exact Hsub]. eapply NoDup_fmap_1, builtin_ids_NoDup. }
  assert (forall a, In a added -> In a getDefaultTiles) as Hdef.
  { intros a Ha. apply list_elem_of_In. eapply elem_of_sublist; [|exact Hsub].
    by apply list_elem_of_In. }
  clear Hsub. induction added as [|a rest IH]; intros byId d Hd; [done|].
  apply NoDup_cons in Hnd as [Ha Hnd].
  cbn [fmap list_fmap collectTiles fold_left]. fold (encode_tile <$> rest).
  destruct (normalizeTile_builtin a) as (-> & _); [apply Hdef; by left|].
  fold (collectTiles (encode_tile <$> rest) (byId_set (completeTile a) byId)).
  destruct Hd as [<-|Hd].
  - apply collectTiles_keeps; [apply byId_set_here|].
    intros r u Hr Hu E. apply list_elem_of_In, list_elem_of_fmap in Hr as (a' & -> & Ha').
    destruct (normalizeTile_builtin a') as (Hn & _).
    { apply Hdef. right. by apply list_elem_of_In. }
    rewrite Hn in Hu. injection Hu as <-. cbn [completeTile tile_id] in E.
    apply Ha. erewrite <- (builtin_id_unique a a'); [done| | |done].
    + apply Hdef. by left.
    + apply Hdef. right. by apply list_elem_of_In.
  - apply IH; [done| |done]. intros a' Ha'. apply Hdef. by right.
Qed.

Lemma createDefaultConfig_fields (bytes : list N) (raw : value) (base : Config) :
  createDefaultConfig bytes raw = Ok base ->
  cfg_host base = js "0.0.0.0" /\ cfg_port base = 8787
  /\ cfg_token base = randomToken bytes /\ cfg_workspaceDir base = cwd
  /\ cfg_rateLimit base = mkRateLimit 3000 20.
Proof. destruct raw; try done; by intros [= <-]. Qed.

Lemma mergeWithDefaults_Ok (bytes : list N) (raw : value) (base : Config)
    (launchers : gmap jsstring Launcher) (profiles : list Profile) :
  createDefaultConfig bytes raw = Ok base ->
  mergeAllLaunchers raw (cfg_launchers base) = Ok launchers ->
  normalizeProfiles (get raw "profiles") = Ok profiles ->
  exists y, mergeWithDefaults bytes raw = Ok y.
Proof.
  intros Hb Hl Hp. unfold mergeWithDefaults, mergeAllLaunchers in *.
  rewrite !get_cfg, Hb. cbn [bind]. rewrite Hl. cbn [bind]. rewrite Hp. cbn [bind].
  by eexists.
Qed.

Lemma rawTiles_encode (c : Config) : rawTiles (encode c) = encode_tile <$> cfg_tiles c.
Proof. reflexivity. Qed.

(** The tiles of a second merge hold every built-in tile the first one
    appended, completed. *)
Lemma ensureBuiltinTiles_second (raw : value) (c : Config) (d : Tile) :
  cfg_tiles c = ensureBuiltinTiles (get raw "tiles") ->
  In d getDefaultTiles -> tilesMissing raw (tile_id d) ->
  In (completeTile d) (ensureBuiltinTiles (get (encode c) "tiles")).
Proof.
  intros Ht Hd Hmiss.
  destruct (ensureBuiltinTiles_missing raw d Hd Hmiss) as [Hin _].
  rewrite ensureBuiltinTiles_loops in Ht, Hin.
  destruct (appendBuiltins_shape getDefaultTiles (collectTiles (rawTiles raw) []))
    as (added & Hshape & Hsub).
  rewrite Hshape in Ht, Hin.
  assert (In d added) as Hadded.
  { apply in_app_or in Hin as [Hin|Hin]; [|done].
    apply collectTiles_In in Hin as [[]|(r & Hr & Hn)]. by destruct (Hmiss r d Hr Hn). }
  rewrite ensureBuiltinTiles_loops, rawTiles_encode, Ht, fmap_app, collectTiles_app.
  apply appendBuiltins_spec. by apply collectTiles_builtins.
Qed.

(** C3, as the code has it.  When [mergeWithDefaults(x)] returns [y], with
    at least 12 random bytes for the token and a working directory without
    surrounding white space, [mergeWithDefaults(y)] returns a configuration
    with the host, port, token, workspace directory, rate limit, [wow] block,
    logging block and profiles of [y].  The tiles differ: a built-in tile
    that the tiles of [x] are missing is in [y] as the literal of
    [getDefaultTiles] and in the second result as that literal completed
    with [showIf] and [iconData], which is another tile and which the
    validator maps to itself.  When [x] has no tiles, the second result holds
    the completed built-in tiles and a third merge returns the same tiles. *)
Theorem mergeWithDefaults_second_pass (bytes bytes' : list N) (raw : value) (y : Config) :
  trim cwd = cwd ->
  (12 <= length bytes)%nat ->
  mergeWithDefaults bytes raw = Ok y ->
  exists y', mergeWithDefaults bytes' (encode y) = Ok y'
    /\ cfg_host y' = cfg_host y /\ cfg_port y' = cfg_port y
    /\ cfg_token y' = cfg_token y /\ cfg_workspaceDir y' = cfg_workspaceDir y
    /\ cfg_rateLimit y' = cfg_rateLimit y /\ cfg_wow y' = cfg_wow y
    /\ cfg_logging y' = cfg_logging y /\ cfg_profiles y' = cfg_profiles y
    /\ (forall d, In d getDefaultTiles -> tilesMissing raw (tile_id d) ->
          In d (cfg_tiles y) /\ In (completeTile d) (cfg_tiles y')
          /\ completeTile d <> d
          /\ normalizeTile (encode_tile (completeTile d)) = Some (completeTile d))
    /\ (rawTiles raw = [] ->
          cfg_tiles y = getDefaultTiles
          /\ cfg_tiles y' = completeTile <$> getDefaultTiles
          /\ forall bytes'' y'', mergeWithDefaults bytes'' (encode y') = Ok y'' ->
               cfg_tiles y'' = cfg_tiles y').
Proof.
  intros Hcwd Hbytes Hm.
  apply mergeWithDefaults_inv in Hm
    as (base & launchers & Hb & Hl & Hp & Ht & Hhost & Hport & Htok & Hwd & Hrl & Hwow
        & Hlog & _).
  destruct (createDefaultConfig_fields _ _ _ Hb) as (Bh & Bp & Bt & Bw & Br).
  rewrite Bh in Hhost. rewrite Bp in Hport. rewrite Bt in Htok. rewrite Bw in Hwd.
  rewrite Br in Hrl.
  (* the second merge returns *)
  destruct (createDefaultConfig_encode bytes' y) as (base2 & Hb2 & Hh2 & Hp2 & Hw2 & Hn2 & Hf2).
  destruct (mergeAllLaunchers_encode y (cfg_launchers base2)) as [launchers2 Hl2].
  destruct (normalizeProfiles_normal _ _ Hp) as [Hne Hnormal].
  assert (normalizeProfiles (get (encode y) "profiles") = Ok (cfg_profiles y)) as Hprofiles.
  { destruct (get_encode y) as (_ & _ & _ & _ & -> & _). by apply normalizeProfiles_encode. }
  destruct (mergeWithDefaults_Ok bytes' (encode y) base2 launchers2 _ Hb2 Hl2 Hprofiles)
    as [y' Hm'].
  exists y'. split; [exact Hm'|].
  apply mergeWithDefaults_inv in Hm'
    as (base2' & launchers2' & Hb2' & _ & Hp' & Ht' & Hhost' & Hport' & Htok' & Hwd' & Hrl'
        & Hwow' & Hlog' & _).
  rewrite Hb2 in Hb2'. injection Hb2' as <-.
  rewrite Hw2 in Hwd'.
  split; [|split; [|split; [|split; [|split; [|split; [|split; [|split; [|split]]]]]]]].
  - rewrite Hhost'. apply mergeHost_encode. rewrite Hhost. by apply mergeHost_trimmed.
  - rewrite Hport'. apply mergePort_encode. rewrite Hport. apply mergePort_range.
  - rewrite Htok'. apply mergeToken_encode. rewrite Htok. apply mergeToken_long.
    unfold len. rewrite randomToken_length. lia.
  - rewrite Hwd'. by apply (mergeWorkspaceDir_encode raw).
  - rewrite Hrl'. destruct (mergeRateLimit_least raw) as [L1 L2].
    rewrite <- Hrl in L1, L2. by apply mergeRateLimit_encode.
  - rewrite Hwow'. destruct (mergeWow_stable _ _ _ Hb) as (S1 & S2 & S3 & S4).
    rewrite <- Hwow in S1, S2, S3, S4. by apply mergeWow_encode.
  - rewrite Hlog'. apply mergeLogging_encode. rewrite Hlog. by eapply mergeLogging_range.
  - rewrite Hprofiles in Hp'. by injection Hp'.
  - intros d Hd Hmiss.
    destruct (ensureBuiltinTiles_missing raw d Hd Hmiss) as [Hin _].
    destruct (normalizeTile_builtin d Hd) as (_ & Hfix & Hne').
    rewrite Ht, Ht'. split; [exact Hin|]. split; [|split; [exact Hne'|exact Hfix]].
    by apply (ensureBuiltinTiles_second raw).
  - intros Hnone.
    assert (cfg_tiles y = getDefaultTiles) as Hy.
    { rewrite Ht, ensureBuiltinTiles_loops, Hnone. reflexivity. }
    assert (cfg_tiles y' = completeTile <$> getDefaultTiles) as Hy'.
    { rewrite Ht', ensureBuiltinTiles_loops, rawTiles_encode, Hy. vm_compute. reflexivity. }
    split; [done|]. split; [done|].
    intros bytes'' y'' Hm''.
    apply mergeWithDefaults_inv in Hm'' as (_ & _ & _ & _ & _ & -> & _).
    rewrite ensureBuiltinTiles_loops, rawTiles_encode, Hy'. vm_compute. reflexivity.
Qed.

(** *** Rate limiting *)

Lemma rateWindow_min (cfg : Config) : 250 <= rateWindow cfg.
Proof. unfold rateWindow, setting_at_least. lia. Qed.

(** What [rateLimit] does to the entry of the requesting client. *)
Lemma rateLimit_own (cfg : Config) (now : Z) (req : Request) (adm : Admission) :
  let e0 := default (mkRateEntry now 0) (rateState adm !! clientIp req) in
  let e1 := if now - t0 e0 >? rateWindow cfg then mkRateEntry now 0 else e0 in
  rateState (rateLimit cfg now req adm).1 !! clientIp req
  = Some (mkRateEntry (t0 e1) (n e1 + 1))
  /\ (rateLimit cfg now req adm).2
     = if n e1 + 1 >? rateMax cfg then rateLimited req else Next.
Proof.
  intros e0 e1. split; [|reflexivity].
  unfold rateLimit. fold (rateWindow cfg) (rateMax cfg). fold e0. fold e1.
  cbn [fst t0 n].
  match goal with |- context [if ?c then _ else _] =>
    destruct c; cbn [rateState] end; [|by rewrite lookup_insert_eq].
  apply map_lookup_filter_Some. split; [by rewrite lookup_insert_eq|].
  cbn [snd t0]. pose proof (rateWindow_min cfg). subst e1.
  destruct (now - t0 e0 >? rateWindow cfg) eqn:E; cbn [t0]; lia.
Qed.

(** What it does to the entry of another client: nothing, unless a sweep
    removes an entry older than four windows. *)
Lemma rateLimit_other (cfg : Config) (now : Z) (req : Request) (adm : Admission)
    (ip : jsstring) :
  ip <> clientIp req ->
  (rateState (rateLimit cfg now req adm).1 !! ip = rateState adm !! ip
   \/ rateState (rateLimit cfg now req adm).1 !! ip = None)
  /\ forall e, rateState adm !! ip = Some e -> now - t0 e <= 4 * rateWindow cfg ->
       rateState (rateLimit cfg now req adm).1 !! ip = Some e.
Proof.
  intros Hne. unfold rateLimit. fold (rateWindow cfg) (rateMax cfg). cbn [fst].
  match goal with |- context [if ?c then mkAdmission _ _ else _] =>
    destruct c; cbn [rateState] end.
  - split.
    + destruct (filter _ _ !! ip) as [e|] eqn:E; [|by right]. left.
      apply map_lookup_filter_Some in E as [E _].
      by rewrite lookup_insert_ne in E.
    + intros e He Ht. apply map_lookup_filter_Some. split.
      * by rewrite lookup_insert_ne.
      * cbn [snd]. lia.
  - rewrite lookup_insert_ne by done. split; [by left|done].
Qed.

Lemma serve_window (cfg : Config) (ip : jsstring) (t1 : Z) (window : list (Z * Request)) :
  forall (adm : Admission) (k : Z),
    rateState adm !! ip = Some (mkRateEntry t1 k) ->
    Forall (fun e => e.1 - t1 <= rateWindow cfg) window ->
    (exists k', rateState (serve cfg window adm).1 !! ip = Some (mkRateEntry t1 k'))
    /\ forall j rq o, mine ip window (serve cfg window adm).2 !! j = Some (rq, o) ->
         o = if k + Z.of_nat j + 1 >? rateMax cfg then rateLimited rq else Next.
Proof.
  induction window as [|[t rq] rest IH]; intros adm k Hk Hw; cbn [serve].
  - split; [by exists k|]. by intros j rq o.
  - apply Forall_cons in Hw as [Ht Hw]. cbn [fst snd] in *.
    destruct (rateLimit cfg t rq adm) as [adm1 o1] eqn:E1.
    destruct (serve cfg rest adm1) as [adm2 os] eqn:E2.
    cbn [fst snd mine].
    pose proof (rateWindow_min cfg) as HW.
    destruct (str_eqb (clientIp rq) ip) eqn:Eip.
    + apply str_eqb_eq in Eip. subst ip.
      destruct (rateLimit_own cfg t rq adm) as [Hown Hout].
      rewrite E1, Hk in Hown, Hout. cbn [fst snd default from_option id t0 n] in Hown, Hout.
      replace (t - t1 >? rateWindow cfg) with false in Hown, Hout by lia.
      cbn [t0 n] in Hown, Hout.
      destruct (IH adm1 (k + 1) Hown Hw) as [Hk' Hrest].
      rewrite E2 in Hk', Hrest. cbn [fst snd] in Hk', Hrest.
      split; [done|]. intros [|j] rq' o; cbn.
      * intros [= <- <-]. rewrite Hout. by replace (k + Z.of_nat 0 + 1) with (k + 1) by lia.
      * intros Hj. rewrite (Hrest _ _ _ Hj).
        by replace (k + 1 + Z.of_nat j + 1) with (k + Z.of_nat (S j) + 1) by lia.
    + apply str_eqb_neq in Eip.
      destruct (rateLimit_other cfg t rq adm ip) as [_ Hkeep]; [done|].
      specialize (Hkeep _ Hk). rewrite E1 in Hkeep. cbn [fst t0] in Hkeep.
      destruct (IH adm1 k (Hkeep ltac:(lia)) Hw) as [Hk' Hrest].
      rewrite E2 in Hk', Hrest. by split.
Qed.

Lemma serve_others (cfg : Config) (ip : jsstring) (e : RateEntry) (others : list (Z * Request)) :
  forall adm : Admission,
    Forall (fun x => clientIp x.2 <> ip) others ->
    rateState adm !! ip = None \/ rateState adm !! ip = Some e ->
    rateState (serve cfg others adm).1 !! ip = None
    \/ rateState (serve cfg others adm).1 !! ip = Some e.
Proof.
  induction others as [|[t rq] rest IH]; intros adm Ho Hadm; cbn [serve]; [done|].
  apply Forall_cons in Ho as [Hne Ho]. cbn [snd fst] in *.
  destruct (rateLimit cfg t rq adm) as [adm1 o1] eqn:E1.
  destruct (serve cfg rest adm1) as [adm2 os] eqn:E2. cbn [fst].
  specialize (IH adm1 Ho). rewrite E2 in IH. apply IH.
  destruct (rateLimit_other cfg t rq adm ip) as [[H|H] _]; [done| |];
    rewrite E1 in H; cbn [fst] in H; rewrite H; [done|by left].
Qed.

(** C4, as the code has it.  With [rateLimit = {windowMs: 1000, max: 5}] and
    a client that starts with no budget in use: among any requests that
    reach the limiter within 1000 ms of the client's first one, whoever
    sends them, the client's first five pass and each later one is answered
    429; that response carries no [Retry-After] header; and once the window
    is over, whatever other clients did meanwhile, the client's next request
    passes and its counter restarts at one. *)
Theorem rate_limit_boundary (cfg : Config) (ip : jsstring) (adm : Admission)
    (first last : Request) (window others : list (Z * Request)) (t1 t7 : Z) :
  rl_windowMs (cfg_rateLimit cfg) = 1000 ->
  rl_max (cfg_rateLimit cfg) = 5 ->
  clientIp first = ip ->
  clientIp last = ip ->
  fresh cfg adm ip t1 ->
  Forall (fun e => e.1 - t1 <= 1000) window ->
  Forall (fun e => clientIp e.2 <> ip) others ->
  t7 - t1 > 1000 ->
  let r1 := serve cfg ((t1, first) :: window) adm in
  let r2 := serve cfg others r1.1 in
  let r3 := rateLimit cfg t7 last r2.1 in
  (forall j rq o, mine ip ((t1, first) :: window) r1.2 !! j = Some (rq, o) ->
     o = if (j <? 5)%nat then Next else rateLimited rq)
  /\ (forall rq, header_get "Retry-After" (res_headers (json_error rq 429 "rate limited")) = None)
  /\ r3.2 = Next
  /\ rateState r3.1 !! ip = Some (mkRateEntry t7 1).
Proof.
  intros Hw Hm Hfirst Hlast Hfresh Hwin Hoth Ht7 r1 r2 r3.
  assert (rateWindow cfg = 1000) as HW by (unfold rateWindow, setting_at_least; rewrite Hw; done).
  assert (rateMax cfg = 5) as HM by (unfold rateMax, setting_at_least; rewrite Hm; done).
  (* the first request *)
  destruct (rateLimit_own cfg t1 first adm) as [Hown Hout]. rewrite Hfirst in Hown.
  assert ((if t1 - t0 (default (mkRateEntry t1 0) (rateState adm !! ip)) >? rateWindow cfg
           then mkRateEntry t1 0
           else default (mkRateEntry t1 0) (rateState adm !! ip)) = mkRateEntry t1 0) as He1.
  { destruct (rateState adm !! ip) as [e|] eqn:Ee; cbn [default from_option id t0].
    - specialize (Hfresh e Ee). by replace (t1 - t0 e >? rateWindow cfg) with true by lia.
    - by replace (t1 - t1 >? rateWindow cfg) with false by lia. }
  rewrite Hfirst in Hout. rewrite He1 in Hown, Hout. cbn [t0 n] in Hown, Hout.
  rewrite HM in Hout. replace (0 + 1 >? 5) with false in Hout by done.
  subst r1 r2 r3. cbn [serve fst snd].
  destruct (rateLimit cfg t1 first adm) as [adm1 o1] eqn:E1. cbn [fst snd] in Hown, Hout.
  destruct (serve_window cfg ip t1 window adm1 1 Hown) as [[k' Hk'] Hrest].
  { by rewrite HW. }
  destruct (serve cfg window adm1) as [adm2 os] eqn:E2. cbn [fst snd] in *.
  split; [|split; [done|]].
  - cbn [mine fst snd]. rewrite Hfirst, str_eqb_refl.
    intros [|j] rq o; cbn [lookup list_lookup].
    + intros [= <- <-]. exact Hout.
    + intros Hj. rewrite (Hrest _ _ _ Hj), HM.
      destruct (S j <? 5)%nat eqn:Ej.
      * apply Nat.ltb_lt in Ej. by replace (1 + Z.of_nat j + 1 >? 5) with false by lia.
      * apply Nat.ltb_ge in Ej. by replace (1 + Z.of_nat j + 1 >? 5) with true by lia.
  - destruct (rateLimit_own cfg t7 last (serve cfg others adm2).1) as [Hown7 Hout7].
    rewrite Hlast in Hown7, Hout7.
    assert ((if t7 - t0 (default (mkRateEntry t7 0)
                           (rateState (serve cfg others adm2).1 !! ip)) >? rateWindow cfg
             then mkRateEntry t7 0
             else default (mkRateEntry t7 0) (rateState (serve cfg others adm2).1 !! ip))
            = mkRateEntry t7 0) as He7.
    { destruct (serve_others cfg ip (mkRateEntry t1 k') others adm2 Hoth (or_intror Hk'))
        as [H|H]; rewrite H; cbn [default from_option id t0].
      - by replace (t7 - t7 >? rateWindow cfg) with false by lia.
      - by replace (t7 - t1 >? rateWindow cfg) with true by lia. }
    rewrite He7 in Hown7, Hout7. cbn [t0 n] in Hown7, Hout7.
    rewrite HM in Hout7. by split.
Qed.

(** *** Admission order *)

(** C10.  On every route the token check runs before the rate limiter: a
    request that [requireToken] refuses is answered 401, with the message
    for a missing or a mismatching token, and the state of the server, the
    rate-limit table included, is what it was; a request that passes the
    check has its client's counter advanced by one, from zero when its
    window is new. *)
Theorem token_check_precedes_rate_limit (handler : Handler) (now : Z) (req : Request)
    (st : ServerState) :
  (forall r, requireToken (config st) req = Respond r ->
     route handler now req st = (st, r)
     /\ res_status r = 401
     /\ (r = json_error req 401 "unauthorized: missing token"
         \/ r = json_error req 401 "unauthorized: token mismatch"))
  /\ (requireToken (config st) req = Next ->
      let e0 := default (mkRateEntry now 0) (rateState (admission st) !! clientIp req) in
      let e1 := if now - t0 e0 >? rateWindow (config st) then mkRateEntry now 0 else e0 in
      rateState (admission (route handler now req st).1) !! clientIp req
      = Some (mkRateEntry (t0 e1) (n e1 + 1))).
Proof.
  split.
  - intros r Hr. unfold route. rewrite Hr. split; [done|].
    unfold requireToken in Hr.
    destruct (is_empty (readToken req)); [injection Hr as <-; split; [done|by left]|].
    destruct (negb (secureEqualText _ _)); [|done].
    injection Hr as <-. split; [done|by right].
  - intros Hn e0 e1. unfold route. rewrite Hn.
    destruct (rateLimit_own (config st) now req (admission st)) as [Hown _].
    destruct (rateLimit (config st) now req (admission st)) as [adm o].
    cbn [fst] in Hown. destruct o; [|done].
    by destruct (handler (config st) req).
Qed.

(** C5, as the code has it.  [requireToken] cleans what the request supplies
    before it compares: the [x-token] header, or the [token] query parameter
    when it is a string and the header cleans to nothing, goes through
    [safeTrim(., 512)].  When nothing is supplied, or nothing is left of it,
    the answer is 401 with the error for a missing token.  Otherwise the
    cleaned token is compared with [config.token] as UTF-8 byte sequences,
    after a check of the lengths alone: equal bytes pass, anything else is
    answered 401 with the error for a mismatch.  For well-formed strings
    equal bytes are equal strings, so a supplied token that is clean passes
    exactly when it is [config.token]. *)
Theorem requireToken_spec (cfg : Config) (req : Request) :
  let header := cleanToken (suppliedHeader req) in
  let query := cleanToken (suppliedQuery req) in
  let token := if is_empty header then query else header in
  (req_header_token req = None -> req_query_token req = None ->
   requireToken cfg req = Respond (json_error req 401 "unauthorized: missing token"))
  /\ (token = [] ->
      requireToken cfg req = Respond (json_error req 401 "unauthorized: missing token"))
  /\ (token <> [] -> utf8_encode token <> utf8_encode (cfg_token cfg) ->
      requireToken cfg req = Respond (json_error req 401 "unauthorized: token mismatch"))
  /\ (token <> [] -> utf8_encode token = utf8_encode (cfg_token cfg) ->
      requireToken cfg req = Next)
  /\ (forall s, s <> [] -> cleanToken s = s ->
        well_formed s = true -> well_formed (cfg_token cfg) = true ->
        req_header_token req = Some s
        \/ (req_header_token req = None /\ req_query_token req = Some (VStr s)) ->
        (s <> cfg_token cfg ->
         requireToken cfg req = Respond (json_error req 401 "unauthorized: token mismatch"))
        /\ (s = cfg_token cfg -> requireToken cfg req = Next))
  /\ (forall a b,
        secureEqualText a b
        = (if negb (length (utf8_encode a) =? length (utf8_encode b))%nat then false
           else timingSafeEqual (utf8_encode a) (utf8_encode b))
        /\ secureEqualText a b = bool_decide (utf8_encode a = utf8_encode b)).
Proof.
  cbv zeta.
  assert (readToken req
          = if is_empty (cleanToken (suppliedHeader req)) then cleanToken (suppliedQuery req)
            else cleanToken (suppliedHeader req)) as Hread.
  { unfold readToken, cleanToken, suppliedHeader, suppliedQuery. cbv zeta.
    by destruct (req_query_token req) as [[| | | | |]|]. }
  set (token := if is_empty (cleanToken (suppliedHeader req)) then cleanToken (suppliedQuery req)
                else cleanToken (suppliedHeader req)) in *.
  assert (token = [] ->
          requireToken cfg req = Respond (json_error req 401 "unauthorized: missing token"))
    as Hmissing.
  { intros He. unfold requireToken. cbv zeta. by rewrite Hread, He. }
  assert (token <> [] -> utf8_encode token <> utf8_encode (cfg_token cfg) ->
          requireToken cfg req = Respond (json_error req 401 "unauthorized: token mismatch"))
    as Hmismatch.
  { intros Hne Hneq. unfold requireToken. cbv zeta. rewrite Hread.
    apply is_empty_false in Hne. rewrite Hne.
    rewrite secureEqualText_bytes. by rewrite bool_decide_eq_false_2. }
  assert (token <> [] -> utf8_encode token = utf8_encode (cfg_token cfg) ->
          requireToken cfg req = Next) as Hpass.
  { intros Hne Heq. unfold requireToken. cbv zeta. rewrite Hread.
    apply is_empty_false in Hne. rewrite Hne.
    rewrite secureEqualText_bytes. by rewrite bool_decide_eq_true_2. }
  split; [|split; [|split; [|split; [|split]]]]; try done.
  - intros Hh Hq. apply Hmissing. unfold token, suppliedHeader, suppliedQuery.
    by rewrite Hh, Hq.
  - intros s Hne Hclean Hs Hc Hsup.
    assert (token = s) as Htok.
    { unfold token, suppliedHeader, suppliedQuery.
      destruct Hsup as [-> | [-> ->]]; cbn [default from_option id].
      - rewrite Hclean. apply is_empty_false in Hne. by rewrite Hne.
      - by rewrite Hclean. }
    split.
    + intros Hneq. apply Hmismatch; [by rewrite Htok|].
      rewrite Htok. intros E. apply Hneq. by apply utf8_encode_inj.
    + intros Heq. apply Hpass; [by rewrite Htok|]. by rewrite Htok, Heq.
  - intros a b. split; [reflexivity|apply secureEqualText_bytes].
Qed.

(** *** Persistence *)

Lemma tmpName_longer (filePath : jsstring) (pid now : N) :
  tmpName filePath pid now <> path_basename filePath.
Proof.
  unfold tmpName. intros E. apply (f_equal (@length N)) in E.
  rewrite !length_app in E. cbn in E. lia.
Qed.

Lemma backup_distinct (p : jsstring) : p ++ js ".bak" <> p.
Proof.
  intros E. apply (f_equal (@length N)) in E. rewrite length_app in E. cbn in E. lia.
Qed.

(** Every [fs] call of the model leaves a file other than its target as it
    is, whether it fails or not. *)
Lemma writeFileSync_other (faults : nat -> option nat) (p content q : jsstring) (d : Disk) :
  q <> p -> files (writeFileSync faults p content d).2 !! q = files d !! q.
Proof.
  intros Hne. unfold writeFileSync, fs_call.
  destruct (faults (calls d)); cbn [snd files]; by rewrite lookup_insert_ne.
Qed.

Lemma copyFileSync_other (faults : nat -> option nat) (src dst q : jsstring) (d : Disk) :
  q <> dst -> files (copyFileSync faults src dst d).2 !! q = files d !! q.
Proof.
  intros Hne. unfold copyFileSync, fs_call.
  destruct (faults (calls d)); cbn [snd files]; destruct (files d !! src);
    by rewrite ?lookup_insert_ne.
Qed.

(** C8.  [persistConfig] writes the new JSON to a temporary file and renames
    it over the configuration file.  When the run succeeds the configuration
    file holds the new JSON; when any call fails, in particular the rename
    that follows a completed write of the temporary file, the configuration
    file holds what it held before.  The temporary path is taken to end in
    the name it was built from, as [path.join] makes it. *)
Theorem persistConfig_atomic (faults : nat -> option nat) (pid now : N)
    (CONFIG_PATH json : jsstring) (d : Disk) :
  path_basename (path_join [path_dirname CONFIG_PATH; tmpName CONFIG_PATH pid now])
  = tmpName CONFIG_PATH pid now ->
  let r := persistConfig faults pid now CONFIG_PATH json d in
  (r.1 = inl tt -> files r.2 !! CONFIG_PATH = Some json)
  /\ (r.1 <> inl tt -> files r.2 !! CONFIG_PATH = files d !! CONFIG_PATH).
Proof.
  intros Hbase r.
  set (tmpPath := path_join [path_dirname CONFIG_PATH; tmpName CONFIG_PATH pid now]) in *.
  assert (CONFIG_PATH <> tmpPath) as Htmp.
  { intros E. apply (tmpName_longer CONFIG_PATH pid now). by rewrite <- Hbase, <- E. }
  pose proof (backup_distinct CONFIG_PATH) as Hbak.
  destruct r as [res d'] eqn:E. subst r. cbn [fst snd].
  unfold persistConfig, fs_bind in E.
  (* the backup copy *)
  destruct ((if bool_decide (is_Some (files d !! CONFIG_PATH))
             then fs_try (copyFileSync faults CONFIG_PATH (CONFIG_PATH ++ js ".bak")) d
             else fs_ret tt d)) as [r1 d1] eqn:E1.
  assert (r1 = inl tt /\ files d1 !! CONFIG_PATH = files d !! CONFIG_PATH) as [-> K1].
  { case_bool_decide; [|by injection E1 as <- <-]. unfold fs_try in E1.
    pose proof (copyFileSync_other faults CONFIG_PATH (CONFIG_PATH ++ js ".bak")
                  CONFIG_PATH d (not_eq_sym Hbak)) as K.
    destruct (copyFileSync faults CONFIG_PATH (CONFIG_PATH ++ js ".bak") d).
    by injection E1 as <- <-. }
  rewrite <- K1. clear K1 E1 d.
  unfold writeJsonAtomic, fs_bind in E. fold tmpPath in E.
  (* the directory *)
  destruct ((if dirExists (path_dirname CONFIG_PATH) then fs_ret tt
             else mkdirSync faults (path_dirname CONFIG_PATH)) d1) as [r2 d2] eqn:E2.
  assert (files d2 !! CONFIG_PATH = files d1 !! CONFIG_PATH) as K2.
  { destruct (dirExists _); [by injection E2 as <- <-|].
    unfold mkdirSync, fs_call in E2. by destruct (faults (calls d1)); injection E2 as <- <-. }
  rewrite <- K2. clear K2 E2 d1.
  destruct r2 as [[]|e]; [|by injection E as <- <-].
  (* the temporary file *)
  pose proof (writeFileSync_other faults tmpPath json CONFIG_PATH d2 Htmp) as K3.
  assert ((writeFileSync faults tmpPath json d2).1 = inl tt ->
          files (writeFileSync faults tmpPath json d2).2 !! tmpPath = Some json) as W.
  { unfold writeFileSync, fs_call. destruct (faults (calls d2)); [done|].
    intros _. cbn [snd files]. by rewrite lookup_insert_eq. }
  destruct (writeFileSync faults tmpPath json d2) as [[[]|e] d3]; cbn [fst snd] in K3, W;
    rewrite <- K3; [|by injection E as <- <-].
  specialize (W eq_refl). clear K3 d2.
  (* the rename *)
  unfold renameSync, fs_call in E. rewrite W in E.
  destruct (faults (calls d3)); injection E as <- <-; cbn [files].
  - by split.
  - split; [|done]. intros _. by rewrite lookup_insert_eq.
Qed.

(** *** Program resolution *)

Lemma chooseBestProgramMatch_close (a b : Ranked) (rest : list Ranked) :
  ranked_score a - ranked_score b < 55 -> chooseBestProgramMatch (a :: b :: rest) = [].
Proof.
  intros H. cbn [chooseBestProgramMatch].
  replace (ranked_score a >=? ranked_score b + 80) with false by lia.
  by replace (ranked_score a >=? ranked_score b + 55) with false by lia.
Qed.

(** C7, as the code has it.  On an index of a launcher-path entry [L] and a
    Start Menu entry [S] that earn the same textual score for a query that
    is neither an existing launchable file nor a command on [PATH]: the
    ranking puts [L] first; [resolveProgramPath] returns the path of [L]
    when [L] matches the query exactly (label, file name or base name), the
    path of [S] when only [S] does, then tries the match by executable name
    in the same order, and returns the empty string otherwise, the source
    bonus of 40 points being below the margins of 80 and 55. *)
Theorem resolveProgramPath_equal_text (index : list ProgramEntry) (L S : ProgramEntry)
    (input : jsstring) :
  let expanded := expandEnv (unquoteWrapped (safeTrimStr input 2048)) in
  let q := toLowerCase (safeTrimStr expanded 120) in
  let lowered := toLowerCase expanded in
  index = [L; S] \/ index = [S; L] ->
  entry_source L = js "launcherPath" ->
  entry_source S = js "startMenu" ->
  scoreProgram L q - programSourcePriority (entry_source L)
  = scoreProgram S q - programSourcePriority (entry_source S) ->
  unquoteWrapped (safeTrimStr input 2048) <> [] ->
  fileExists expanded && isAppLaunchFilePath expanded = false ->
  findCommandOnPath expanded = [] ->
  ranked_entry <$> rankPrograms index expanded 8 true = [L; S]
  /\ resolveProgramPath index input
     = if exactMatch lowered L then entry_path L
       else if exactMatch lowered S then entry_path S
       else if exeNameMatch lowered L then entry_path L
       else if exeNameMatch lowered S then entry_path S
       else [].
Proof.
  intros expanded q lowered Hidx HL HS Hscore Hraw Hfile Hpath.
  rewrite HL, HS in Hscore.
  change (programSourcePriority (js "launcherPath")) with 120 in Hscore.
  change (programSourcePriority (js "startMenu")) with 80 in Hscore.
  assert (rankPrograms index expanded 8 true
          = [mkRanked L (scoreProgram L q); mkRanked S (scoreProgram S q)]) as Hrank.
  { unfold rankPrograms. fold q. rewrite !orb_true_r.
    change (rankLimit 8) with 8%nat.
    destruct Hidx as [-> | ->]; cbn [fmap list_fmap List.filter orb sortRanked fold_left
      sort_insert]; unfold rankCompare; cbn [ranked_score ranked_entry].
    - replace (scoreProgram L q - scoreProgram S q =? 0) with false by lia.
      by replace (scoreProgram L q - scoreProgram S q <? 0) with false by lia.
    - replace (scoreProgram S q - scoreProgram L q =? 0) with false by lia.
      by replace (scoreProgram S q - scoreProgram L q <? 0) with true by lia. }
  split; [by rewrite Hrank|].
  unfold resolveProgramPath. apply is_empty_false in Hraw. rewrite Hraw.
  fold expanded. rewrite Hfile, Hpath, Hrank. fold lowered.
  cbn [is_empty negb is_empty_list fmap list_fmap ranked_entry List.find].
  destruct (exactMatch lowered L); [done|].
  destruct (exactMatch lowered S); [done|].
  destruct (exeNameMatch lowered L); [done|].
  destruct (exeNameMatch lowered S); [done|].
  apply chooseBestProgramMatch_close. cbn [ranked_score]. lia.
Qed.

(** *** Sanitising strings *)

Lemma mem_str_In (v : jsstring) (l : list jsstring) : mem_str v l = true <-> In v l.
Proof.
  unfold mem_str. rewrite existsb_exists. split.
  - intros (x & Hx & E). apply str_eqb_eq in E. by subst.
  - intros H. exists v. split; [done|apply str_eqb_refl].
Qed.

Lemma uniq_loop_spec (l : list value) : forall out,
  NoDup out ->
  NoDup (uniq_loop l out)
  /\ forall v, In v (uniq_loop l out)
       <-> In v out \/ (v <> [] /\ exists item, In (VStr item) l /\ trim item = v).
Proof.
  induction l as [|x r IH]; intros out Hnd; cbn [uniq_loop].
  { split; [done|]. intros v. split; [by left|]. by intros [H|(_ & item & [] & _)]. }
  assert (NoDup (uniq_loop r out)
          /\ forall v, In v (uniq_loop r out)
               <-> In v out \/ (v <> [] /\ exists item, In (VStr item) r /\ trim item = v))
    as Hskip by (by apply IH).
  assert (forall item, (forall s, x = VStr s -> False) -> In (VStr item) (x :: r) ->
                       In (VStr item) r) as Hother.
  { intros item Hx [E|H]; [|done]. by destruct (Hx item). }
  destruct x as [| | |s| |];
    try (destruct Hskip as [N M]; split; [done|]; intros v; rewrite M;
         split; (intros [H|(Hne & item & Hin & E)]; [by left|right]);
         (split; [done|]); exists item; (split; [|done]);
         [by right|by apply Hother]).
  destruct (is_empty (trim s)) eqn:Ee; cbn [orb].
  { destruct Hskip as [N M]. split; [done|]. intros v. rewrite M.
    split; (intros [H|(Hne & item & Hin & E)]; [by left|right]).
    - split; [done|]. exists item. split; [by right|done].
    - split; [done|]. exists item. split; [|done].
      destruct Hin as [[= ->]|Hin]; [|done].
      apply is_empty_true in Ee. congruence. }
  destruct (mem_str (trim s) out) eqn:Em.
  { destruct Hskip as [N M]. split; [done|]. intros v. rewrite M.
    split; (intros [H|(Hne & item & Hin & E)]; [by left|]).
    - right. split; [done|]. exists item. split; [by right|done].
    - destruct Hin as [[= ->]|Hin].
      + left. apply mem_str_In. by rewrite <- E.
      + right. split; [done|]. by exists item. }
  assert (~ In (trim s) out) as Hnotin.
  { intros H. apply mem_str_In in H. congruence. }
  destruct (IH (out ++ [trim s])) as [N M].
  { apply NoDup_app. split; [done|]. split; [|apply NoDup_singleton].
    intros y Hy Hy'. apply list_elem_of_singleton in Hy'. subst y.
    by apply list_elem_of_In in Hy. }
  split; [done|]. intros v. rewrite M. rewrite in_app_iff. cbn [In].
  apply is_empty_false in Ee.
  split.
  - intros [[H|[<-|[]]]|(Hne & item & Hin & E)].
    + by left.
    + right. split; [done|]. exists s. split; [by left|done].
    + right. split; [done|]. exists item. split; [by right|done].
  - intros [H|(Hne & item & [[= ->]|Hin] & E)].
    + left. by left.
    + left. right. by left.
    + right. split; [done|]. by exists item.
Qed.

Lemma uniq_loop_fix (r : list jsstring) : forall out,
  NoDup (out ++ r) -> Forall trimmed r -> uniq_loop (VStr <$> r) out = out ++ r.
Proof.
  induction r as [|v r IH]; intros out Hnd Ht; cbn [fmap list_fmap uniq_loop].
  { by rewrite app_nil_r. }
  apply Forall_cons in Ht as [[Hv Hne] Ht]. rewrite Hv.
  apply is_empty_false in Hne. rewrite Hne. cbn [orb].
  assert (mem_str v out = false) as ->.
  { destruct (mem_str v out) eqn:E; [|done]. apply mem_str_In in E.
    apply NoDup_app in Hnd as (_ & Hd & _).
    destruct (Hd v); [by apply list_elem_of_In|]. by left. }
  fold (VStr <$> r). rewrite IH; [by rewrite <- app_assoc| |done].
  by rewrite <- app_assoc.
Qed.

(** X1.  [uniq] returns the trimmed, non-empty strings of its argument, each
    once, and maps its own result to itself. *)
Theorem uniq_spec (l : list value) :
  NoDup (uniq l)
  /\ (forall v, In v (uniq l) <-> v <> [] /\ exists item, In (VStr item) l /\ trim item = v)
  /\ uniq (VStr <$> uniq l) = uniq l.
Proof.
  destruct (uniq_loop_spec l [] NoDup_nil_2) as [N M]. fold (uniq l) in N, M.
  split; [done|]. split.
  - intros v. rewrite M. split; [by intros [[]|H]|by right].
  - unfold uniq at 1. rewrite uniq_loop_fix; [done|done|].
    apply List.Forall_forall. intros v Hv. apply M in Hv as [[]|(Hne & item & _ & <-)].
    split; [apply trim_idemp|done].
Qed.

(** [trim] cuts at both ends, and removing control characters or cutting
    again never adds any. *)
Lemma trimStart_Forall (P : N -> Prop) (s : jsstring) : Forall P s -> Forall P (trimStart s).
Proof.
  induction 1 as [|c r Hc Hr IH]; cbn [trimStart]; [done|].
  destruct (is_ws c); [done|by constructor].
Qed.

Lemma trim_Forall (P : N -> Prop) (s : jsstring) : Forall P s -> Forall P (trim s).
Proof.
  intros H. unfold trim, trimEnd.
  apply Forall_rev, trimStart_Forall, Forall_rev. by apply trimStart_Forall.
Qed.

Lemma trimStart_length (s : jsstring) : (length (trimStart s) <= length s)%nat.
Proof.
  induction s as [|c r IH]; cbn [trimStart]; [done|].
  destruct (is_ws c); cbn [length]; lia.
Qed.

Lemma trim_length (s : jsstring) : (length (trim s) <= length s)%nat.
Proof.
  unfold trim, trimEnd. rewrite length_rev.
  pose proof (trimStart_length (rev (trimStart s))) as H1.
  pose proof (trimStart_length s) as H2. rewrite length_rev in H1. lia.
Qed.

Lemma strip_controls_clean (s : jsstring) :
  Forall (fun c => is_control c = false) (strip_controls s).
Proof.
  apply List.Forall_forall. intros c Hc. apply filter_In in Hc as [_ Hc].
  by apply negb_true_iff.
Qed.

Lemma strip_controls_id (s : jsstring) :
  Forall (fun c => is_control c = false) s -> strip_controls s = s.
Proof.
  induction 1 as [|c r Hc Hr IH]; [done|].
  unfold strip_controls. cbn [List.filter]. rewrite Hc. cbn [negb].
  f_equal. exact IH.
Qed.

Lemma safeTrimStr_clean (s : jsstring) (maxLen : nat) :
  (length (safeTrimStr s maxLen) <= maxLen)%nat
  /\ Forall (fun c => is_control c = false) (safeTrimStr s maxLen).
Proof.
  unfold safeTrimStr. split.
  - rewrite length_take. lia.
  - apply Forall_take, strip_controls_clean.
Qed.

Lemma safeTrimStr_stable (s : jsstring) (maxLen : nat) :
  safeTrimStr (safeTrimStr (safeTrimStr s maxLen) maxLen) maxLen
  = safeTrimStr (safeTrimStr s maxLen) maxLen.
Proof.
  destruct (safeTrimStr_clean s maxLen) as [Hlen Hclean].
  set (s1 := safeTrimStr s maxLen) in *.
  assert (safeTrimStr s1 maxLen = trim s1) as E.
  { unfold safeTrimStr. rewrite strip_controls_id by (by apply trim_Forall).
    apply take_ge. pose proof (trim_length s1). lia. }
  rewrite E. unfold safeTrimStr. rewrite trim_idemp.
  rewrite strip_controls_id by (by apply trim_Forall).
  apply take_ge. pose proof (trim_length s1). lia.
Qed.

Lemma safeTrim_clean (o : option value) (maxLen : nat) :
  (length (safeTrim o maxLen) <= maxLen)%nat
  /\ Forall (fun c => is_control c = false) (safeTrim o maxLen).
Proof. apply safeTrimStr_clean. Qed.

(** X2.  [safeTrim] returns at most [maxLen] code units, none of them a
    control character; applied again to its own result it can still change
    it, but from the second result on nothing changes. *)
Theorem safeTrim_spec (o : option value) (maxLen : nat) :
  (length (safeTrim o maxLen) <= maxLen)%nat
  /\ Forall (fun c => is_control c = false) (safeTrim o maxLen)
  /\ safeTrimStr (safeTrimStr (safeTrim o maxLen) maxLen) maxLen
     = safeTrimStr (safeTrim o maxLen) maxLen.
Proof.
  unfold safeTrim. destruct (safeTrimStr_clean (str_or_empty o) maxLen) as [H1 H2].
  split; [done|]. split; [done|]. apply safeTrimStr_stable.
Qed.

Lemma safeArray_loop_spec (itemMaxLen maxItems : nat) (input : list value) :
  forall out,
    (length out <= maxItems)%nat ->
    Forall (fun item => item <> [] /\ (length item <= itemMaxLen)%nat
                        /\ Forall (fun c => is_control c = false) item) out ->
    (length (safeArray_loop itemMaxLen maxItems input out) <= maxItems)%nat
    /\ Forall (fun item => item <> [] /\ (length item <= itemMaxLen)%nat
                           /\ Forall (fun c => is_control c = false) item)
         (safeArray_loop itemMaxLen maxItems input out).
Proof.
  induction input as [|v rest IH]; intros out Hlen Hout; cbn [safeArray_loop]; [done|].
  destruct (maxItems <=? length out)%nat eqn:E; [done|].
  apply Nat.leb_gt in E.
  destruct (is_empty (safeTrim (Some v) itemMaxLen)) eqn:Ee; [by apply IH|].
  apply IH.
  - rewrite length_app. cbn [length]. lia.
  - apply Forall_app. split; [done|]. constructor; [|constructor].
    destruct (safeTrim_clean (Some v) itemMaxLen) as (H1 & H2).
    split; [by apply is_empty_false|]. by split.
Qed.

(** X3.  [safeArray] returns at most [maxItems] strings, each non-empty, of
    at most [itemMaxLen] code units and free of control characters; what is
    not an array gives the empty list. *)
Theorem safeArray_spec (input : option value) (itemMaxLen maxItems : nat) :
  (length (safeArray input itemMaxLen maxItems) <= maxItems)%nat
  /\ Forall (fun item => item <> [] /\ (length item <= itemMaxLen)%nat
                         /\ Forall (fun c => is_control c = false) item)
       (safeArray input itemMaxLen maxItems)
  /\ ((forall items, input <> Some (VArr items)) -> safeArray input itemMaxLen maxItems = []).
Proof.
  unfold safeArray. split; [|split].
  - destruct input as [[| | | |items|]|]; cbn [length]; try lia.
    apply safeArray_loop_spec; [cbn; lia|constructor].
  - destruct input as [[| | | |items|]|]; try constructor.
    apply safeArray_loop_spec; [cbn; lia|constructor].
  - intros H. destruct input as [[| | | |items|]|]; try done. by destruct (H items).
Qed.


(** *** Quotes and environment variables *)

Lemma removelast_length {A} (l : list A) : (length (removelast l) <= length l)%nat.
Proof.
  induction l as [|a [|b r] IH]; cbn [removelast length] in *; lia.
Qed.

Lemma quoted_trimmed (q : N) (s : jsstring) :
  is_ws q = false -> trim (q :: s ++ [q]) = q :: s ++ [q].
Proof.
  intros Hq. apply trim_fix; [exact Hq|].
  unfold no_trail. change (q :: s ++ [q]) with ((q :: s) ++ [q]).
  rewrite rev_app_distr. exact Hq.
Qed.

Lemma quoted_ends (q : N) (s : jsstring) :
  startsWith (q :: s ++ [q]) [q] && endsWith (q :: s ++ [q]) [q] = true.
Proof.
  unfold endsWith.
  assert (rev (q :: s ++ [q]) = q :: rev s ++ [q]) as ->
      by (cbn [rev]; by rewrite rev_app_distr).
  cbn [rev app startsWith]. rewrite N.eqb_refl.
  by destruct (s ++ [q]), (rev s ++ [q]).
Qed.

(** X13.  [unquoteWrapped] returns a trimmed string that is not longer than
    its argument, and it undoes quoting: a string put between two double or
    two single quotes comes back trimmed. *)
Theorem unquoteWrapped_spec (s : jsstring) :
  trim (unquoteWrapped s) = unquoteWrapped s
  /\ (length (unquoteWrapped s) <= length s)%nat
  /\ unquoteWrapped ([34%N] ++ s ++ [34%N]) = trim s
  /\ unquoteWrapped (js "'" ++ s ++ js "'") = trim s.
Proof.
  split; [|split; [|split]].
  - unfold unquoteWrapped. cbv zeta.
    destruct (_ || _); apply trim_idemp.
  - unfold unquoteWrapped. cbv zeta. pose proof (trim_length s) as H.
    destruct (_ || _); [|done].
    pose proof (trim_length (slice_1_m1 (trim s))) as H1.
    unfold slice_1_m1 in *.
    pose proof (removelast_length (tail (trim s))) as H2.
    assert (length (tail (trim s)) <= length (trim s))%nat by (destruct (trim s); cbn; lia).
    lia.
  - unfold unquoteWrapped. cbv zeta. cbn [app].
    rewrite quoted_trimmed by done. rewrite quoted_ends. cbn [orb].
    unfold slice_1_m1. cbn [tail]. by rewrite removelast_last.
  - unfold unquoteWrapped. cbv zeta. change (js "'") with [39%N]. cbn [app].
    rewrite quoted_trimmed by done. rewrite quoted_ends, orb_true_r.
    unfold slice_1_m1. cbn [tail]. by rewrite removelast_last.
Qed.

Lemma expandEnv_scan_prefix (pre rest : jsstring) :
  ~ In PERCENT pre ->
  expandEnv_scan (pre ++ rest) None = pre ++ expandEnv_scan rest None.
Proof.
  induction pre as [|c r IH]; intros Hp; [done|]. cbn [app expandEnv_scan].
  destruct (c =? PERCENT)%N eqn:E.
  - apply N.eqb_eq in E. destruct Hp. by left.
  - f_equal. apply IH. intros H. apply Hp. by right.
Qed.

Lemma expandEnv_scan_key (key post k0 : jsstring) :
  ~ In PERCENT key ->
  expandEnv_scan (key ++ PERCENT :: post) (Some k0)
  = if is_empty (k0 ++ key) then PERCENT :: expandEnv_scan post (Some [])
    else default [] (env (k0 ++ key)) ++ expandEnv_scan post None.
Proof.
  revert k0. induction key as [|c r IH]; intros k0 Hk.
  - cbn [app expandEnv_scan]. rewrite N.eqb_refl, app_nil_r. done.
  - cbn [app expandEnv_scan].
    destruct (c =? PERCENT)%N eqn:E.
    { apply N.eqb_eq in E. destruct Hk. by left. }
    rewrite IH by (intros H; apply Hk; by right).
    by rewrite <- app_assoc.
Qed.

Lemma expandEnv_scan_open (r k : jsstring) :
  ~ In PERCENT r -> expandEnv_scan r (Some k) = PERCENT :: k ++ r.
Proof.
  revert k. induction r as [|c r IH]; intros k Hr; cbn [expandEnv_scan].
  - by rewrite app_nil_r.
  - destruct (c =? PERCENT)%N eqn:E.
    { apply N.eqb_eq in E. destruct Hr. by left. }
    rewrite IH by (intros H; apply Hr; by right). by rewrite <- app_assoc.
Qed.

(** X12.  [expandEnv] leaves a string with fewer than two percent signs as it
    is, and it works from the left: after a prefix without percent signs, a
    [%KEY%] with a non-empty key is replaced by the value of the variable, or
    by nothing when the variable is not set, and the rest is expanded in the
    same way. *)
Theorem expandEnv_spec (pre key post : jsstring) :
  ((count_occ N.eq_dec pre PERCENT < 2)%nat -> expandEnv pre = pre)
  /\ (~ In PERCENT pre -> key <> [] -> ~ In PERCENT key ->
      expandEnv (pre ++ PERCENT :: key ++ PERCENT :: post)
      = pre ++ default [] (env key) ++ expandEnv post).
Proof.
  split.
  - unfold expandEnv. induction pre as [|c r IH]; [done|].
    cbn [count_occ expandEnv_scan].
    destruct (N.eq_dec c PERCENT) as [->|Hne].
    + intros H. rewrite N.eqb_refl.
      rewrite expandEnv_scan_open; [done|].
      apply count_occ_not_In with (eq_dec := N.eq_dec). lia.
    + intros H. apply N.eqb_neq in Hne. rewrite Hne. f_equal. by apply IH.
  - intros Hpre Hkey Hk. unfold expandEnv.
    rewrite expandEnv_scan_prefix by done. f_equal.
    cbn [expandEnv_scan]. rewrite N.eqb_refl.
    rewrite expandEnv_scan_key by done. cbn [app].
    apply is_empty_false in Hkey. by rewrite Hkey.
Qed.


(** *** What the tile validator lets through *)

Lemma read_path_field_spec (o : option value) (p : jsstring) :
  read_path_field o = Some (Some p) ->
  p <> [] /\ trim p = p /\ has_nul p = false /\ len p <= MAX_PATH_LEN.
Proof.
  unfold read_path_field. destruct o as [[| | |s| |]|]; try done.
  destruct (is_empty (trim s)) eqn:E; [done|].
  destruct (has_nul (trim s)) eqn:En; cbn [orb]; [done|].
  destruct (len (trim s) >? MAX_PATH_LEN) eqn:El; [done|].
  intros [= <-]. split; [by apply is_empty_false|]. split; [apply trim_idemp|].
  split; [done|lia].
Qed.

Lemma normalizeHttpUrl_accepts (p : jsstring) :
  is_empty (normalizeHttpUrl p) = false ->
  exists protocol href, url_parse (urlCandidate (trim p)) = Some (protocol, href)
                        /\ (protocol = js "http:" \/ protocol = js "https:").
Proof.
  unfold normalizeHttpUrl, urlCandidate. cbv zeta.
  destruct (is_empty (trim p)); [done|].
  destruct (includes (trim p) (js "://"));
    (destruct (url_parse _) as [[protocol href]|] eqn:E; [|done];
     destruct (str_eqb protocol (js "http:")) eqn:E1;
     [intros _; exists protocol, href; split; [done|]; left; by apply str_eqb_eq|];
     destruct (str_eqb protocol (js "https:")) eqn:E2; [|done];
     intros _; exists protocol, href; split; [done|]; right; by apply str_eqb_eq).
Qed.

Lemma normalizeProtocolTarget_accepts (p : jsstring) :
  is_empty (normalizeProtocolTarget p) = false ->
  has_scheme_prefix (trim p) = true /\ has_ws (trim p) = false.
Proof.
  unfold normalizeProtocolTarget. cbv zeta.
  destruct (is_empty (trim p) || (len (trim p) >? MAX_PATH_LEN) || has_nul (trim p)); [done|].
  destruct (has_scheme_prefix (trim p)); cbn [negb]; [|done].
  by destruct (has_ws (trim p)).
Qed.

Lemma mem_str_TILE (s : jsstring) (l : list jsstring) : mem_str s l = true -> In s l.
Proof. apply mem_str_In. Qed.

(** X4.  A tile that [normalizeTile] returns is well formed: id, profile,
    page and label are non-empty and within their lengths, the type, the icon
    mode and [showIf] are among the known ones, the icon data is within its
    size, a target or start directory is a non-empty trimmed path without NUL
    of at most 2048 code units, and the field its type needs is there and
    valid: a named action, a target or launcher for an app, a target for a
    folder, a target that parses as an http or https URL, a target with a
    scheme and without white space for a protocol. *)
Theorem normalizeTile_valid (raw : value) (t : Tile) :
  normalizeTile raw = Some t ->
  let bounded (s : jsstring) (k : nat) := s <> [] /\ (length s <= k)%nat in
  bounded (tile_id t) 64%nat /\ bounded (tile_profile t) 64%nat
  /\ bounded (tile_page t) 64%nat /\ bounded (tile_label t) 80%nat
  /\ (length (tile_subtitle t) <= 140)%nat /\ (length (tile_icon t) <= 12)%nat
  /\ In (tile_type t) TILE_TYPES
  /\ In (tile_iconMode t) ICON_MODES
  /\ (exists s, tile_showIf t = Some s /\ In s TILE_SHOW_IF)
  /\ (exists d, tile_iconData t = Some d /\ len d <= MAX_ICON_DATA_URL_LEN)
  /\ (forall p, tile_target t = Some p \/ tile_startIn t = Some p ->
        p <> [] /\ trim p = p /\ has_nul p = false /\ len p <= MAX_PATH_LEN)
  /\ (tile_type t = js "action" -> exists a, tile_action t = Some a /\ In a NAMED_ACTIONS)
  /\ (tile_type t = js "app" ->
        unset (tile_target t) = false \/ unset (tile_launcherKey t) = false)
  /\ (tile_type t = js "folder" -> exists p, tile_target t = Some p)
  /\ (tile_type t = js "url" ->
        exists p protocol href, tile_target t = Some p
          /\ url_parse (urlCandidate p) = Some (protocol, href)
          /\ (protocol = js "http:" \/ protocol = js "https:"))
  /\ (tile_type t = js "protocol" ->
        exists p, tile_target t = Some p /\ has_scheme_prefix p = true /\ has_ws p = false).
Proof.
  unfold normalizeTile. cbv zeta.
  destruct (is_object raw); cbn [negb]; [|done].
  destruct (is_empty (safeTrim (get raw "id") 64)) eqn:Eid; cbn [orb]; [done|].
  destruct (is_empty (safeTrim (get raw "profile") 64)) eqn:Epr; cbn [orb]; [done|].
  destruct (is_empty (safeTrim (Some (js_or (get raw "page") (VStr (js "main")))) 64))
    eqn:Epg; cbn [orb]; [done|].
  destruct (is_empty (safeTrim (get raw "label") 80)) eqn:Ela; cbn [orb]; [done|].
  destruct (is_empty (safeTrim (get raw "type") 32)) eqn:Ety; [done|].
  destruct (mem_str (safeTrim (get raw "type") 32) TILE_TYPES) eqn:Etypes; cbn [negb]; [|done].
  destruct (read_path_field (get raw "target")) as [target|] eqn:Etarget; [|done].
  destruct (read_path_field (get raw "startIn")) as [startIn|] eqn:EstartIn; [|done].
  set (type := safeTrim (get raw "type") 32) in *.
  set (action := read_trimmed_field (get raw "action") 64) in *.
  set (launcherKey := read_trimmed_field (get raw "launcherKey") 64) in *.
  destruct (str_eqb type (js "action")
            && (unset action || negb (mem_str (default [] action) NAMED_ACTIONS)))
    eqn:C1; [done|].
  destruct (str_eqb type (js "app") && unset target && unset launcherKey) eqn:C2; [done|].
  destruct ((str_eqb type (js "folder") || str_eqb type (js "url")
             || str_eqb type (js "protocol")) && unset target) eqn:C3; [done|].
  destruct (str_eqb type (js "url") && is_empty (normalizeHttpUrl (default [] target)))
    eqn:C4; [done|].
  destruct (str_eqb type (js "protocol")
            && is_empty (normalizeProtocolTarget (default [] target))) eqn:C5; [done|].
  intros [= <-]. cbn [tile_id tile_profile tile_page tile_label tile_subtitle tile_icon
    tile_type tile_iconMode tile_showIf tile_iconData tile_target tile_startIn tile_action
    tile_launcherKey].
  assert (forall o k, is_empty (safeTrim o k) = false ->
                      safeTrim o k <> [] /\ (length (safeTrim o k) <= k)%nat) as Hb.
  { intros o k E. split; [by apply is_empty_false|]. apply safeTrim_clean. }
  assert (forall a, str_eqb type (js a) = true <-> type = js a) as Htype
    by (intros a; apply str_eqb_eq).
  assert (forall p, target = Some p ->
                    p <> [] /\ trim p = p /\ has_nul p = false /\ len p <= MAX_PATH_LEN) as Htgt.
  { intros p ->. by eapply read_path_field_spec. }
  split; [by apply Hb|]. split; [by apply Hb|]. split; [by apply Hb|].
  split; [by apply Hb|]. split; [apply safeTrim_clean|]. split; [apply safeTrim_clean|].
  split; [by apply mem_str_In|].
  split.
  { assert (In (js "emoji") ICON_MODES) as Hemoji by (right; by left).
    destruct (get raw "iconMode") as [[| | |m| |]|]; try exact Hemoji.
    change (In (if mem_str m ICON_MODES then m else js "emoji") ICON_MODES).
    destruct (mem_str m ICON_MODES) eqn:E; [by apply mem_str_In|exact Hemoji]. }
  split.
  { eexists. split; [reflexivity|].
    change (In (if mem_str (safeTrim (get raw "showIf") 24) TILE_SHOW_IF
                then safeTrim (get raw "showIf") 24 else []) TILE_SHOW_IF).
    destruct (mem_str (safeTrim (get raw "showIf") 24) TILE_SHOW_IF) eqn:E;
      [by apply mem_str_In|by left]. }
  split.
  { eexists. split; [reflexivity|].
    destruct (get raw "iconData") as [[| | |d| |]|]; try done.
    destruct (len d <=? MAX_ICON_DATA_URL_LEN) eqn:E; [lia|done]. }
  split.
  { intros p [E|E]; [by apply Htgt|]. rewrite E in EstartIn.
    by eapply read_path_field_spec. }
  split.
  { intros E. apply Htype in E. rewrite E in C1. cbn [andb] in C1.
    apply orb_false_iff in C1 as [C1 C1']. apply negb_false_iff in C1'.
    destruct action as [a|]; [|done]. exists a. split; [done|]. by apply mem_str_In. }
  split.
  { intros E. apply Htype in E. rewrite E in C2. cbn [andb] in C2.
    destruct (unset target); [right; exact C2|by left]. }
  split.
  { intros E. apply Htype in E. rewrite E in C3. cbn [orb andb] in C3.
    destruct target as [p|]; [by exists p|done]. }
  split.
  { intros E. apply Htype in E. rewrite E in C3, C4. rewrite orb_true_r in C3.
    cbn [orb andb] in C3, C4. destruct target as [p|]; [|done].
    cbn [default from_option id] in C4.
    destruct (normalizeHttpUrl_accepts p C4) as (protocol & href & Hu & Hp).
    destruct (Htgt p eq_refl) as (_ & Ht & _). rewrite Ht in Hu.
    by exists p, protocol, href. }
  intros E. apply Htype in E. rewrite E in C3, C5. rewrite orb_true_r in C3.
  cbn [andb] in C3, C5. destruct target as [p|]; [|done].
  cbn [default from_option id] in C5.
  destruct (normalizeProtocolTarget_accepts p C5) as [H1 H2].
  destruct (Htgt p eq_refl) as (_ & Ht & _). rewrite Ht in H1, H2.
  by exists p.
Qed.


(** *** The tiles of a configuration *)

Lemma byId_has_In (id : jsstring) (m : list Tile) :
  byId_has id m = true <-> In id (tile_id <$> m).
Proof.
  unfold byId_has. rewrite existsb_exists. split.
  - intros (u & Hu & E). apply str_eqb_eq in E. subst id.
    apply list_elem_of_In, list_elem_of_fmap. exists u. split; [done|].
    by apply list_elem_of_In.
  - intros H. apply list_elem_of_In, list_elem_of_fmap in H as (u & -> & Hu).
    exists u. split; [by apply list_elem_of_In|apply str_eqb_refl].
Qed.

Lemma byId_set_ids (t : Tile) (m : list Tile) :
  tile_id <$> byId_set t m
  = if byId_has (tile_id t) m then tile_id <$> m else (tile_id <$> m) ++ [tile_id t].
Proof.
  induction m as [|x r IH]; [done|].
  cbn [byId_set byId_has existsb].
  destruct (str_eqb (tile_id x) (tile_id t)) eqn:E; cbn [orb].
  - apply str_eqb_eq in E. cbn [fmap list_fmap]. by rewrite E.
  - cbn [fmap list_fmap]. fold (tile_id <$> byId_set t r). fold (tile_id <$> r).
    rewrite IH. unfold byId_has. by destruct (existsb _ r).
Qed.

Lemma byId_set_NoDup (t : Tile) (m : list Tile) :
  NoDup (tile_id <$> m) -> NoDup (tile_id <$> byId_set t m).
Proof.
  intros H. rewrite byId_set_ids.
  destruct (byId_has (tile_id t) m) eqn:E; [done|].
  apply NoDup_app. split; [done|]. split; [|apply NoDup_singleton].
  intros y Hy Hy'. apply list_elem_of_singleton in Hy'. subst y.
  apply list_elem_of_In, byId_has_In in Hy. congruence.
Qed.

Lemma collectTiles_NoDup (input : list value) (byId : list Tile) :
  NoDup (tile_id <$> byId) -> NoDup (tile_id <$> collectTiles input byId).
Proof.
  revert byId. induction input as [|r rest IH]; intros byId H; [done|].
  cbn [collectTiles fold_left]. apply IH.
  destruct (normalizeTile r); [by apply byId_set_NoDup|done].
Qed.

Lemma appendBuiltins_NoDup (defs byId : list Tile) :
  NoDup (tile_id <$> byId) -> NoDup (tile_id <$> appendBuiltins defs byId).
Proof.
  revert byId. induction defs as [|d rest IH]; intros byId H; [done|].
  cbn [appendBuiltins fold_left]. apply IH.
  destruct (byId_has (tile_id d) byId); [done|by apply byId_set_NoDup].
Qed.

(** The last raw tile read under an id is the one that is kept. *)
Lemma collectTiles_last (pre post : list value) (r : value) (u : Tile) (byId : list Tile) :
  normalizeTile r = Some u ->
  (forall r' u', In r' post -> normalizeTile r' = Some u' -> tile_id u' <> tile_id u) ->
  In u (collectTiles (pre ++ r :: post) byId).
Proof.
  intros Hr Hpost. rewrite collectTiles_app. cbn [collectTiles fold_left]. rewrite Hr.
  apply collectTiles_keeps; [apply byId_set_here|done].
Qed.




(** X5.  The tiles [ensureBuiltinTiles] returns have pairwise distinct ids;
    every built-in id is among them; each tile is a validated entry of the
    input or a built-in tile; and of the entries validated under one id the
    last one is kept. *)
Theorem ensureBuiltinTiles_spec (raw : value) :
  let out := ensureBuiltinTiles (get raw "tiles") in
  NoDup (tile_id <$> out)
  /\ (forall d, In d getDefaultTiles -> In (tile_id d) (tile_id <$> out))
  /\ (forall u, In u out ->
        In u getDefaultTiles \/ exists r, In r (rawTiles raw) /\ normalizeTile r = Some u)
  /\ (forall pre r post u,
        rawTiles raw = pre ++ r :: post -> normalizeTile r = Some u ->
        (forall r' u', In r' post -> normalizeTile r' = Some u' -> tile_id u' <> tile_id u) ->
        In u out).
Proof.
  cbv zeta. rewrite ensureBuiltinTiles_loops.
  destruct (appendBuiltins_spec getDefaultTiles (collectTiles (rawTiles raw) []))
    as (A1 & A2 & A3).
  split; [|split; [|split]].
  - apply appendBuiltins_NoDup, collectTiles_NoDup. constructor.
  - intros d Hd. by apply byId_has_In, A3.
  - intros u Hu. apply A1 in Hu as [Hu|Hu]; [|by left].
    apply collectTiles_In in Hu as [[]|Hu]. by right.
  - intros pre r post u Hraw Hr Hpost. apply A2. rewrite Hraw.
    by apply collectTiles_last.
Qed.



(** *** The configuration a merge returns *)

(** X6.  Every configuration [mergeWithDefaults] returns is within bounds:
    the port is between 1 and 65535, the rate limit has a window of at least
    250 ms and a budget of at least 3 requests, which are the values the
    limiter then works with, between 3 and 90 log files are kept, the host is
    a non-empty trimmed string, and the token, the input's or a generated
    one, has at least 12 code units when at least 12 random bytes are
    drawn. *)
Theorem mergeWithDefaults_bounds (bytes : list N) (raw : value) (y : Config) :
  mergeWithDefaults bytes raw = Ok y ->
  0 < cfg_port y <= 65535
  /\ 250 <= rl_windowMs (cfg_rateLimit y) /\ 3 <= rl_max (cfg_rateLimit y)
  /\ rateWindow y = rl_windowMs (cfg_rateLimit y) /\ rateMax y = rl_max (cfg_rateLimit y)
  /\ 3 <= log_maxFiles (cfg_logging y) <= 90
  /\ trimmed (cfg_host y)
  /\ (cfg_token y = randomToken bytes \/ get raw "token" = Some (VStr (cfg_token y)))
  /\ ((12 <= length bytes)%nat -> 12 <= len (cfg_token y)).
Proof.
  intros Hm.
  apply mergeWithDefaults_inv in Hm
    as (base & launchers & Hb & _ & _ & _ & Hhost & Hport & Htok & _ & Hrl & _ & Hlog & _).
  destruct (createDefaultConfig_fields _ _ _ Hb) as (Bh & Bp & Bt & _ & Br).
  rewrite Bh in Hhost. rewrite Bp in Hport. rewrite Bt in Htok. rewrite Br in Hrl.
  destruct (mergeRateLimit_least raw) as [L1 L2]. rewrite <- Hrl in L1, L2.
  split; [rewrite Hport; apply mergePort_range|].
  split; [done|]. split; [done|].
  split; [unfold rateWindow, setting_at_least; destruct (_ =? 0) eqn:E; lia|].
  split; [unfold rateMax, setting_at_least; destruct (_ =? 0) eqn:E; lia|].
  split; [rewrite Hlog; by eapply mergeLogging_range|].
  split; [rewrite Hhost; by apply mergeHost_trimmed|].
  split.
  - rewrite Htok. unfold mergeToken.
    destruct (get raw "token") as [[| | |t| |]|]; try (by left).
    destruct (12 <=? len t); [by right|by left].
  - intros Hlen. rewrite Htok. apply mergeToken_long.
    unfold len. rewrite randomToken_length. lia.
Qed.

(** X19.  Every configuration [mergeWithDefaults] returns has at least one
    profile, every profile has at least one page, and the ids and labels of
    profiles and pages are non-empty and trimmed. *)
Theorem mergeWithDefaults_profiles_shape (bytes : list N) (raw : value) (y : Config) :
  mergeWithDefaults bytes raw = Ok y ->
  cfg_profiles y <> []
  /\ forall q, In q (cfg_profiles y) ->
       trimmed (profile_id q) /\ trimmed (profile_label q)
       /\ profile_pages q <> []
       /\ forall x, In x (profile_pages q) -> trimmed (page_id x) /\ trimmed (page_label x).
Proof.
  intros Hm.
  apply mergeWithDefaults_inv in Hm as (base & launchers & _ & _ & Hp & _).
  destruct (normalizeProfiles_normal _ _ Hp) as [Hne Hnormal].
  split; [done|]. intros q Hq.
  rewrite List.Forall_forall in Hnormal.
  destruct (Hnormal q Hq) as (H1 & H2 & H3 & H4).
  split; [done|]. split; [done|]. split; [done|].
  intros x Hx. rewrite List.Forall_forall in H4. by apply H4.
Qed.

Lemma result_cases {A} (r : result A) : (exists a, r = Ok a) \/ r = Throw TypeError.
Proof. destruct r as [a|[]]; [left; by exists a|by right]. Qed.

Lemma mergeLauncher_throws (merged : gmap jsstring Launcher) (e : jsstring * value) :
  if throwingLauncher e then mergeLauncher merged e = Throw TypeError
  else exists m, mergeLauncher merged e = Ok m.
Proof.
  destruct e as [k v]. unfold throwingLauncher, mergeLauncher. cbn [snd].
  destruct (is_object v); cbn [negb andb]; [|by eexists].
  unfold spreadable, spread_or_empty.
  destruct (get v "candidates") as [c|]; [|by eexists].
  destruct (truthy c); cbn [negb orb]; [|by eexists].
  destruct c; cbn [negb bind]; by (reflexivity || eexists).
Qed.

Lemma mergeLaunchers_throws (es : list (jsstring * value)) :
  forall merged,
    if existsb throwingLauncher es then mergeLaunchers es merged = Throw TypeError
    else exists m, mergeLaunchers es merged = Ok m.
Proof.
  induction es as [|e r IH]; intros merged; cbn [existsb mergeLaunchers]; [by eexists|].
  pose proof (mergeLauncher_throws merged e) as He.
  destruct (throwingLauncher e); cbn [orb].
  - by rewrite He.
  - destruct He as [m ->]. cbn [bind]. apply IH.
Qed.

Lemma mapM_normalizePage_throws (l : list value) :
  if existsb is_null l then mapM normalizePage l = Throw TypeError
  else exists mapped, mapM normalizePage l = Ok mapped.
Proof.
  induction l as [|x r IH]; cbn [existsb mapM]; [by eexists|].
  destruct x; cbn [is_null orb normalizePage bind]; try reflexivity;
    (destruct (existsb is_null r); [by rewrite IH|destruct IH as [m ->]; by eexists]).
Qed.

Lemma normalizeProfile_throws (p : value) :
  if throwingProfile p then normalizeProfile p = Throw TypeError
  else exists o, normalizeProfile p = Ok o.
Proof.
  unfold throwingProfile, normalizeProfile, validEntry, validPage.
  fold (entryId p) (entryLabel p).
  destruct (is_object p); cbn [negb andb]; [|by eexists].
  destruct (is_empty (entryId p)); cbn [negb andb orb]; [by eexists|].
  destruct (is_empty (entryLabel p)); cbn [negb andb orb]; [by eexists|].
  destruct (get p "pages") as [[| | | |[|x r]|]|]; cbn [bind existsb]; try by eexists.
  pose proof (mapM_normalizePage_throws (x :: r)) as H. cbn [existsb] in H.
  destruct (is_null x || existsb is_null r).
  - by rewrite H.
  - destruct H as [m ->]. by eexists.
Qed.

Lemma normalizeProfiles_loop_throws (l : list value) :
  if existsb throwingProfile l then normalizeProfiles_loop l = Throw TypeError
  else exists out, normalizeProfiles_loop l = Ok out.
Proof.
  induction l as [|p r IH]; cbn [existsb normalizeProfiles_loop]; [by eexists|].
  pose proof (normalizeProfile_throws p) as Hp.
  destruct (throwingProfile p); cbn [orb].
  - by rewrite Hp.
  - destruct Hp as [o ->]. cbn [bind].
    destruct (existsb throwingProfile r); [by rewrite IH|].
    destruct IH as [out ->]. by eexists.
Qed.

(** X7.  Among the inputs in which no object has a member named [toString],
    so that every conversion to a string or a number returns,
    [mergeWithDefaults] throws on exactly three kinds: [null]; an input with
    a launcher object whose [candidates] is truthy and neither an array nor
    a string; an input with a profile of non-empty id and label whose
    [pages] array holds [null].  On every other such input it returns a
    configuration. *)
Theorem mergeWithDefaults_throws_iff (bytes : list N) (raw : value) :
  plain raw = true ->
  (mergeWithDefaults bytes raw = Throw TypeError
   <-> raw = VNull
       \/ existsb throwingLauncher (rawLaunchers raw) = true
       \/ existsb throwingProfile (rawProfiles raw) = true)
  /\ (mergeWithDefaults bytes raw <> Throw TypeError ->
      exists y, mergeWithDefaults bytes raw = Ok y).
Proof.
  intros _.
  split; [|by destruct (result_cases (mergeWithDefaults bytes raw)) as [[y ->] | ->];
             [exists y|]].
  assert (raw = VNull \/ raw <> VNull /\ exists base, createDefaultConfig bytes raw = Ok base)
    as [-> | [Hnull [base Hb]]]
    by (destruct raw; first [by left|right; split; [discriminate|eexists; reflexivity]]).
  { split; [by left|done]. }
  unfold mergeWithDefaults. rewrite Hb. cbn [bind].
  unfold mergeAllLaunchers. rewrite !get_cfg.
  pose proof (mergeLaunchers_throws (rawLaunchers raw) (cfg_launchers base)) as Hl.
  assert (match get raw "launchers" with
          | Some ls => if is_object ls then mergeLaunchers (entries ls) (cfg_launchers base)
                       else Ok (cfg_launchers base)
          | None => Ok (cfg_launchers base)
          end
          = if is_empty_list (rawLaunchers raw) then Ok (cfg_launchers base)
            else mergeLaunchers (rawLaunchers raw) (cfg_launchers base)) as ->.
  { unfold rawLaunchers. destruct (get raw "launchers") as [ls|]; [|done].
    destruct (is_object ls); [|done]. by destruct (entries ls). }
  pose proof (normalizeProfiles_loop_throws (rawProfiles raw)) as Hp.
  assert (normalizeProfiles (get raw "profiles")
          = match rawProfiles raw with
            | [] => Ok getDefaultProfiles
            | l => out <- normalizeProfiles_loop l ;;
                   Ok (if is_empty_list out then getDefaultProfiles else out)
            end) as ->.
  { unfold normalizeProfiles, rawProfiles.
    by destruct (get raw "profiles") as [[| | | |[|p r]|]|]. }
  destruct (existsb throwingLauncher (rawLaunchers raw)) eqn:El.
  { destruct (rawLaunchers raw) as [|e r]; [done|]. cbn [is_empty_list].
    rewrite Hl. cbn [bind]. split; [|done]. intros _. right. by left. }
  assert (exists launchers,
            (if is_empty_list (rawLaunchers raw) then Ok (cfg_launchers base)
             else mergeLaunchers (rawLaunchers raw) (cfg_launchers base)) = Ok launchers)
    as [launchers ->].
  { destruct (rawLaunchers raw); [by eexists|exact Hl]. }
  cbn [bind].
  destruct (existsb throwingProfile (rawProfiles raw)) eqn:Ep.
  { destruct (rawProfiles raw) as [|p r]; [done|].
    rewrite Hp. cbn [bind]. split; [|done]. intros _. right. by right. }
  assert (exists profiles,
            match rawProfiles raw with
            | [] => Ok getDefaultProfiles
            | l => out <- normalizeProfiles_loop l ;;
                   Ok (if is_empty_list out then getDefaultProfiles else out)
            end = Ok profiles) as [profiles ->].
  { destruct (rawProfiles raw); [by eexists|]. destruct Hp as [out ->]. by eexists. }
  cbn [bind]. split; [done|]. by intros [?|[?|?]].
Qed.


(** *** Admission with any settings *)

(** X8.  Whatever the configuration holds, the limiter works with a window
    of at least 250 ms and a budget of at least 3 requests, and for a client
    with no budget in use it is exact: of the client's requests that arrive
    within one window of its first one, those up to the budget pass and all
    later ones are answered 429, whatever other clients send in between. *)
Theorem rateLimit_budget (cfg : Config) (ip : jsstring) (adm : Admission)
    (first : Request) (window : list (Z * Request)) (t1 : Z) :
  clientIp first = ip ->
  fresh cfg adm ip t1 ->
  Forall (fun e => e.1 - t1 <= rateWindow cfg) window ->
  250 <= rateWindow cfg /\ 3 <= rateMax cfg
  /\ forall j rq o,
       mine ip ((t1, first) :: window) (serve cfg ((t1, first) :: window) adm).2 !! j
       = Some (rq, o) ->
       o = if Z.of_nat j <? rateMax cfg then Next else rateLimited rq.
Proof.
  intros Hfirst Hfresh Hwin.
  assert (3 <= rateMax cfg) as HM by (unfold rateMax, setting_at_least; lia).
  split; [apply rateWindow_min|]. split; [done|].
  destruct (rateLimit_own cfg t1 first adm) as [Hown Hout]. rewrite Hfirst in Hown.
  assert ((if t1 - t0 (default (mkRateEntry t1 0) (rateState adm !! ip)) >? rateWindow cfg
           then mkRateEntry t1 0
           else default (mkRateEntry t1 0) (rateState adm !! ip)) = mkRateEntry t1 0) as He1.
  { pose proof (rateWindow_min cfg).
    destruct (rateState adm !! ip) as [e|] eqn:Ee; cbn [default from_option id t0].
    - specialize (Hfresh e Ee). by replace (t1 - t0 e >? rateWindow cfg) with true by lia.
    - by replace (t1 - t1 >? rateWindow cfg) with false by lia. }
  rewrite Hfirst in Hout. rewrite He1 in Hown, Hout. cbn [t0 n] in Hown, Hout.
  replace (0 + 1 >? rateMax cfg) with false in Hout by lia.
  cbn [serve fst snd].
  destruct (rateLimit cfg t1 first adm) as [adm1 o1] eqn:E1. cbn [fst snd] in Hown, Hout.
  destruct (serve_window cfg ip t1 window adm1 1 Hown Hwin) as [_ Hrest].
  destruct (serve cfg window adm1) as [adm2 os] eqn:E2. cbn [fst snd] in *.
  cbn [mine fst snd]. rewrite Hfirst, str_eqb_refl.
  intros [|j] rq o; cbn [lookup list_lookup].
  - intros [= <- <-]. rewrite Hout.
    destruct (Z.of_nat 0 <? rateMax cfg) eqn:E0; [done|].
    apply Z.ltb_ge in E0. cbn in E0. lia.
  - intros Hj. rewrite (Hrest _ _ _ Hj).
    destruct (Z.of_nat (S j) <? rateMax cfg) eqn:Ej.
    + apply Z.ltb_lt in Ej. by replace (1 + Z.of_nat j + 1 >? rateMax cfg) with false by lia.
    + apply Z.ltb_ge in Ej. by replace (1 + Z.of_nat j + 1 >? rateMax cfg) with true by lia.
Qed.

(** X9.  The rate-limit table is swept at least every 200 requests; a sweep
    leaves no entry older than four windows; and no request changes the
    entry of another client, nor removes one that is at most four windows
    old. *)
Theorem rateLimit_sweep (cfg : Config) (now : Z) (req : Request) (adm : Admission) :
  0 <= rateSweepCounter adm < 200 ->
  let adm' := (rateLimit cfg now req adm).1 in
  0 <= rateSweepCounter adm' < 200
  /\ (rateSweepCounter adm = 199 -> rateSweepCounter adm' = 0)
  /\ (rateSweepCounter adm' = 0 ->
      forall ip e, rateState adm' !! ip = Some e -> now - t0 e <= 4 * rateWindow cfg)
  /\ (forall ip e, ip <> clientIp req -> rateState adm' !! ip = Some e ->
        rateState adm !! ip = Some e)
  /\ (forall ip e, ip <> clientIp req -> rateState adm !! ip = Some e ->
        now - t0 e <= 4 * rateWindow cfg -> rateState adm' !! ip = Some e).
Proof.
  intros Hc adm'. subst adm'.
  split; [|split; [|split; [|split]]].
  - unfold rateLimit. cbn [fst].
    match goal with |- context [if ?c then mkAdmission _ _ else _] =>
      destruct c eqn:E; cbn [rateSweepCounter] end; [lia|].
    apply orb_false_iff in E as [E _]. lia.
  - intros H. unfold rateLimit. cbn [fst]. rewrite H.
    replace (199 + 1 >=? 200) with true by lia. done.
  - unfold rateLimit. fold (rateWindow cfg). cbn [fst].
    match goal with |- context [if ?c then mkAdmission _ _ else _] =>
      destruct c eqn:E; cbn [rateSweepCounter rateState] end; [|lia].
    intros _ ip e He. apply map_lookup_filter_Some in He as [_ He]. cbn [snd] in He. lia.
  - intros ip e Hne He.
    destruct (rateLimit_other cfg now req adm ip Hne) as [[H|H] _]; congruence.
  - intros ip e Hne He Hage.
    destruct (rateLimit_other cfg now req adm ip Hne) as [_ H]. by apply H.
Qed.

Lemma TOKEN_CHARS_plain :
  forallb (fun c => negb (is_ws c) && negb (is_control c)) TOKEN_CHARS = true.
Proof. by vm_compute. Qed.

Lemma randomToken_plain (bytes : list N) :
  Forall (fun c => is_ws c = false /\ is_control c = false) (randomToken bytes).
Proof.
  unfold randomToken. apply List.Forall_forall. intros c Hc.
  apply list_elem_of_In, list_elem_of_fmap in Hc as (b & -> & _).
  pose proof TOKEN_CHARS_plain as H. rewrite forallb_forall in H.
  specialize (H (nth (N.to_nat (b mod N.of_nat (length TOKEN_CHARS))) TOKEN_CHARS 0%N)).
  apply andb_prop in H as [H1 H2].
  - split; by apply negb_true_iff.
  - apply nth_In.
    assert (b mod N.of_nat (length TOKEN_CHARS) < N.of_nat (length TOKEN_CHARS))%N
      by (apply N.mod_lt; by vm_compute).
    lia.
Qed.

Lemma plain_trim (s : jsstring) : Forall (fun c => is_ws c = false) s -> trim s = s.
Proof.
  intros H. apply trim_fix.
  - by destruct H.
  - unfold no_trail. apply Forall_rev in H. by destruct H.
Qed.

Lemma plain_safeTrimStr (s : jsstring) (maxLen : nat) :
  Forall (fun c => is_ws c = false /\ is_control c = false) s ->
  (length s <= maxLen)%nat ->
  safeTrimStr s maxLen = s.
Proof.
  intros H Hlen. unfold safeTrimStr.
  rewrite plain_trim by (eapply Forall_impl; [exact H|by intros c [? ?]]).
  rewrite strip_controls_id by (eapply Forall_impl; [exact H|by intros c [? ?]]).
  by apply take_ge.
Qed.

(** X17.  The token [randomToken] generates authenticates: when the
    configuration holds it, a request that presents it in the [x-token]
    header, or in the [token] query parameter without such a header, passes
    [requireToken]. *)
Theorem generated_token_accepted (bytes : list N) (cfg : Config) (req : Request) :
  bytes <> [] ->
  (length bytes <= 512)%nat ->
  cfg_token cfg = randomToken bytes ->
  req_header_token req = Some (randomToken bytes)
  \/ (req_header_token req = None /\ req_query_token req = Some (VStr (randomToken bytes))) ->
  requireToken cfg req = Next.
Proof.
  intros Hne Hlen Hcfg Hreq.
  assert (safeTrimStr (randomToken bytes) 512 = randomToken bytes) as Hsafe.
  { apply plain_safeTrimStr; [apply randomToken_plain|]. by rewrite randomToken_length. }
  assert (is_empty (randomToken bytes) = false) as Hnonempty.
  { apply is_empty_false. intros E. apply (f_equal (@length N)) in E.
    rewrite randomToken_length in E. by destruct bytes. }
  assert (readToken req = randomToken bytes) as Hread.
  { unfold readToken. destruct Hreq as [-> | [-> ->]]; cbn [default from_option id].
    - by rewrite Hsafe, Hnonempty.
    - change (safeTrimStr [] 512) with (@nil N). cbn [is_empty]. exact Hsafe. }
  unfold requireToken. rewrite Hread, Hnonempty, Hcfg.
  rewrite secureEqualText_bytes. by rewrite bool_decide_eq_true_2.
Qed.


(** *** Ranking and resolving programs *)

Lemma tokenScore_range (entry : ProgramEntry) (token : jsstring) :
  0 <= tokenScore entry token <= 352.
Proof.
  unfold tokenScore. cbv zeta.
  repeat match goal with |- context [if ?c then _ else _] => destruct c end; lia.
Qed.

Lemma fold_tokenScore_range (entry : ProgramEntry) (tokens : list jsstring) (acc : Z) :
  acc <= fold_left (fun acc token => acc + tokenScore entry token) tokens acc
      <= acc + 352 * Z.of_nat (length tokens).
Proof.
  revert acc. induction tokens as [|t r IH]; intros acc; cbn [fold_left length]; [lia|].
  pose proof (tokenScore_range entry t). specialize (IH (acc + tokenScore entry t)). lia.
Qed.

(** X18.  The score of an index entry is never below the priority of its
    source and exceeds it by at most 352 points for each word of the query;
    for a blank query it is the priority itself. *)
Theorem scoreProgram_bounds (entry : ProgramEntry) (query : jsstring) :
  let q := toLowerCase (trim query) in
  programSourcePriority (entry_source entry) <= scoreProgram entry query
  /\ scoreProgram entry query
     <= programSourcePriority (entry_source entry) + 352 * Z.of_nat (length (words q))
  /\ (q = [] -> scoreProgram entry query = programSourcePriority (entry_source entry)).
Proof.
  cbv zeta. unfold scoreProgram. cbv zeta.
  pose proof (fold_tokenScore_range entry (words (toLowerCase (trim query)))
                (programSourcePriority (entry_source entry))) as H.
  destruct (is_empty (toLowerCase (trim query))) eqn:E.
  - split; [lia|]. split; [lia|done].
  - split; [lia|]. split; [lia|]. intros Hq. by rewrite Hq in E.
Qed.

Lemma sort_insert_In (x y : Ranked) (l : list Ranked) :
  In y (sort_insert x l) <-> y = x \/ In y l.
Proof.
  induction l as [|z r IH]; cbn [sort_insert].
  - split; [intros [->|[]]; by left|intros [->|[]]; by left].
  - destruct (rankCompare x z <? 0); cbn [In].
    + split; [intros [->|H]; [by left|by right]|intros [->|H]; [by left|by right]].
    + rewrite IH. split.
      * intros [H|[H|H]]; [right; by left|by left|right; by right].
      * intros [H|[H|H]]; [right; by left|by left|right; by right].
Qed.

Lemma sortRanked_In (y : Ranked) (l : list Ranked) : In y (sortRanked l) <-> In y l.
Proof.
  unfold sortRanked.
  assert (forall acc, In y (fold_left (fun acc x => sort_insert x acc) l acc)
                      <-> In y acc \/ In y l) as H.
  { induction l as [|x r IH]; intros acc; cbn [fold_left].
    - split; [by left|by intros [K|[]]].
    - rewrite IH, sort_insert_In. cbn [In]. split.
      + intros [[->|K]|K]; [right; by left|by left|right; by right].
      + intros [K|[->|K]]; [left; by right|left; by left|by right]. }
  rewrite H. split; [by intros [[]|K]|by right].
Qed.

Lemma rankCompare_neg (x y : Ranked) : rankCompare x y < 0 -> ranked_score y <= ranked_score x.
Proof. unfold rankCompare. destruct (_ =? 0) eqn:E; lia. Qed.

Lemma rankCompare_nonneg (x y : Ranked) :
  0 <= rankCompare x y -> ranked_score x <= ranked_score y.
Proof. unfold rankCompare. destruct (_ =? 0) eqn:E; lia. Qed.

Lemma descending_cons (a : Ranked) (l : list Ranked) :
  descending (a :: l) <-> (forall b, head l = Some b -> ranked_score b <= ranked_score a)
                          /\ descending l.
Proof.
  destruct l as [|b r]; cbn [descending head].
  - split; [by split|done].
  - split.
    + intros [H1 H2]. split; [by intros ? [= <-]|done].
    + intros [H1 H2]. split; [by apply H1|done].
Qed.

Lemma sort_insert_descending (x : Ranked) (l : list Ranked) :
  descending l -> descending (sort_insert x l).
Proof.
  induction l as [|z r IH]; intros Hl; [done|]. cbn [sort_insert].
  destruct (rankCompare x z <? 0) eqn:E.
  - apply Z.ltb_lt in E. apply descending_cons. split; [|done].
    intros b [= <-]. by apply rankCompare_neg.
  - apply Z.ltb_ge in E. apply descending_cons in Hl as [Hhead Hr].
    apply descending_cons. split; [|by apply IH].
    intros b Hb. destruct r as [|w r']; cbn [sort_insert head] in Hb.
    + injection Hb as <-. by apply rankCompare_nonneg.
    + destruct (rankCompare x w <? 0); cbn [head] in Hb; injection Hb as <-.
      * by apply rankCompare_nonneg.
      * by apply Hhead.
Qed.

Lemma sortRanked_descending (l : list Ranked) : descending (sortRanked l).
Proof.
  unfold sortRanked.
  assert (forall acc, descending acc ->
                      descending (fold_left (fun acc x => sort_insert x acc) l acc)) as H.
  { induction l as [|x r IH]; intros acc Hacc; [done|].
    cbn [fold_left]. by apply IH, sort_insert_descending. }
  by apply H.
Qed.

Lemma take_descending (k : nat) (l : list Ranked) : descending l -> descending (take k l).
Proof.
  revert k. induction l as [|a r IH]; intros [|k] Hl; try done.
  cbn [take]. apply descending_cons in Hl as [Hhead Hr].
  apply descending_cons. split; [|by apply IH].
  intros b Hb. apply Hhead. destruct r as [|w r'], k; try done.
Qed.

Lemma rankLimit_range (limit : number) : (1 <= rankLimit limit <= 100)%nat.
Proof.
  unfold rankLimit.
  destruct (if num_truthy limit then limit else num_of_Z 25) as [q| |[|]]; [|lia..].
  assert (1 <= Qfloor (Qmax (inject_Z 1) (Qmin (inject_Z 100) q)) <= 100) as H.
  { split.
    - rewrite <- (Qfloor_Z 1). apply Qfloor_resp_le, Q.le_max_l.
    - rewrite <- (Qfloor_Z 100). apply Qfloor_resp_le, Q.max_lub; [discriminate|].
      apply Q.le_min_l. }
  lia.
Qed.

Lemma rankLimit_integer (k : Z) : 1 <= k <= 100 -> rankLimit (num_of_Z k) = Z.to_nat k.
Proof.
  intros H. unfold rankLimit, num_of_Z, num_truthy. cbn [inject_Z Qnum].
  destruct (Z.eqb_spec k 0) as [->|_]; [lia|]. cbn [negb].
  rewrite Q.min_r, Q.max_r, Qfloor_Z; [done| |]; rewrite <- Zle_Qle; lia.
Qed.

(** X16.  [rankPrograms] returns at most [Math.max(1, Math.min(100,
    Number(limit) || 25))] rows, which is between 1 and 100 rows whatever
    [limit] is, [limit] itself for an integer from 1 to 100 and 25 for 0 and
    NaN.  The rows are in descending order of score; every row is an entry
    of the index with its own score for the query; and without weak
    matches, for a query that is not blank, every row scores above the
    priority of its source. *)
Theorem rankPrograms_spec (index : list ProgramEntry) (query : jsstring) (limit : number)
    (includeWeakMatches : bool) :
  let q := toLowerCase (safeTrimStr query 120) in
  let ranked := rankPrograms index query limit includeWeakMatches in
  (length ranked <= rankLimit limit)%nat
  /\ (1 <= rankLimit limit <= 100)%nat
  /\ (forall k, 1 <= k <= 100 -> rankLimit (num_of_Z k) = Z.to_nat k)
  /\ rankLimit (num_of_Z 0) = 25%nat /\ rankLimit NaN = 25%nat
  /\ descending ranked
  /\ (forall row, In row ranked ->
        In (ranked_entry row) index
        /\ ranked_score row = scoreProgram (ranked_entry row) q)
  /\ (includeWeakMatches = false -> q <> [] ->
      forall row, In row ranked ->
        programSourcePriority (entry_source (ranked_entry row)) < ranked_score row).
Proof.
  cbv zeta. unfold rankPrograms. cbv zeta.
  set (q := toLowerCase (safeTrimStr query 120)).
  set (rows := (fun entry => mkRanked entry (scoreProgram entry q)) <$> index).
  assert (forall row, In row (take (rankLimit limit) (sortRanked (List.filter
            (fun row => is_empty q || includeWeakMatches
               || (ranked_score row >? programSourcePriority (entry_source (ranked_entry row))))
            rows))) ->
          In row rows
          /\ is_empty q || includeWeakMatches
             || (ranked_score row >? programSourcePriority (entry_source (ranked_entry row)))
             = true) as Hin.
  { intros row Hrow. apply list_elem_of_In, elem_of_take in Hrow as (i & Hi & _).
    apply list_elem_of_lookup_2, list_elem_of_In, sortRanked_In, filter_In in Hi. done. }
  split; [rewrite length_take; lia|].
  split; [apply rankLimit_range|].
  split; [apply rankLimit_integer|].
  split; [reflexivity|]. split; [reflexivity|].
  split; [apply take_descending, sortRanked_descending|].
  split.
  - intros row Hrow. apply Hin in Hrow as [Hrow _].
    apply list_elem_of_In, list_elem_of_fmap in Hrow as (e & -> & He).
    split; [by apply list_elem_of_In|done].
  - intros -> Hq row Hrow. apply Hin in Hrow as [_ Hrow].
    apply is_empty_false in Hq. rewrite Hq in Hrow. cbn [orb] in Hrow. lia.
Qed.

Lemma chooseBestProgramMatch_first (ranked : list Ranked) :
  chooseBestProgramMatch ranked = []
  \/ exists first, head ranked = Some first
                   /\ chooseBestProgramMatch ranked = entry_path (ranked_entry first).
Proof.
  destruct ranked as [|first [|second rest]]; cbn [chooseBestProgramMatch head].
  - by left.
  - right. by exists first.
  - destruct (_ >=? _); [right; by exists first|].
    destruct (_ && _); [right; by exists first|by left].
Qed.

Lemma findCommandOnPath_exists (input : jsstring) :
  is_empty (findCommandOnPath input) = false -> fileExists (findCommandOnPath input) = true.
Proof.
  unfold findCommandOnPath. cbv zeta.
  destruct (_ || _); [done|].
  match goal with |- context [List.find fileExists ?l] =>
    destruct (List.find fileExists l) as [p|] eqn:Ef end; [|done].
  intros _. by apply find_some in Ef as [_ ?].
Qed.

(** X11.  [findCommandOnPath] returns the empty string or an existing file
    directly under an existing directory of [PATH], named as the input or as
    the input with one of the four executable extensions; an input with a
    backslash, a slash or a colon gives the empty string. *)
Theorem findCommandOnPath_spec (input : jsstring) :
  let raw := safeTrimStr input 120 in
  let r := findCommandOnPath input in
  (r = []
   \/ fileExists r = true
      /\ exists dir name,
           r = path_join [dir; name] /\ dirExists dir = true
           /\ In dir (trim <$> split 59 (default [] (env (js "PATH"))))
           /\ In name [raw; raw ++ js ".exe"; raw ++ js ".cmd"; raw ++ js ".bat";
                       raw ++ js ".com"])
  /\ (includes raw (js "\") || includes raw (js "/") || includes raw (js ":") = true ->
      r = []).
Proof.
  cbv zeta. unfold findCommandOnPath. cbv zeta.
  set (raw := safeTrimStr input 120).
  destruct (is_empty raw) eqn:Ee; cbn [orb]; [split; [by left|done]|].
  destruct (includes raw (js "\") || includes raw (js "/") || includes raw (js ":")) eqn:Es;
    [split; [by left|done]|].
  split; [|done].
  match goal with |- context [List.find fileExists ?l] =>
    destruct (List.find fileExists l) as [p|] eqn:Ef end; [|by left].
  right. apply find_some in Ef as [Hin Hex]. split; [done|].
  apply in_concat in Hin as (group & Hgroup & Hp).
  apply list_elem_of_In, list_elem_of_fmap in Hgroup as (dir & -> & Hdir).
  apply list_elem_of_In, list_elem_of_fmap in Hp as (name & -> & Hname).
  apply list_elem_of_In, filter_In in Hdir as [Hdir Hok].
  apply andb_prop in Hok as [_ Hok].
  exists dir, name. split; [done|]. split; [done|]. split; [done|].
  apply list_elem_of_In in Hname.
  destruct (includes raw (js ".")); cbn [In] in Hname |- *.
  - destruct Hname as [<-|[]]. by left.
  - right. exact Hname.
Qed.

(** X10.  [resolveProgramPath] never makes up a path: its result is the
    empty string, or the expanded input when that is an existing launchable
    file, or what [findCommandOnPath] finds for it, or the path of an entry
    of the index; a blank input gives the empty string. *)
Theorem resolveProgramPath_sound (index : list ProgramEntry) (input : jsstring) :
  let expanded := expandEnv (unquoteWrapped (safeTrimStr input 2048)) in
  let r := resolveProgramPath index input in
  (r = []
   \/ (r = expanded /\ fileExists r = true /\ isAppLaunchFilePath r = true)
   \/ (r = findCommandOnPath expanded /\ fileExists r = true)
   \/ exists e, In e index /\ r = entry_path e)
  /\ (unquoteWrapped (safeTrimStr input 2048) = [] -> r = []).
Proof.
  cbv zeta. unfold resolveProgramPath. cbv zeta.
  set (expanded := expandEnv (unquoteWrapped (safeTrimStr input 2048))).
  destruct (is_empty (unquoteWrapped (safeTrimStr input 2048))) eqn:Eraw.
  { split; [by left|done]. }
  split; [|intros E; by rewrite E in Eraw].
  destruct (fileExists expanded && isAppLaunchFilePath expanded) eqn:Efile.
  { apply andb_prop in Efile as [? ?]. right. by left. }
  destruct (is_empty (findCommandOnPath expanded)) eqn:Epath; cbn [negb].
  2: { right. right. left. split; [done|]. by apply findCommandOnPath_exists. }
  assert (forall row, In row (rankPrograms index expanded 8 true) ->
                      In (ranked_entry row) index) as Hrows.
  { intros row Hrow. unfold rankPrograms in Hrow. cbv zeta in Hrow.
    apply list_elem_of_In, elem_of_take in Hrow as (i & Hi & _).
    apply list_elem_of_lookup_2, list_elem_of_In, sortRanked_In, filter_In in Hi as [Hi _].
    apply list_elem_of_In, list_elem_of_fmap in Hi as (e & -> & He).
    by apply list_elem_of_In. }
  assert (forall e, In e (ranked_entry <$> rankPrograms index expanded 8 true) ->
                    In e index) as Hcands.
  { intros e He. apply list_elem_of_In, list_elem_of_fmap in He as (row & -> & Hrow).
    by apply Hrows, list_elem_of_In. }
  destruct (is_empty_list (rankPrograms index expanded 8 true)); [by left|].
  destruct (List.find (exactMatch (toLowerCase expanded)) _) as [exact|] eqn:Ex.
  { apply find_some in Ex as [Hin _]. do 3 right. exists exact. split; [by apply Hcands|done]. }
  destruct (List.find (exeNameMatch (toLowerCase expanded)) _) as [byExe|] eqn:Eb.
  { apply find_some in Eb as [Hin _]. do 3 right. exists byExe. split; [by apply Hcands|done]. }
  destruct (chooseBestProgramMatch_first (rankPrograms index expanded 8 true))
    as [->|(first & Hfirst & ->)]; [by left|].
  do 3 right. exists (ranked_entry first). split; [|done].
  apply Hrows. destruct (rankPrograms index expanded 8 true); [done|].
  injection Hfirst as <-. by left.
Qed.

(** X20.  [normalizeProtocolTarget] returns the empty string or its trimmed
    argument, which then starts with a scheme, holds no white space and no
    NUL and has at most 2048 code units; it maps its own result to
    itself. *)
Theorem normalizeProtocolTarget_spec (s : jsstring) :
  let r := normalizeProtocolTarget s in
  (r = []
   \/ r = trim s /\ has_scheme_prefix r = true /\ has_ws r = false /\ has_nul r = false
      /\ len r <= MAX_PATH_LEN)
  /\ normalizeProtocolTarget r = r.
Proof.
  cbv zeta.
  assert (normalizeProtocolTarget s = []
          \/ normalizeProtocolTarget s = trim s /\ has_scheme_prefix (trim s) = true
             /\ has_ws (trim s) = false /\ has_nul (trim s) = false
             /\ len (trim s) <= MAX_PATH_LEN /\ is_empty (trim s) = false) as H.
  { unfold normalizeProtocolTarget. cbv zeta.
    destruct (is_empty (trim s)) eqn:E1; cbn [orb]; [by left|].
    destruct (len (trim s) >? MAX_PATH_LEN) eqn:E2; cbn [orb]; [by left|].
    destruct (has_nul (trim s)) eqn:E3; [by left|].
    destruct (has_scheme_prefix (trim s)) eqn:E4; cbn [negb]; [|by left].
    destruct (has_ws (trim s)) eqn:E5; [by left|].
    right. repeat split; try done. lia. }
  destruct H as [->|(-> & H1 & H2 & H3 & H4 & H5)].
  - split; [by left|done].
  - split; [right; by repeat split|].
    unfold normalizeProtocolTarget. cbv zeta. rewrite trim_idemp, H5, H3, H1, H2.
    replace (len (trim s) >? MAX_PATH_LEN) with false by lia. done.
Qed.


(** *** Backup, launchers *)

Lemma renameSync_other (faults : nat -> option nat) (src dst q : jsstring) (d : Disk) :
  q <> dst -> q <> src -> files (renameSync faults src dst d).2 !! q = files d !! q.
Proof.
  intros Hd Hs. unfold renameSync, fs_call.
  destruct (faults (calls d)); cbn [snd files]; [done|].
  destruct (files d !! src); [|done].
  by rewrite lookup_insert_ne, lookup_delete_ne.
Qed.

(** X14.  When the configuration file exists and the backup copy does not
    fail, the backup file holds after [persistConfig] what the configuration
    file held before, whether the write and the rename that follow succeed or
    not.  The temporary path is taken to differ from the backup path. *)
Theorem persistConfig_backup (faults : nat -> option nat) (pid now : N)
    (CONFIG_PATH json old : jsstring) (d : Disk) :
  path_join [path_dirname CONFIG_PATH; tmpName CONFIG_PATH pid now] <> CONFIG_PATH ++ js ".bak" ->
  files d !! CONFIG_PATH = Some old ->
  faults (calls d) = None ->
  files (persistConfig faults pid now CONFIG_PATH json d).2 !! (CONFIG_PATH ++ js ".bak")
  = Some old.
Proof.
  intros Htmp Hold Hcopy.
  set (tmpPath := path_join [path_dirname CONFIG_PATH; tmpName CONFIG_PATH pid now]) in *.
  set (bak := CONFIG_PATH ++ js ".bak") in *.
  pose proof (backup_distinct CONFIG_PATH) as Hbak. fold bak in Hbak.
  unfold persistConfig, fs_bind. fold bak.
  rewrite bool_decide_eq_true_2 by (by rewrite Hold).
  unfold fs_try, copyFileSync at 1, fs_call at 1. rewrite Hcopy, Hold.
  set (d1 := mkDisk (<[bak:=old]> (files d)) (S (calls d))).
  assert (files d1 !! bak = Some old) as K1 by (cbn [d1 files]; apply lookup_insert_eq).
  clearbody d1. rewrite <- K1.
  unfold writeJsonAtomic, fs_bind. fold tmpPath.
  destruct ((if dirExists (path_dirname CONFIG_PATH) then fs_ret tt
             else mkdirSync faults (path_dirname CONFIG_PATH)) d1) as [r2 d2] eqn:E2.
  assert (files d2 !! bak = files d1 !! bak) as K2.
  { destruct (dirExists _); [by injection E2 as <- <-|].
    unfold mkdirSync, fs_call in E2. by destruct (faults (calls d1)); injection E2 as <- <-. }
  rewrite <- K2. destruct r2 as [[]|e]; [|done].
  pose proof (writeFileSync_other faults tmpPath json bak d2 (not_eq_sym Htmp)) as K3.
  destruct (writeFileSync faults tmpPath json d2) as [[[]|e] d3]; cbn [snd] in K3;
    rewrite <- K3; [|done].
  apply renameSync_other; [done|by apply not_eq_sym].
Qed.

Lemma uniq_nonempty (l : list value) (v : jsstring) : In v (uniq l) -> v <> [].
Proof.
  intros H. destruct (uniq_loop_spec l [] NoDup_nil_2) as [_ M].
  apply M in H as [[]|[H _]]. done.
Qed.

(** X21.  Autodetection of a launcher keeps its label and its candidates, and
    it never stores a path that does not exist: the path stays as it is or
    becomes the non-empty path of an existing file. *)
Theorem autodetectLauncher_spec (l : Launcher) :
  launcher_label (autodetectLauncher l) = launcher_label l
  /\ launcher_candidates (autodetectLauncher l) = launcher_candidates l
  /\ (launcher_path (autodetectLauncher l) = launcher_path l
      \/ exists p, launcher_path (autodetectLauncher l) = VStr p
                   /\ p <> [] /\ fileExists p = true).
Proof.
  unfold autodetectLauncher. cbv zeta.
  destruct (is_empty (expandEnv (str_or_empty (Some (launcher_path l))))) eqn:Ec;
    cbn [negb andb].
  2: destruct (fileExists (expandEnv (str_or_empty (Some (launcher_path l))))) eqn:Ef.
  2: { cbn [launcher_label launcher_candidates launcher_path].
       split; [done|]. split; [done|]. right. eexists. split; [done|].
       split; [by apply is_empty_false|done]. }
  all: destruct (List.find fileExists _) as [found|] eqn:E;
    [|split; [done|]; split; [done|]; by left];
    cbn [launcher_label launcher_candidates launcher_path];
    (split; [done|]); (split; [done|]); right; exists found;
    apply find_some in E as [Hin Hex]; (split; [done|]); split; [|done];
    by eapply uniq_nonempty.
Qed.

Lemma mergeLaunchers_keeps (es : list (jsstring * value)) (k : jsstring) :
  forall merged m, mergeLaunchers es merged = Ok m ->
                   is_Some (merged !! k) -> is_Some (m !! k).
Proof.
  induction es as [|[key v] r IH]; intros merged m; cbn [mergeLaunchers].
  { by intros [= <-]. }
  destruct (mergeLauncher merged (key, v)) as [m1|] eqn:E1; [|done]. cbn [bind].
  intros Hm Hk. eapply IH; [exact Hm|].
  unfold mergeLauncher in E1. destruct (negb (is_object v)); [by injection E1 as <-|].
  destruct (spread_or_empty (get v "candidates")); [|done]. cbn [bind] in E1.
  injection E1 as <-. apply lookup_insert_is_Some'. by right.
Qed.

(** X22.  Every configuration [mergeWithDefaults] returns has the launchers
    [vscode], [wow] and [obs], so the launcher key of every built-in tile
    names a launcher of the configuration. *)
Theorem mergeWithDefaults_launchers (bytes : list N) (raw : value) (y : Config) :
  mergeWithDefaults bytes raw = Ok y ->
  (forall k, In k [js "vscode"; js "wow"; js "obs"] -> is_Some (cfg_launchers y !! k))
  /\ forall d k, In d getDefaultTiles -> tile_launcherKey d = Some k ->
       is_Some (cfg_launchers y !! k).
Proof.
  intros Hm.
  apply mergeWithDefaults_inv in Hm as (base & launchers & Hb & Hl & _ & _ & _ & _ & _ & _ & _
                                        & _ & _ & Hls).
  assert (forall k, In k [js "vscode"; js "wow"; js "obs"] -> is_Some (cfg_launchers y !! k))
    as Hkeys.
  { intros k Hk.
    assert (is_Some (cfg_launchers base !! k)) as Hbase.
    { destruct raw; try done; injection Hb as <-; cbn [cfg_launchers];
        unfold getDefaultLaunchers; cbv zeta; cbn [list_to_map foldr];
        (destruct Hk as [<-|[<-|[<-|[]]]];
         [by rewrite lookup_insert_eq
         |rewrite lookup_insert_ne by done; by rewrite lookup_insert_eq
         |rewrite !lookup_insert_ne by done; by rewrite lookup_insert_eq]). }
    assert (is_Some (launchers !! k)) as Hmerged.
    { unfold mergeAllLaunchers in Hl.
      destruct (get raw "launchers") as [ls|]; [|by injection Hl as <-].
      destruct (is_object ls); [|by injection Hl as <-].
      by eapply mergeLaunchers_keeps. }
    rewrite Hls. destruct DISABLE_AUTODETECT; [done|].
    rewrite lookup_fmap. by apply fmap_is_Some. }
  split; [done|].
  intros d k Hd Hk. apply Hkeys. cbn in Hd.
  repeat (destruct Hd as [<-|Hd];
          [cbn in Hk;
           first [discriminate Hk
                 |injection Hk as <-;
                  first [by left|right; by left|right; right; by left]]|]).
  by destruct Hd.
Qed.

(** *** Input checks and the settings routes *)

Lemma includes_unit (s : jsstring) (c : N) : includes s [c] = false -> ~ In c s.
Proof.
  induction s as [|a s IH]; [intros _ []|].
  cbn [includes startsWith]. intros H [->|Hin].
  - rewrite N.eqb_refl in H. by destruct s.
  - apply orb_false_elim in H as [_ H]. by apply IH.
Qed.

Lemma is_empty_nil (s : jsstring) : is_empty s = true <-> s = [].
Proof. by destruct s. Qed.

Lemma str_or_empty_VStr (s : jsstring) : str_or_empty (Some (VStr s)) = s.
Proof. by destruct s. Qed.

(** The conversions with their exception, by cases. *)
Lemma str_or_emptyE_cases (o : option value) :
  str_or_emptyE o = if unconvertible o then Throw TypeError else Ok (str_or_empty o).
Proof.
  unfold str_or_emptyE, unconvertible, str_or_empty. destruct o as [v|]; [|done].
  destruct (truthy v); [|done]. by destruct (convertible v).
Qed.

Lemma safeTrimE_cases (o : option value) (maxLen : nat) :
  safeTrimE o maxLen = if unconvertible o then Throw TypeError else Ok (safeTrim o maxLen).
Proof.
  unfold safeTrimE, safeTrim. rewrite str_or_emptyE_cases. by destruct (unconvertible o).
Qed.

Lemma assertSafeInput_cases (input : option value) (label : string) (maxLen : Z) :
  match assertSafeInput input label maxLen with
  | inl accepted =>
      unconvertible input = false
      /\ accepted = trim (str_or_empty input) /\ has_nul accepted = false
      /\ (accepted = [] \/ len accepted <= maxLen)
  | inr Conversion => unconvertible input = true
  | inr (Failure message) =>
      unconvertible input = false
      /\ trim (str_or_empty input) <> []
      /\ (has_nul (trim (str_or_empty input)) = true
            /\ message = js label ++ js " ungueltig"
          \/ has_nul (trim (str_or_empty input)) = false
             /\ maxLen < len (trim (str_or_empty input))
             /\ message = js label ++ js " zu lang")
  end.
Proof.
  unfold assertSafeInput. rewrite str_or_emptyE_cases.
  destruct (unconvertible input); [done|]. cbv zeta.
  destruct (is_empty (trim (str_or_empty input))) eqn:Ee.
  { apply is_empty_nil in Ee. rewrite Ee. repeat split; auto. }
  assert (trim (str_or_empty input) <> []) as Hne by (intros E; by rewrite E in Ee).
  destruct (has_nul (trim (str_or_empty input))) eqn:En.
  { split; [done|]. split; [done|]. by left. }
  destruct (Z.gtb_spec (len (trim (str_or_empty input))) maxLen).
  - split; [done|]. split; [done|]. by right.
  - repeat split; auto.
Qed.

(** X23.  [assertSafeInput] throws the [TypeError] of [String] exactly when
    its argument cannot be converted (a truthy value that holds an object
    with a member [toString]).  Otherwise it returns the trimmed text of its
    argument, free of NUL and within the limit unless it is empty, and
    accepts its own result again unchanged; or it throws an [Error],
    "<label> ungueltig" exactly for a text with a NUL and "<label> zu lang"
    exactly for a NUL-free text over the limit. *)
Theorem assertSafeInput_spec (input : option value) (label : string) (maxLen : Z) :
  let text := trim (str_or_empty input) in
  match assertSafeInput input label maxLen with
  | inl accepted =>
      unconvertible input = false
      /\ accepted = text /\ trim accepted = accepted /\ has_nul accepted = false
      /\ (accepted = [] \/ len accepted <= maxLen)
      /\ assertSafeInput (Some (VStr accepted)) label maxLen = inl accepted
  | inr Conversion => unconvertible input = true
  | inr (Failure message) =>
      unconvertible input = false
      /\ text <> []
      /\ (has_nul text = true /\ message = js label ++ js " ungueltig"
          \/ has_nul text = false /\ maxLen < len text
             /\ message = js label ++ js " zu lang")
  end.
Proof.
  cbv zeta. set (text := trim (str_or_empty input)).
  assert (forall a, a = text -> has_nul a = false -> (a = [] \/ len a <= maxLen) ->
                    assertSafeInput (Some (VStr a)) label maxLen = inl a) as Hid.
  { intros a -> Hn Hl. unfold assertSafeInput. rewrite str_or_emptyE_cases.
    cbn [unconvertible convertible negb andb]. rewrite andb_false_r.
    cbv zeta. rewrite str_or_empty_VStr.
    unfold text. rewrite trim_idemp. fold text.
    destruct (is_empty text) eqn:Ee; [apply is_empty_nil in Ee; by rewrite Ee|].
    rewrite Hn. destruct Hl as [E0|Hl]; [by rewrite E0 in Ee|].
    destruct (Z.gtb_spec (len text) maxLen) as [Hgt|_]; [|done].
    exfalso. clear -Hgt Hl. lia. }
  pose proof (assertSafeInput_cases input label maxLen) as Hc. fold text in Hc.
  destruct (assertSafeInput input label maxLen) as [accepted|[|message]]; [|done|done].
  destruct Hc as (Hu & -> & Hn & Hl).
  split; [done|]. split; [done|]. split; [apply trim_idemp|]. split; [done|].
  split; [done|]. by apply Hid.
Qed.

(** X24.  [POST /api/settings/wow-process] changes nothing but
    [wow.processName].  A [processName] that cannot be converted to a
    string makes the handler throw: the answer is 500 "internal error" and
    the configuration is left alone.  Otherwise it answers 400 and leaves
    the configuration alone when the cleaned name is empty or holds a slash
    or a backslash; or it stores the name (1 to 120 units, no control
    character, no slash, no backslash) and answers 200 when the write
    succeeded and 500 when it failed, the configuration in memory keeping
    the new name in both cases. *)
Theorem settingsWowProcess_spec (persisted : bool) (config : Config) (req : Request) :
  let raw := get_opt (req_body req) "processName" in
  let name := safeTrim raw 120 in
  let '(config', res) := settingsWowProcess persisted config req in
  (unconvertible raw = true
   /\ res = json_error req 500 "internal error" /\ config' = config)
  \/ (unconvertible raw = false
      /\ res_status res = 400 /\ config' = config
      /\ (name = [] \/ In 92%N name \/ In 47%N name))
  \/ (unconvertible raw = false
      /\ res_status res = (if persisted then 200 else 500)
      /\ config' = with_wow config (mkWow (VStr name) (wow_folders (cfg_wow config)))
      /\ name <> [] /\ (length name <= 120)%nat
      /\ Forall (fun c => is_control c = false) name
      /\ ~ In 92%N name /\ ~ In 47%N name).
Proof.
  cbv zeta. unfold settingsWowProcess. rewrite safeTrimE_cases.
  destruct (unconvertible (get_opt (req_body req) "processName")) eqn:Eu.
  { left. by repeat split. }
  destruct (safeTrim_clean (get_opt (req_body req) "processName") 120) as [Hlen Hclean].
  set (name := safeTrim (get_opt (req_body req) "processName") 120) in *.
  destruct (is_empty name) eqn:Ee.
  { right. left. apply is_empty_nil in Ee. split; [done|]. split; [done|].
    split; [done|]. by left. }
  destruct (includes name (js "\")) eqn:Eb; cbn [orb].
  { right. left. split; [done|]. split; [done|]. split; [done|]. right. left.
    clear -Eb. induction name as [|a s IH]; [done|].
    cbn [includes startsWith js] in Eb. apply orb_prop in Eb as [Eb|Eb].
    - left. apply andb_prop in Eb as [Eb _]. by apply N.eqb_eq in Eb.
    - right. by apply IH. }
  destruct (includes name (js "/")) eqn:Es.
  { right. left. split; [done|]. split; [done|]. split; [done|]. right. right.
    clear -Es. induction name as [|a s IH]; [done|].
    cbn [includes startsWith js] in Es. apply orb_prop in Es as [Es|Es].
    - left. apply andb_prop in Es as [Es _]. by apply N.eqb_eq in Es.
    - right. by apply IH. }
  assert (name <> []) as Hne by (intros E; by rewrite E in Ee).
  apply includes_unit in Eb, Es.
  destruct persisted; right; right; repeat split; auto.
Qed.

(** X25.  [POST /api/settings/wow-folder] changes nothing but the folder its
    key names.  A [key] that cannot be converted to a string makes the
    handler throw: the answer is 500 "internal error".  A [path] that
    cannot be converted is answered 400 with the message of the runtime's
    [TypeError], and a path with a NUL or over 2048 units is refused with
    400, all before the key is looked at; an unknown key is refused with
    400.  In these cases the configuration is left alone.  Otherwise the
    named folder becomes the trimmed path with its environment variables
    expanded (an empty path clears it), the other folders and the process
    name stay, and the answer is 200 or, when the write failed, 500 with
    the new folder kept in memory. *)
Theorem settingsWowFolder_spec (persisted : bool) (config : Config) (req : Request) :
  let rawKey := get_opt (req_body req) "key" in
  let rawPath := get_opt (req_body req) "path" in
  let key := safeTrim rawKey 32 in
  let requested := trim (str_or_empty rawPath) in
  let '(config', res) := settingsWowFolder persisted config req in
  (unconvertible rawKey = true
   /\ res = json_error req 500 "internal error" /\ config' = config)
  \/ (unconvertible rawKey = false /\ unconvertible rawPath = true
      /\ res = json_fail req 400 (thrownText Conversion) /\ config' = config)
  \/ (unconvertible rawKey = false /\ unconvertible rawPath = false
      /\ res_status res = 400 /\ config' = config
      /\ (has_nul requested = true \/ MAX_PATH_LEN < len requested
          \/ ~ In key WOW_FOLDER_KEYS))
  \/ (unconvertible rawKey = false /\ unconvertible rawPath = false
      /\ res_status res = (if persisted then 200 else 500)
      /\ has_nul requested = false /\ len requested <= MAX_PATH_LEN
      /\ In key WOW_FOLDER_KEYS
      /\ (exists wow', config' = with_wow config wow'
                       /\ wow_processName wow' = wow_processName (cfg_wow config))
      /\ wowFolder key config' = VStr (expandEnv requested)
      /\ forall other, In other WOW_FOLDER_KEYS -> other <> key ->
                       wowFolder other config' = wowFolder other config).
Proof.
  cbv zeta. unfold settingsWowFolder. rewrite safeTrimE_cases.
  destruct (unconvertible (get_opt (req_body req) "key")) eqn:Euk.
  { left. by repeat split. }
  pose proof (assertSafeInput_cases (get_opt (req_body req) "path") "path" MAX_PATH_LEN) as Hc.
  set (key := safeTrim (get_opt (req_body req) "key") 32) in *.
  set (requested := trim (str_or_empty (get_opt (req_body req) "path"))) in *.
  destruct (assertSafeInput (get_opt (req_body req) "path") "path" MAX_PATH_LEN)
    as [accepted|[|message]].
  2: { right. left. by repeat split. }
  2: { right. right. left. destruct Hc as (Hup & _ & Hc).
       split; [done|]. split; [done|]. split; [done|]. split; [done|].
       destruct Hc as [[Hc _]|(_ & Hc & _)]; [by left|right; by left]. }
  destruct Hc as (Hup & -> & Hnul & Hlen).
  assert (len requested <= MAX_PATH_LEN) as Hlen'.
  { destruct Hlen as [E|?]; [|done]. by rewrite E. }
  assert ((if is_empty requested then [] else expandEnv requested) = expandEnv requested) as ->.
  { destruct (is_empty requested) eqn:Ee; [|done]. apply is_empty_nil in Ee. by rewrite Ee. }
  unfold WOW_FOLDER_KEYS, wowFolder.
  destruct (str_eqb key (js "addons")) eqn:E1.
  { pose proof (bool_decide_eq_true_1 _ E1) as E1'.
    destruct persisted; right; right; right;
      cbn [fst snd res_status wow_folders cfg_wow with_wow wf_addons wf_logs wf_wtf];
      (split; [done|]; split; [done|]; split; [done|]; split; [done|]; split; [done|];
       split; [left; by rewrite E1'|];
       split; [by eexists|]; split; [done|];
       intros other Ho Hne; rewrite E1' in Hne;
       destruct Ho as [<-|[<-|[<-|[]]]]; first [done|reflexivity]). }
  destruct (str_eqb key (js "logs")) eqn:E2.
  { pose proof (bool_decide_eq_true_1 _ E2) as E2'.
    destruct persisted; right; right; right;
      cbn [fst snd res_status wow_folders cfg_wow with_wow wf_addons wf_logs wf_wtf];
      (split; [done|]; split; [done|]; split; [done|]; split; [done|]; split; [done|];
       split; [right; left; by rewrite E2'|];
       split; [by eexists|]; split; [done|];
       intros other Ho Hne; rewrite E2' in Hne;
       destruct Ho as [<-|[<-|[<-|[]]]]; first [done|reflexivity]). }
  destruct (str_eqb key (js "wtf")) eqn:E3.
  { pose proof (bool_decide_eq_true_1 _ E3) as E3'.
    destruct persisted; right; right; right;
      cbn [fst snd res_status wow_folders cfg_wow with_wow wf_addons wf_logs wf_wtf];
      (split; [done|]; split; [done|]; split; [done|]; split; [done|]; split; [done|];
       split; [right; right; left; by rewrite E3'|];
       split; [by eexists|]; split; [done|];
       intros other Ho Hne; rewrite E3' in Hne;
       destruct Ho as [<-|[<-|[<-|[]]]]; first [done|reflexivity]). }
  right. right. left. split; [done|]. split; [done|]. split; [done|]. split; [done|].
  right. right.
  intros [E|[E|[E|[]]]]; rewrite <- E in E1, E2, E3; clear -E1 E2 E3;
    [by vm_compute in E1|by vm_compute in E2|by vm_compute in E3].
Qed.

(** X26.  [POST /api/programs/resolve] never changes the configuration.  An
    [input] that cannot be converted to a string is answered 400 with the
    message of the runtime's [TypeError].  Otherwise the answer is 200 with
    a non-empty path, which is what [resolveProgramPath] gives for the
    trimmed input; 404 when that is the empty string; and 400 when the
    trimmed input is empty, holds a NUL or is over 240 units. *)
Theorem programsResolve_spec (index : list ProgramEntry) (config : Config) (req : Request) :
  let raw := get_opt (req_body req) "input" in
  let input := trim (str_or_empty raw) in
  let '(config', res) := programsResolve index config req in
  config' = config
  /\ (unconvertible raw = true /\ res = json_fail req 400 (thrownText Conversion)
      \/ unconvertible raw = false /\ res_status res = 400
         /\ (input = [] \/ has_nul input = true \/ 240 < len input)
      \/ unconvertible raw = false
         /\ input <> [] /\ has_nul input = false /\ len input <= 240
         /\ (res_status res = 404 /\ resolveProgramPath index input = []
             \/ res_status res = 200 /\ resolveProgramPath index input <> []
                /\ res_body res
                   = VObj [ (js "ok", VBool true);
                            (js "path", VStr (resolveProgramPath index input)) ])).
Proof.
  cbv zeta. unfold programsResolve.
  pose proof (assertSafeInput_cases (get_opt (req_body req) "input") "input" 240) as Hc.
  set (input := trim (str_or_empty (get_opt (req_body req) "input"))) in *.
  destruct (assertSafeInput (get_opt (req_body req) "input") "input" 240)
    as [accepted|[|message]].
  2: { split; [done|]. left. by split. }
  2: { split; [done|]. right. left. destruct Hc as (Hu & _ & Hc).
       split; [done|]. split; [done|].
       destruct Hc as [[Hc _]|(_ & Hc & _)]; [right; by left|right; by right]. }
  destruct Hc as (Hu & -> & Hnul & Hlen). cbv zeta.
  destruct (is_empty input) eqn:Ee.
  { split; [done|]. right. left. split; [done|]. split; [done|]. left. by apply is_empty_nil. }
  assert (input <> []) as Hne by (intros E; by rewrite E in Ee).
  destruct Hlen as [?|Hlen]; [done|].
  destruct (is_empty (resolveProgramPath index input)) eqn:Er.
  - split; [done|]. right. right. split; [done|]. split; [done|]. split; [done|].
    split; [done|]. left. split; [done|]. by apply is_empty_nil.
  - split; [done|]. right. right. split; [done|]. split; [done|]. split; [done|].
    split; [done|]. right. split; [done|]. split; [|done]. intros E. by rewrite E in Er.
Qed.

(** *** Templates *)

Lemma split_loop_app (k rest cur : jsstring) :
  ~ In 46%N k -> split_loop 46 (k ++ rest) cur = split_loop 46 rest (cur ++ k).
Proof.
  revert cur. induction k as [|c k IH]; intros cur Hk.
  - by rewrite app_nil_r.
  - cbn [app split_loop]. destruct (N.eqb_spec c 46) as [->|_].
    + exfalso. apply Hk. by left.
    + rewrite IH by (intros ?; apply Hk; by right).
      by rewrite <- app_assoc.
Qed.

Lemma split_join (parts : list jsstring) :
  parts <> [] -> Forall segment parts -> split 46 (join [46%N] parts) = parts.
Proof.
  induction parts as [|k parts IH]; [done|]. intros _ Hs.
  apply Forall_cons in Hs as [[_ Hk] Hs]. unfold split in *.
  destruct parts as [|k' parts].
  - cbn [join]. rewrite <- (app_nil_r k) at 1. rewrite split_loop_app by done. done.
  - change (join [46%N] (k :: k' :: parts)) with (k ++ 46%N :: join [46%N] (k' :: parts)).
    rewrite split_loop_app by done. cbn [split_loop app N.eqb Pos.eqb].
    by rewrite IH.
Qed.

Lemma getByPath_loop_own (parts : list jsstring) (obj v : value) :
  own_path obj parts = Some v -> getByPath_loop (Data obj) parts = Data v.
Proof.
  revert obj. induction parts as [|k parts IH]; intros obj H; cbn [own_path] in H.
  - by injection H as ->.
  - destruct obj; try done. cbn [getByPath_loop is_object member].
    destruct (assoc k fields) as [w|]; [|done].
    destruct parts as [|k' parts]; [cbn [own_path] in H; by injection H as ->|].
    by apply IH.
Qed.

Lemma filter_segments (parts : list jsstring) :
  Forall segment parts -> List.filter (fun part => negb (is_empty part)) parts = parts.
Proof.
  induction 1 as [|k parts [Hk _] _ IH]; [done|].
  cbn [List.filter]. destruct k; [done|]. cbn [is_empty negb]. by rewrite IH.
Qed.

Lemma getByPath_path (obj v : value) (parts : list jsstring) :
  Forall segment parts -> own_path obj parts = Some v ->
  getByPath obj (join [46%N] parts) = Data v.
Proof.
  intros Hs H. unfold getByPath. destruct parts as [|k parts].
  - cbn in H |- *. by injection H as ->.
  - rewrite split_join by done. rewrite filter_segments by done.
    by apply getByPath_loop_own.
Qed.

Lemma templateKey_wrap (inner : jsstring) :
  inner <> [] -> existsb is_line_terminator inner = false ->
  templateKey (js "{{" ++ inner ++ js "}}") = Some inner.
Proof.
  intros Hne Hlt. unfold templateKey.
  assert (startsWith (js "{{" ++ inner ++ js "}}") (js "{{") = true) as ->
    by (by destruct inner).
  assert (endsWith (js "{{" ++ inner ++ js "}}") (js "}}") = true) as ->.
  { unfold endsWith. rewrite !rev_app_distr, <- !app_assoc. by destruct (rev inner). }
  assert ((5 <=? len (js "{{" ++ inner ++ js "}}")) = true) as ->.
  { apply Z.leb_le. unfold len. rewrite !length_app. destruct inner; [done|].
    cbn [length js]. clear. cbn. lia. }
  cbn [andb].
  assert (take (length (js "{{" ++ inner ++ js "}}") - 4) (drop 2 (js "{{" ++ inner ++ js "}}"))
          = inner) as ->.
  { change (drop 2 (js "{{" ++ inner ++ js "}}")) with (inner ++ js "}}").
    rewrite !length_app.
    replace (length (js "{{") + (length inner + length (js "}}")) - 4)%nat
      with (length inner) by (cbn; clear; lia).
    by rewrite take_app_length. }
  by rewrite Hlt.
Qed.

(** X27.  A template [{{a.b.c}}] (blanks around the path allowed) reads the
    value that the path of own properties reaches in the configuration:
    [getByPath] returns that value, and [resolveTemplate] gives its text
    with the environment variables expanded when it is a string, and the
    empty string when it is anything else. *)
Theorem resolveTemplate_path (config v : value) (parts : list jsstring) (inner : jsstring) :
  Forall segment parts ->
  inner <> [] ->
  existsb is_line_terminator inner = false ->
  trim inner = join [46%N] parts ->
  own_path config parts = Some v ->
  getByPath config (trim inner) = Data v
  /\ resolveTemplate (VStr (js "{{" ++ inner ++ js "}}")) config
     = match v with VStr got => expandEnv got | _ => [] end.
Proof.
  intros Hs Hne Hlt Hkey Hown.
  assert (getByPath config (trim inner) = Data v) as Hget.
  { rewrite Hkey. by apply getByPath_path. }
  split; [done|].
  unfold resolveTemplate. rewrite templateKey_wrap by done. by rewrite Hget.
Qed.

(** X29.  The folder tiles and the protocol tile among the built-in tiles
    follow the settings: whatever the configuration, the workspace tile
    opens [workspaceDir], the three WoW folder tiles open the folders of
    [wow.folders] (the empty string for a folder that is not a string), each
    with its environment variables expanded and one pair of wrapping quotes
    removed, and the Discord tile opens [discord://]. *)
Theorem builtin_tile_targets (c : Config) (d : Tile) :
  In d getDefaultTiles ->
  let folder v := unquoteWrapped (expandEnv (text_of v)) in
  (tile_id d = js "workspace" ->
   resolveTileTarget c d = folder (VStr (cfg_workspaceDir c)))
  /\ (tile_id d = js "wowAddons" ->
      resolveTileTarget c d = folder (wf_addons (wow_folders (cfg_wow c))))
  /\ (tile_id d = js "wowLogs" ->
      resolveTileTarget c d = folder (wf_logs (wow_folders (cfg_wow c))))
  /\ (tile_id d = js "wowWtf" ->
      resolveTileTarget c d = folder (wf_wtf (wow_folders (cfg_wow c))))
  /\ (tile_id d = js "discord" -> resolveTileTarget c d = js "discord://").
Proof.
  intros Hin folder. subst folder.
  assert (forall v, match v with VStr got => expandEnv got | _ => [] end = expandEnv (text_of v))
    as Htext by (by intros []).
  cbn [In getDefaultTiles] in Hin.
  repeat (destruct Hin as [<-|Hin];
          [repeat split; intros Hid; first [by vm_compute in Hid | idtac]|]);
    [..|done].
  - change (unquoteWrapped
              (match wf_addons (wow_folders (cfg_wow c)) with
               | VStr got => expandEnv got | _ => [] end)
            = unquoteWrapped (expandEnv (text_of (wf_addons (wow_folders (cfg_wow c)))))).
    by rewrite Htext.
  - change (unquoteWrapped
              (match wf_logs (wow_folders (cfg_wow c)) with
               | VStr got => expandEnv got | _ => [] end)
            = unquoteWrapped (expandEnv (text_of (wf_logs (wow_folders (cfg_wow c)))))).
    by rewrite Htext.
  - change (unquoteWrapped
              (match wf_wtf (wow_folders (cfg_wow c)) with
               | VStr got => expandEnv got | _ => [] end)
            = unquoteWrapped (expandEnv (text_of (wf_wtf (wow_folders (cfg_wow c)))))).
    by rewrite Htext.
Qed.

Lemma startsWith_prefix (s p : jsstring) : startsWith s p = true -> exists r, s = p ++ r.
Proof.
  revert s. induction p as [|a p IH]; intros s H; [by exists s|].
  destruct s as [|b s]; [done|]. cbn [startsWith] in H.
  apply andb_prop in H as [Hab H]. apply N.eqb_eq in Hab as ->.
  destruct (IH _ H) as [r ->]. by exists r.
Qed.

Lemma startsWith_app (p r : jsstring) : startsWith (p ++ r) p = true.
Proof.
  induction p as [|a p IH]; [by destruct r|].
  cbn [app startsWith]. by rewrite N.eqb_refl, IH.
Qed.

Lemma includes_app (a p r : jsstring) : includes (a ++ p ++ r) p = true.
Proof.
  induction a as [|c a IH].
  - cbn [app]. destruct (p ++ r) eqn:E; cbn [includes]; rewrite <- E, startsWith_app; done.
  - cbn [app includes]. rewrite IH. apply orb_true_r.
Qed.

(** X28.  [hasTemplateSyntax] covers every template: a string for which it
    is false is not a template of [resolveTemplate], which then only
    expands its environment variables. *)
Theorem hasTemplateSyntax_covers (s : jsstring) (config : value) :
  hasTemplateSyntax s = false ->
  templateKey s = None /\ resolveTemplate (VStr s) config = expandEnv s.
Proof.
  intros H.
  assert (templateKey s = None) as Hkey.
  { unfold templateKey. destruct (startsWith s (js "{{")) eqn:Es; [|done].
    destruct (endsWith s (js "}}")) eqn:Ee; [|done]. exfalso.
    apply startsWith_prefix in Es as [r Hr].
    unfold endsWith in Ee. apply startsWith_prefix in Ee as [b Hb].
    apply (f_equal (@rev N)) in Hb. rewrite rev_involutive, rev_app_distr, rev_involutive in Hb.
    unfold hasTemplateSyntax in H.
    assert (includes s (js "{{") = true) as E1.
    { rewrite Hr. apply (includes_app [] (js "{{") r). }
    assert (includes s (js "}}") = true) as E2.
    { rewrite Hb. replace (rev b ++ js "}}") with (rev b ++ js "}}" ++ [])
        by (by rewrite app_nil_r).
      apply includes_app. }
    by rewrite E1, E2 in H. }
  split; [done|]. unfold resolveTemplate. by rewrite Hkey.
Qed.

(** *** Command lines *)

Lemma non_ws_run_spec (s : jsstring) :
  s = (non_ws_run s).1 ++ (non_ws_run s).2
  /\ Forall (fun c => is_ws c = false) (non_ws_run s).1
  /\ match (non_ws_run s).2 with [] => True | c :: _ => is_ws c = true end.
Proof.
  induction s as [|c s (IH1 & IH2 & IH3)]; [done|].
  cbn [non_ws_run]. destruct (is_ws c) eqn:Ec; [done|].
  destruct (non_ws_run s) as [run rest]. cbn [fst snd] in *.
  split; [by rewrite IH1 at 1|]. split; [by constructor|done].
Qed.

Lemma words_loop_run (s cur : jsstring) :
  cur <> [] ->
  words_loop s cur = (cur ++ (non_ws_run s).1) :: words_loop (non_ws_run s).2 [].
Proof.
  revert cur. induction s as [|c s IH]; intros cur Hcur.
  - cbn. rewrite app_nil_r. by destruct cur.
  - cbn [words_loop non_ws_run]. destruct (is_ws c) eqn:Ec.
    + cbn [fst snd words_loop]. rewrite Ec, app_nil_r. by destruct cur.
    + rewrite IH by (by destruct cur). destruct (non_ws_run s) as [run rest].
      cbn [fst snd]. by rewrite <- app_assoc.
Qed.

Lemma parseCommandArgs_loop_words (fuel : nat) (s : jsstring) :
  (length s <= fuel)%nat -> quoteFree s ->
  parseCommandArgs_loop fuel s = words s
  /\ Forall (fun x => x <> []) (words s).
Proof.
  revert s. induction fuel as [|fuel IH]; intros s Hlen [Hq Ha].
  { destruct s; [done|]. cbn in Hlen. lia. }
  destruct s as [|c r]; [done|].
  assert (quoteFree r) as Hr.
  { split; intros ?; [apply Hq|apply Ha]; by right. }
  assert ((length r <= fuel)%nat) as Hlr by (cbn in Hlen; lia).
  cbn [parseCommandArgs_loop].
  destruct (N.eqb_spec c 34) as [->|_]; [exfalso; apply Hq; by left|].
  destruct (N.eqb_spec c 39) as [->|_]; [exfalso; apply Ha; by left|].
  cbn [orb]. unfold words. cbn [words_loop].
  destruct (is_ws c) eqn:Ec; [by apply IH|].
  cbn [non_ws_run]. rewrite Ec. cbn [is_empty app].
  rewrite (words_loop_run r [c]) by done.
  destruct (non_ws_run_spec r) as (Hsplit & _ & _).
  destruct (non_ws_run r) as [run rest]. cbn [fst snd] in *.
  assert ((length rest <= fuel)%nat) as Hlrest.
  { rewrite Hsplit, length_app in Hlr. lia. }
  assert (quoteFree rest) as Hrest.
  { destruct Hr as [H1 H2]. rewrite Hsplit in H1, H2.
    split; intros ?; [apply H1|apply H2]; apply in_or_app; by right. }
  destruct (IH rest Hlrest Hrest) as [E F]. unfold words in E, F.
  rewrite E. split; [done|]. by constructor.
Qed.

Lemma until_quote_spec (q : N) (inner rest : jsstring) :
  ~ In q inner -> until_quote q (inner ++ q :: rest) = Some (inner, rest).
Proof.
  induction inner as [|c inner IH]; intros H; cbn [app until_quote].
  - by rewrite N.eqb_refl.
  - destruct (N.eqb_spec c q) as [->|_]; [exfalso; apply H; by left|].
    rewrite IH by (intros ?; apply H; by right). done.
Qed.

Lemma until_quote_shorter (q : N) (s inner rest : jsstring) :
  until_quote q s = Some (inner, rest) -> (length rest < length s)%nat.
Proof.
  revert inner. induction s as [|c s IH]; intros inner H; [done|].
  cbn [until_quote] in H. destruct (c =? q)%N.
  - injection H as _ <-. cbn. lia.
  - destruct (until_quote q s) as [[i r]|]; [|done]. injection H as _ <-.
    specialize (IH _ eq_refl). cbn. lia.
Qed.

Lemma parseCommandArgs_loop_fuel (fuel : nat) (s : jsstring) :
  (length s <= fuel)%nat ->
  parseCommandArgs_loop fuel s = parseCommandArgs_loop (length s) s.
Proof.
  remember (length s) as k eqn:Hk. revert s fuel Hk.
  induction (lt_wf k) as [k _ IH]. intros s fuel -> Hlen.
  destruct s as [|c r]; [by destruct fuel|].
  destruct fuel as [|fuel]; [cbn in Hlen; lia|].
  cbn [length parseCommandArgs_loop].
  assert (forall rest, (length rest <= length r)%nat ->
                       parseCommandArgs_loop fuel rest
                       = parseCommandArgs_loop (length r) rest) as Hrest.
  { intros rest Hle.
    rewrite (IH (length rest) ltac:(cbn; lia) rest fuel eq_refl ltac:(cbn in Hlen; lia)).
    by rewrite (IH (length rest) ltac:(cbn; lia) rest (length r) eq_refl Hle). }
  destruct (if (c =? 34)%N || (c =? 39)%N then until_quote c r else None)
    as [[inner rest]|] eqn:Eq.
  - destruct ((c =? 34)%N || (c =? 39)%N); [|done].
    apply until_quote_shorter in Eq. rewrite Hrest by lia. done.
  - destruct (is_ws c) eqn:Ec; [by rewrite Hrest|].
    cbn [non_ws_run]. rewrite Ec.
    destruct (non_ws_run_spec r) as (Hsplit & _ & _).
    destruct (non_ws_run r) as [run rest]. cbn [fst snd] in *.
    apply (f_equal (@length N)) in Hsplit. rewrite length_app in Hsplit.
    rewrite Hrest; [done|]. lia.
Qed.

(** X30.  [parseCommandArgs] never returns an empty argument.  A command
    line without quotation marks and apostrophes is split at its white
    space, like [split(/\s+/)]; a part wrapped in a pair of quotation marks
    or of apostrophes is one argument with its white space kept and the
    marks removed; and fuel beyond the length of the text changes
    nothing. *)
Theorem parseCommandArgs_spec (rawInput : option value) :
  let raw := safeTrim rawInput 2048 in
  Forall (fun x => x <> []) (parseCommandArgs rawInput)
  /\ (quoteFree raw -> parseCommandArgs rawInput = words raw)
  /\ (forall q inner rest,
        q = 34%N \/ q = 39%N -> ~ In q inner -> raw = q :: inner ++ q :: rest ->
        parseCommandArgs rawInput
        = List.filter (fun x => negb (is_empty x))
            (inner :: parseCommandArgs_loop (length rest) rest))
  /\ (forall fuel, (length raw <= fuel)%nat ->
                   parseCommandArgs_loop fuel raw = parseCommandArgs_loop (length raw) raw).
Proof.
  cbv zeta. unfold parseCommandArgs. cbv zeta.
  set (raw := safeTrim rawInput 2048).
  split; [|split; [|split]].
  - destruct (is_empty raw); [done|].
    apply List.Forall_forall. intros x Hx. apply filter_In in Hx as [_ Hx].
    intros ->. done.
  - intros Hq. destruct (parseCommandArgs_loop_words (length raw) raw) as [E F]; [done|done|].
    destruct (is_empty raw) eqn:Ee; [apply is_empty_nil in Ee; by rewrite Ee|].
    rewrite E. clear E. induction F as [|x l Hx _ IH]; [done|].
    cbn [List.filter]. destruct x; [done|]. cbn [is_empty negb]. by rewrite IH.
  - intros q inner rest Hq Hin ->. cbn [is_empty length parseCommandArgs_loop].
    assert (((q =? 34)%N || (q =? 39)%N) = true) as ->.
    { destruct Hq as [-> | ->]; done. }
    rewrite until_quote_spec by done.
    rewrite (parseCommandArgs_loop_fuel _ rest); [done|].
    rewrite length_app. cbn. lia.
  - intros fuel Hlen. by apply parseCommandArgs_loop_fuel.
Qed.

End Server.

(** ** Instances on the concrete host *)

(** [mergeWithDefaults] on the concrete host, launcher autodetection on. *)
Abbreviation demoMerge :=
  (mergeWithDefaults DemoHost.num_to_string DemoHost.string_to_num DemoHost.url_parse
    DemoHost.env DemoHost.cwd DemoHost.fileExists DemoHost.path_join false).

(** C1 fails as stated: merging a configuration whose [profiles] list holds
    one valid user profile returns that profile alone, so the built-in
    profile [work] is absent. *)
Lemma builtin_profiles_not_unioned :
  exists y, demoMerge Samples.randomBytes Samples.userProfiles = Ok y
            /\ profile_id <$> cfg_profiles y = [js "mine"]
            /\ ~ In (js "work") (profile_id <$> cfg_profiles y).
Proof.
  eexists. split; [reflexivity|]. split; [reflexivity|].
  intros [H|[]]. discriminate H.
Qed.

(** The user's profile [mine] and its page [p1] are kept. *)
Lemma mergeWithDefaults_profiles_witness :
  exists y q, demoMerge Samples.randomBytes Samples.userProfiles = Ok y
              /\ In q (cfg_profiles y)
              /\ profile_id q = js "mine"
              /\ In (mkPage (js "p1") (js "P1")) (profile_pages q).
Proof.
  pose proof (mergeWithDefaults_profiles DemoHost.num_to_string DemoHost.string_to_num
                DemoHost.url_parse DemoHost.env DemoHost.cwd DemoHost.fileExists
                DemoHost.path_join false Samples.randomBytes Samples.userProfiles) as T.
  eexists. specialize (T _ eq_refl). destruct T as (_ & T & _).
  destruct (T eq_refl) as [_ K].
  destruct (K _ (or_introl eq_refl) eq_refl) as (q & Hq & Hid & _ & Hp).
  exists q. split; [reflexivity|]. split; [exact Hq|]. split; [exact Hid|].
  exact (Hp _ (or_introl eq_refl) eq_refl).
Defined.


(** *** A second merge *)

(** C3 fails as stated: merging the configuration [mergeWithDefaults({})]
    returns again gives another configuration, in which the built-in tile
    [vscode] has gained the fields [showIf] and [iconData]. *)
Lemma second_merge_changes_tiles :
  exists y y', demoMerge Samples.randomBytes (VObj []) = Ok y
               /\ demoMerge Samples.randomBytes (encode y) = Ok y'
               /\ y' <> y
               /\ tile_iconData <$> head (cfg_tiles y) = Some None
               /\ tile_iconData <$> head (cfg_tiles y') = Some (Some []).
Proof.
  eexists _, _. split; [reflexivity|]. split; [vm_compute; reflexivity|].
  split; [|split; reflexivity].
  intros E. apply (f_equal cfg_tiles) in E. vm_compute in E. discriminate E.
Qed.

(** On [{}] the second merge keeps the token and the profiles, and its
    tiles are the completed built-in tiles. *)
Lemma mergeWithDefaults_second_pass_witness :
  exists y y', demoMerge Samples.randomBytes (VObj []) = Ok y
               /\ demoMerge Samples.randomBytes (encode y) = Ok y'
               /\ cfg_token y' = cfg_token y
               /\ cfg_profiles y' = cfg_profiles y
               /\ cfg_tiles y' = completeTile <$> getDefaultTiles.
Proof.
  destruct (demoMerge Samples.randomBytes (VObj [])) as [y|e] eqn:E;
    [|vm_compute in E; discriminate E].
  assert (12 <= length Samples.randomBytes)%nat as Hlen by (vm_compute; lia).
  destruct (mergeWithDefaults_second_pass DemoHost.num_to_string DemoHost.string_to_num
              DemoHost.url_parse DemoHost.env DemoHost.cwd DemoHost.fileExists
              DemoHost.path_join false Samples.randomBytes Samples.randomBytes (VObj []) y
              eq_refl Hlen E)
    as (y' & Hm & _ & _ & Htok & _ & _ & _ & _ & Hprof & _ & Htiles).
  exists y, y'. split; [reflexivity|]. split; [exact Hm|]. split; [exact Htok|].
  split; [exact Hprof|]. by apply Htiles.
Defined.

(** *** Admission *)

(** C4 fails as stated: the sixth request inside the window is answered 429,
    and that response carries no [Retry-After] header. *)
Lemma sixth_request_has_no_retry_after :
  (serve Samples.limitedConfig ((0, Samples.demoRequest) :: Samples.demoTrace) (mkAdmission ∅ 0)).2 !! 5%nat
  = Some (Respond (json_error Samples.demoRequest 429 "rate limited"))
  /\ header_get "Retry-After" (res_headers (json_error Samples.demoRequest 429 "rate limited")) = None.
Proof. split; vm_compute; reflexivity. Qed.

(** Six requests inside one window, then one after it. *)
Lemma rate_limit_boundary_witness :
  (rateLimit Samples.limitedConfig 1500 Samples.demoRequest
     (serve Samples.limitedConfig ((0, Samples.demoRequest) :: Samples.demoTrace) (mkAdmission ∅ 0)).1).2 = Next
  /\ mine (js "10.0.0.7") ((0, Samples.demoRequest) :: Samples.demoTrace)
       (serve Samples.limitedConfig ((0, Samples.demoRequest) :: Samples.demoTrace) (mkAdmission ∅ 0)).2 !! 5%nat
     = Some (Samples.demoRequest, rateLimited Samples.demoRequest).
Proof.
  pose proof (rate_limit_boundary Samples.limitedConfig (js "10.0.0.7") (mkAdmission ∅ 0)
                Samples.demoRequest Samples.demoRequest Samples.demoTrace [] 0 1500
                eq_refl eq_refl eq_refl eq_refl) as T.
  cbv zeta in T. destruct T as (Hm & _ & Hn & _).
  - intros e He. vm_compute in He. discriminate He.
  - unfold Samples.demoTrace. repeat constructor; cbn; lia.
  - constructor.
  - lia.
  - split; [exact Hn|].
    destruct (mine (js "10.0.0.7") ((0, Samples.demoRequest) :: Samples.demoTrace)
                (serve Samples.limitedConfig ((0, Samples.demoRequest) :: Samples.demoTrace)
                   (mkAdmission ∅ 0)).2 !! 5%nat) as [[rq o]|] eqn:E.
    + rewrite (Hm _ _ _ E). vm_compute in E. injection E as <- _. reflexivity.
    + vm_compute in E. discriminate E.
Defined.

(** The token of the configuration passes. *)
Lemma requireToken_spec_witness :
  requireToken Samples.limitedConfig Samples.demoRequest = Next.
Proof.
  destruct (requireToken_spec Samples.limitedConfig Samples.demoRequest)
    as (_ & _ & _ & _ & H & _).
  refine (proj2 (H (js "secret-token-123") _ eq_refl eq_refl eq_refl (or_introl eq_refl))
            eq_refl).
  discriminate.
Defined.

(** C5 fails as stated.  A configuration keeps the token
    [secret-token-123] followed by a space as it is, and the request that
    presents exactly that token is answered 401; and a request that presents
    the token of a configuration followed by a control character and a
    space, which is another token, passes. *)
Lemma unclean_token_rejected :
  (exists y, demoMerge Samples.randomBytes
               (VObj [(js "token", VStr (js "secret-token-123 "))]) = Ok y
             /\ cfg_token y = js "secret-token-123 "
             /\ requireToken y (Samples.queryRequest (js "secret-token-123 "))
                = Respond (json_error (Samples.queryRequest (js "secret-token-123 ")) 401
                             "unauthorized: token mismatch"))
  /\ js "secret-token-123" ++ [1; 32]%N <> cfg_token Samples.limitedConfig
  /\ requireToken Samples.limitedConfig
       (Samples.queryRequest (js "secret-token-123" ++ [1; 32]%N)) = Next.
Proof.
  split; [|split].
  - eexists. split; [vm_compute; reflexivity|]. split; vm_compute; reflexivity.
  - discriminate.
  - vm_compute. reflexivity.
Qed.

(** A request without a token is answered 401 and the state stays as it
    is. *)
Lemma token_check_precedes_rate_limit_witness :
  route (tilesDelete DemoHost.num_to_string true) 0 (Samples.requestWith None None)
    (mkServerState Samples.limitedConfig (mkAdmission ∅ 0))
  = (mkServerState Samples.limitedConfig (mkAdmission ∅ 0),
     json_error (Samples.requestWith None None) 401 "unauthorized: missing token").
Proof.
  exact (proj1 (proj1 (token_check_precedes_rate_limit
                         (tilesDelete DemoHost.num_to_string true) 0
                         (Samples.requestWith None None)
                         (mkServerState Samples.limitedConfig (mkAdmission ∅ 0))) _ eq_refl)).
Defined.

(** *** Built-in tiles *)



(** *** Program resolution *)

Abbreviation demoResolve :=
  (resolveProgramPath DemoHost.toLowerCase DemoHost.localeCompare DemoHost.env
    DemoHost.fileExists DemoHost.dirExists DemoHost.path_join DemoHost.path_basename
    DemoHost.path_extname DemoHost.path_basename_ext).

Abbreviation demoScore := (scoreProgram DemoHost.toLowerCase).

(** C7 fails as stated: the launcher entry and the Start Menu entry earn the
    same textual score for [foo bar], and the resolver returns the path of
    the Start Menu entry. *)
Lemma start_menu_entry_preferred :
  demoScore Samples.fooBarista (js "foo bar") - 120 = demoScore Samples.fooBar (js "foo bar") - 80
  /\ demoResolve [Samples.fooBar; Samples.fooBarista] (js "foo bar") = entry_path Samples.fooBar
  /\ entry_path Samples.fooBar <> entry_path Samples.fooBarista.
Proof. split; [|split]; [vm_compute; reflexivity | vm_compute; reflexivity | discriminate]. Qed.

(** When both entries match [code] exactly, the launcher entry is
    returned. *)
Lemma resolveProgramPath_equal_text_witness :
  demoResolve [Samples.codeShortcut; Samples.codeLauncher] (js "code")
  = entry_path Samples.codeLauncher.
Proof.
  refine (proj2 (resolveProgramPath_equal_text DemoHost.toLowerCase DemoHost.localeCompare
            DemoHost.env DemoHost.fileExists DemoHost.dirExists DemoHost.path_join
            DemoHost.path_basename DemoHost.path_extname DemoHost.path_basename_ext
            [Samples.codeShortcut; Samples.codeLauncher] Samples.codeLauncher
            Samples.codeShortcut (js "code") (or_intror eq_refl) eq_refl eq_refl _ _ eq_refl eq_refl)).
  - vm_compute. reflexivity.
  - discriminate.
Defined.

(** *** Persistence *)

(** A failing rename leaves the old content in place. *)
Lemma persistConfig_atomic_witness :
  files (persistConfig DemoHost.dirExists DemoHost.path_join DemoHost.path_basename
           DemoHost.path_dirname Samples.renameFails 4242 1700000000000 Samples.demoConfigPath (js "{ new }")
           Samples.demoDisk).2 !! Samples.demoConfigPath
  = Some (js "{ old }").
Proof.
  refine (proj2 (persistConfig_atomic DemoHost.dirExists DemoHost.path_join
                   DemoHost.path_basename DemoHost.path_dirname Samples.renameFails 4242 1700000000000
                   Samples.demoConfigPath (js "{ new }") Samples.demoDisk _) _).
  - vm_compute. reflexivity.
  - vm_compute. discriminate.
Defined.


(** *** Further instances *)

(** The protocol tile [discord://] is accepted, with a known type and a
    target that starts with a scheme. *)
Lemma normalizeTile_valid_witness :
  exists t, normalizeTile DemoHost.num_to_string DemoHost.url_parse Samples.discordTile = Some t
            /\ In (tile_type t) TILE_TYPES
            /\ exists p, tile_target t = Some p /\ has_scheme_prefix p = true.
Proof.
  destruct (normalizeTile DemoHost.num_to_string DemoHost.url_parse Samples.discordTile)
    as [t|] eqn:E; [|vm_compute in E; discriminate E].
  assert (tile_type t = js "protocol") as Htype.
  { pose proof E as E'. vm_compute in E'. injection E' as E'. rewrite <- E'. reflexivity. }
  pose proof (normalizeTile_valid DemoHost.num_to_string DemoHost.url_parse
                Samples.discordTile t E) as T.
  cbv zeta in T.
  destruct T as (_ & _ & _ & _ & _ & _ & Hin & _ & _ & _ & _ & _ & _ & _ & _ & Hp).
  destruct (Hp Htype) as (p & Hp1 & Hp2 & _).
  exists t. split; [reflexivity|]. split; [exact Hin|]. exists p. by split.
Defined.

(** The configuration merged from [{}] is within its bounds. *)
Lemma mergeWithDefaults_bounds_witness :
  exists y, demoMerge Samples.randomBytes (VObj []) = Ok y
            /\ 0 < cfg_port y <= 65535
            /\ 3 <= rl_max (cfg_rateLimit y)
            /\ 12 <= len (cfg_token y).
Proof.
  destruct (demoMerge Samples.randomBytes (VObj [])) as [y|e] eqn:E;
    [|vm_compute in E; discriminate E].
  destruct (mergeWithDefaults_bounds DemoHost.num_to_string DemoHost.string_to_num
              DemoHost.url_parse DemoHost.env DemoHost.cwd DemoHost.fileExists
              DemoHost.path_join false Samples.randomBytes (VObj []) y E)
    as (Hport & _ & Hmax & _ & _ & _ & _ & _ & Htok).
  exists y. split; [reflexivity|]. split; [exact Hport|]. split; [exact Hmax|].
  apply Htok. vm_compute. lia.
Defined.

(** The profile of the user's configuration has a page. *)
Lemma mergeWithDefaults_profiles_shape_witness :
  exists y, demoMerge Samples.randomBytes Samples.userProfiles = Ok y
            /\ cfg_profiles y <> []
            /\ forall q, In q (cfg_profiles y) -> profile_pages q <> [].
Proof.
  destruct (demoMerge Samples.randomBytes Samples.userProfiles) as [y|e] eqn:E;
    [|vm_compute in E; discriminate E].
  destruct (mergeWithDefaults_profiles_shape DemoHost.num_to_string DemoHost.string_to_num
              DemoHost.url_parse DemoHost.env DemoHost.cwd DemoHost.fileExists
              DemoHost.path_join false Samples.randomBytes Samples.userProfiles y E)
    as (Hne & Hall).
  exists y. split; [reflexivity|]. split; [exact Hne|].
  intros q Hq. destruct (Hall q Hq) as (_ & _ & Hpages & _). exact Hpages.
Defined.

(** The configuration merged from [{}] has the launcher [vscode]. *)
Lemma mergeWithDefaults_launchers_witness :
  exists y, demoMerge Samples.randomBytes (VObj []) = Ok y
            /\ is_Some (cfg_launchers y !! js "vscode").
Proof.
  destruct (demoMerge Samples.randomBytes (VObj [])) as [y|e] eqn:E;
    [|vm_compute in E; discriminate E].
  destruct (mergeWithDefaults_launchers DemoHost.num_to_string DemoHost.string_to_num
              DemoHost.url_parse DemoHost.env DemoHost.cwd DemoHost.fileExists
              DemoHost.path_join false Samples.randomBytes (VObj []) y E)
    as (Hk & _).
  exists y. split; [reflexivity|]. apply Hk. left. reflexivity.
Defined.

(** With a budget of five, the first request of the window passes. *)
Lemma rateLimit_budget_witness :
  250 <= rateWindow Samples.limitedConfig /\ 3 <= rateMax Samples.limitedConfig
  /\ mine (js "10.0.0.7") ((0, Samples.demoRequest) :: Samples.demoTrace)
       (serve Samples.limitedConfig ((0, Samples.demoRequest) :: Samples.demoTrace)
          (mkAdmission ∅ 0)).2 !! 0%nat
     = Some (Samples.demoRequest, Next).
Proof.
  destruct (rateLimit_budget Samples.limitedConfig (js "10.0.0.7") (mkAdmission ∅ 0)
              Samples.demoRequest Samples.demoTrace 0 eq_refl) as (Hw & Hm & Hall).
  - intros e He. vm_compute in He. discriminate He.
  - unfold Samples.demoTrace.
    repeat (constructor; [vm_compute; discriminate|]). constructor.
  - split; [exact Hw|]. split; [exact Hm|].
    destruct (mine (js "10.0.0.7") ((0, Samples.demoRequest) :: Samples.demoTrace)
                (serve Samples.limitedConfig ((0, Samples.demoRequest) :: Samples.demoTrace)
                   (mkAdmission ∅ 0)).2 !! 0%nat) as [[rq o]|] eqn:E.
    + rewrite (Hall _ _ _ E). vm_compute in E. injection E as <- _. reflexivity.
    + vm_compute in E. discriminate E.
Defined.

(** The two-hundredth request since the last sweep resets the counter. *)
Lemma rateLimit_sweep_witness :
  rateSweepCounter (rateLimit Samples.limitedConfig 0 Samples.demoRequest (mkAdmission ∅ 199)).1
  = 0.
Proof.
  refine (proj1 (proj2 (rateLimit_sweep Samples.limitedConfig 0 Samples.demoRequest
                          (mkAdmission ∅ 199) _)) eq_refl).
  cbn. lia.
Defined.

(** The backup holds the old content although the rename fails. *)
Lemma persistConfig_backup_witness :
  files (persistConfig DemoHost.dirExists DemoHost.path_join DemoHost.path_basename
           DemoHost.path_dirname Samples.renameFails 4242 1700000000000
           Samples.demoConfigPath (js "{ new }") Samples.demoDisk).2
    !! (Samples.demoConfigPath ++ js ".bak")
  = Some (js "{ old }").
Proof.
  refine (persistConfig_backup DemoHost.dirExists DemoHost.path_join DemoHost.path_basename
            DemoHost.path_dirname Samples.renameFails 4242 1700000000000
            Samples.demoConfigPath (js "{ new }") (js "{ old }") Samples.demoDisk _ _ eq_refl).
  - vm_compute. discriminate.
  - vm_compute. reflexivity.
Defined.

(** The token generated for [{}] passes when it is the header. *)
Lemma generated_token_accepted_witness :
  exists y, demoMerge Samples.randomBytes (VObj []) = Ok y
            /\ requireToken y (Samples.headerRequest (randomToken Samples.randomBytes)) = Next.
Proof.
  destruct (demoMerge Samples.randomBytes (VObj [])) as [y|e] eqn:E;
    [|vm_compute in E; discriminate E].
  exists y. split; [reflexivity|].
  apply (generated_token_accepted Samples.randomBytes).
  - discriminate.
  - vm_compute. lia.
  - vm_compute in E. injection E as <-. vm_compute. reflexivity.
  - left. reflexivity.
Defined.

(** [{{ wow.folders.addons }}] reads the folder of the nested settings. *)
Lemma resolveTemplate_path_witness :
  resolveTemplate DemoHost.env DemoHost.inherited
    (VStr (js "{{ wow.folders.addons }}")) Samples.nestedSettings
  = js "C:\Games\AddOns".
Proof.
  refine (proj2 (resolveTemplate_path DemoHost.env DemoHost.inherited Samples.nestedSettings
                   (VStr (js "C:\Games\AddOns")) [js "wow"; js "folders"; js "addons"]
                   (js " wow.folders.addons ") _ _ eq_refl eq_refl eq_refl)).
  - repeat constructor; try discriminate; cbn; intuition discriminate.
  - discriminate.
Defined.

(** A plain path is no template. *)
Lemma hasTemplateSyntax_covers_witness :
  resolveTemplate DemoHost.env DemoHost.inherited (VStr (js "C:\Tools\app.exe")) (VObj [])
  = js "C:\Tools\app.exe".
Proof.
  exact (proj2 (hasTemplateSyntax_covers DemoHost.env DemoHost.inherited
                  (js "C:\Tools\app.exe") (VObj []) eq_refl)).
Defined.

(** The workspace tile opens the workspace directory of the configuration. *)
Lemma builtin_tile_targets_witness :
  exists d, In d getDefaultTiles /\ tile_id d = js "workspace"
            /\ resolveTileTarget DemoHost.num_to_string DemoHost.env DemoHost.inherited
                 Samples.limitedConfig d
               = js "C:\work".
Proof.
  eexists. split; [right; right; right; left; reflexivity|]. split; [reflexivity|].
  exact (proj1 (builtin_tile_targets DemoHost.num_to_string DemoHost.env DemoHost.inherited
                  Samples.limitedConfig _
                  (or_intror (or_intror (or_intror (or_introl eq_refl))))) eq_refl).
Defined.

(** A launcher whose [candidates] is the number 5 makes the merge throw. *)
Lemma mergeWithDefaults_throws_iff_witness :
  demoMerge Samples.randomBytes Samples.numberCandidates = Throw TypeError.
Proof.
  exact (proj2 (proj1 (mergeWithDefaults_throws_iff DemoHost.num_to_string
                         DemoHost.string_to_num DemoHost.url_parse DemoHost.env DemoHost.cwd
                         DemoHost.fileExists DemoHost.path_join false Samples.randomBytes
                         Samples.numberCandidates eq_refl))
           (or_intror (or_introl eq_refl))).
Defined.
